(** * vspipeline_utilities: sample groups, template resolution, manifests

    A shallow embedding of [tasks/utils/vspipeline_utilities.py] and the
    properties of its group resolver, template resolver, manifest merger,
    manifest store, batch generator, locked reader and writer, and CNV
    update.

    Conventions of the embedding.
    - Python [str] is [string]; characters are bytes, which is exact for
      ASCII text (the only text the helpers below inspect by character).
    - Python [set] of strings is [gset string]; the order in which a [for]
      loop walks a set is a parameter [order] of the embedding.
    - Python [dict] keeps insertion order; where the code iterates over a
      dict it is an association list with unique-key update ([dict_set]),
      where it only looks keys up it is a [gmap].
    - A raised exception is [None] in the option monad; every handler of
      the program catches [Exception] as a whole, so which exception it was
      does not matter. *)

From Stdlib Require Import String Ascii ZArith QArith Qround Lqa.
From Stdlib Require OrderedTypeEx.
From stdpp Require Import gmap strings list sorting fin_sets relations.

(** ** Python strings *)

Module PyStr.

(** [str.isspace] on the ASCII range: TAB..CR, FS..US and SPACE. *)
Definition is_space (c : ascii) : bool :=
  let n := nat_of_ascii c in
  ((9 <=? n) && (n <=? 13)) || ((28 <=? n) && (n <=? 32)).

Fixpoint lstrip (s : string) : string :=
  match s with
  | EmptyString => EmptyString
  | String c r => if is_space c then lstrip r else s
  end.

Fixpoint rstrip (s : string) : string :=
  match s with
  | EmptyString => EmptyString
  | String c r =>
      match rstrip r with
      | EmptyString => if is_space c then EmptyString else String c EmptyString
      | r' => String c r'
      end
  end.

(** [s.strip()] *)
Definition strip (s : string) : string := rstrip (lstrip s).

(** The order of [sorted] and [min] on strings: lexicographic on code points. *)
Definition le (a b : string) : Prop := String.leb a b.

#[global] Instance le_dec a b : Decision (le a b).
Proof. unfold le. apply _. Defined.

(** [sorted(xs)] *)
Definition sorted (l : list string) : list string := merge_sort le l.

(** [min(xs)]; raises [ValueError] on an empty argument. *)
Definition min (l : list string) : option string :=
  match l with
  | [] => None
  | x :: r => Some (fold_left (λ m y, if String.ltb y m then y else m) r x)
  end.

(** [sep.join(xs)] *)
Fixpoint join (sep : string) (l : list string) : string :=
  match l with
  | [] => ""
  | [x] => x
  | x :: r => x +:+ sep +:+ join sep r
  end.

End PyStr.

(** ** Insertion-ordered dictionaries *)

Section pydict.
Context {V : Type}.

Fixpoint dict_get (k : string) (d : list (string * V)) : option V :=
  match d with
  | [] => None
  | (k', v) :: d' => if decide (k = k') then Some v else dict_get k d'
  end.

(** [d[k] = v]: an existing key keeps its position, a new one goes last. *)
Fixpoint dict_set (k : string) (v : V) (d : list (string * V)) : list (string * V) :=
  match d with
  | [] => [(k, v)]
  | (k', v') :: d' =>
      if decide (k = k') then (k, v) :: d' else (k', v') :: dict_set k v d'
  end.
End pydict.

(** ** Group resolver *)

(** [_parse_sample_file]: one row of the TSV reader after the header. *)
Definition clean_metadata (values : list string) : list string :=
  PyStr.strip <$> filter (λ value, value ≠ "" ∧ PyStr.strip value ≠ "") values.

Definition parse_row (acc : list (string * list string) * gset string)
    (row : list string) : list (string * list string) * gset string :=
  match row with
  | [] => acc
  | c0 :: rest =>
      let sample_name := PyStr.strip c0 in
      if decide (sample_name = "") then acc
      else (dict_set sample_name (clean_metadata rest) acc.1, {[sample_name]} ∪ acc.2)
  end.

(** [next(reader)] raises [StopIteration] on a file without a header row. *)
Definition _parse_sample_file (table : list (list string))
    : option (list (string * list string) * gset string) :=
  match table with
  | [] => None
  | _header :: rows => Some (fold_left parse_row rows ([], ∅))
  end.

Record bfs_state := BfsState {
  current_group : gset string;
  processed_samples : gset string;
  to_process : list string
}.

(** The three statements repeated in both inner loops. *)
Definition visit (x : string) (st : bfs_state) : bfs_state :=
  {| current_group := {[x]} ∪ current_group st;
     processed_samples := {[x]} ∪ processed_samples st;
     to_process := to_process st ++ [x] |}.

(** Body of [for other_sample, metadata_values in sample_data.items()]. *)
Definition scan_referrer (current_sample : string) (st : bfs_state)
    (item : string * list string) : bfs_state :=
  if decide (item.1 ∈ processed_samples st) then st
  else if decide (current_sample ∈ item.2) then visit item.1 st
  else st.

(** Body of [for metadata_value in sample_data.get(current_sample, [])]. *)
Definition scan_reference (all_samples : gset string) (st : bfs_state)
    (metadata_value : string) : bfs_state :=
  if decide (metadata_value ∈ all_samples ∧ metadata_value ∉ processed_samples st)
  then visit metadata_value st
  else st.

(** One turn of [while to_process], after [to_process.pop(0)]. *)
Definition bfs_turn (sample_data : list (string * list string))
    (all_samples : gset string) (current_sample : string) (st : bfs_state)
    : bfs_state :=
  let st1 := fold_left (scan_referrer current_sample) sample_data st in
  fold_left (scan_reference all_samples)
    (default [] (dict_get current_sample sample_data)) st1.

Fixpoint bfs_loop (fuel : nat) (sample_data : list (string * list string))
    (all_samples : gset string) (st : bfs_state) : option bfs_state :=
  match fuel with
  | 0 => None
  | S fuel' =>
      match to_process st with
      | [] => Some st
      | current_sample :: rest =>
          bfs_loop fuel' sample_data all_samples
            (bfs_turn sample_data all_samples current_sample
               (BfsState (current_group st) (processed_samples st) rest))
      end
  end.

(** Turns the loop can need: every turn pops one queued sample, and a sample
    is queued only when it first enters [processed_samples]. *)
Definition bfs_fuel (sample_data : list (string * list string))
    (all_samples : gset string) : nat :=
  S (S (size all_samples + length sample_data)).

(** Returns the group and the updated (shared) [processed_samples]. *)
Definition _find_connected_samples (sample : string)
    (sample_data : list (string * list string)) (all_samples : gset string)
    (processed : gset string) : option (gset string * gset string) :=
  st ← bfs_loop (bfs_fuel sample_data all_samples) sample_data all_samples
         (BfsState {[sample]} ({[sample]} ∪ processed) [sample]);
  Some (current_group st, processed_samples st).

(** Body of [for sample in all_samples] in non-cohort mode. *)
Definition group_step (sample_data : list (string * list string))
    (all_samples : gset string)
    (acc : option (gmap string (list string) * gset string)) (sample : string)
    : option (gmap string (list string) * gset string) :=
  '(relationships, processed) ← acc;
  if decide (sample ∈ processed) then Some (relationships, processed)
  else
    '(group, processed') ← _find_connected_samples sample sample_data all_samples processed;
    group_key ← PyStr.min (elements group);
    Some (<[group_key := PyStr.sorted (elements group)]> relationships, processed').

(** [_output_sample_groups]: the groups in the order their lines are written. *)
Definition _output_sample_groups (relationships : gmap string (list string))
    : list (list string) :=
  (λ group_key, default [] (relationships !! group_key))
    <$> PyStr.sorted (elements (dom relationships)).

(** [find_sample_relationships]; [None] is the [sys.exit(1)] of the handler. *)
Definition find_sample_relationships (order : gset string → list string)
    (table : list (list string)) (cohort : bool) : option (list (list string)) :=
  '(sample_data, all_samples) ← _parse_sample_file table;
  relationships ←
    (if cohort then
       Some (if decide (all_samples = ∅) then ∅
             else {[ "cohort" := PyStr.sorted (elements all_samples) ]})
     else
       fst <$> fold_left (group_step sample_data all_samples)
                 (order all_samples) (Some (∅, ∅)));
  Some (_output_sample_groups relationships).

(** ** Measure and invariants of the group resolver *)

Section traversal_model.
Variable sample_data : list (string * list string).
Variable all_samples : gset string.

(** Every name the traversal can ever mark. *)
Definition universe : gset string := all_samples ∪ list_to_set sample_data.*1.

Definition bfs_measure (st : bfs_state) : nat :=
  size (universe ∖ processed_samples st) + length (to_process st).

(** What holds of the state all along, for a traversal started with
    [processed0] already marked. *)
Definition bfs_inv (seed : string) (processed0 : gset string) (st : bfs_state) : Prop :=
  seed ∈ current_group st
  ∧ current_group st ## processed0
  ∧ processed_samples st = processed0 ∪ current_group st
  ∧ (∀ x, x ∈ current_group st → x ∈ universe).
End traversal_model.

(** The dictionary and the set built by the parser carry the same names. *)
Definition parse_inv (acc : list (string * list string) * gset string) : Prop :=
  NoDup acc.1.*1 ∧ ∀ k, k ∈ acc.1.*1 ↔ k ∈ acc.2.

(** [groups] is a partition of [samples]: the claim's three clauses, and
    that a group lists no name twice and is not empty. *)
Definition partitions (groups : list (list string)) (samples : gset string) : Prop :=
  (∀ x, x ∈ samples →
     ∃ i, (∃ g, groups !! i = Some g ∧ x ∈ g)
          ∧ ∀ j h, groups !! j = Some h → x ∈ h → j = i)
  ∧ (∀ i j g h x, groups !! i = Some g → groups !! j = Some h → i ≠ j →
       x ∈ g → x ∉ h)
  ∧ (∀ x, (∃ g, g ∈ groups ∧ x ∈ g) ↔ x ∈ samples)
  ∧ (∀ g, g ∈ groups → g ≠ [] ∧ NoDup g).

Definition groups_inv (acc : gmap string (list string) * gset string) : Prop :=
  (∀ k g, acc.1 !! k = Some g → k ∈ g ∧ NoDup g)
  ∧ (∀ k g x, acc.1 !! k = Some g → x ∈ g → x ∈ acc.2)
  ∧ (∀ x, x ∈ acc.2 → ∃ k g, acc.1 !! k = Some g ∧ x ∈ g)
  ∧ (∀ k1 k2 g1 g2 x, acc.1 !! k1 = Some g1 → acc.1 !! k2 = Some g2 →
       x ∈ g1 → x ∈ g2 → k1 = k2).

(** The name a data row files its values under, if it files any. *)
Definition row_name (row : list string) : option string := PyStr.strip <$> head row.



(** ** Manifests *)

(** The enumeration every manifest list is filed under. *)
Inductive file_type := Multiverse | Cnv | Bnd | Region.

Definition file_type_name (ft : file_type) : string :=
  match ft with
  | Multiverse => "multiverse"
  | Cnv => "cnv"
  | Bnd => "bnd"
  | Region => "region"
  end.

(** [['multiverse', 'cnv', 'bnd', 'region']] *)
Definition file_types : list file_type := [Multiverse; Cnv; Bnd; Region].
Definition valid_file_types : list string := file_type_name <$> file_types.

#[global] Instance file_type_eq_dec : EqDecision file_type.
Proof. solve_decision. Defined.

(** A manifest document as [json.load] returns its ["samples"] field: sample
    name to file-type name to paths, both levels in document order. *)
Abbreviation manifest_doc := (list (string * list (string * list string))).

(** The four lists the merger keeps for a sample. *)
Record sample_files := SampleFiles {
  multiverse : list string;
  cnv : list string;
  bnd : list string;
  region : list string
}.

Definition empty_files : sample_files := SampleFiles [] [] [] [].

Definition get_files (ft : file_type) (e : sample_files) : list string :=
  match ft with
  | Multiverse => multiverse e
  | Cnv => cnv e
  | Bnd => bnd e
  | Region => region e
  end.

Definition set_files (ft : file_type) (l : list string) (e : sample_files) : sample_files :=
  match ft with
  | Multiverse => SampleFiles l (cnv e) (bnd e) (region e)
  | Cnv => SampleFiles (multiverse e) l (bnd e) (region e)
  | Bnd => SampleFiles (multiverse e) (cnv e) l (region e)
  | Region => SampleFiles (multiverse e) (cnv e) (bnd e) l
  end.

(** [if file_path not in file_list: file_list.append(file_path)] *)
Definition add_path (file_list : list string) (file_path : string) : list string :=
  if decide (file_path ∈ file_list) then file_list else file_list ++ [file_path].

(** Body of [for file_type in ['multiverse', 'cnv', 'bnd', 'region']]. *)
Definition merge_type (sample_info : list (string * list string))
    (entry : sample_files) (ft : file_type) : sample_files :=
  let files := default [] (dict_get (file_type_name ft) sample_info) in
  set_files ft (fold_left add_path files (get_files ft entry)) entry.

(** Body of [for sample_name, sample_info in samples.items()]. *)
Definition merge_sample (merged_data : gmap string sample_files)
    (item : string * list (string * list string)) : gmap string sample_files :=
  let entry := default empty_files (merged_data !! item.1) in
  <[item.1 := fold_left (merge_type item.2) file_types entry]> merged_data.

(** [_merge_vspipeline_json_files], on the documents read: a file that
    cannot be opened or parsed is skipped by the handler with a warning and
    is not among them. *)
Definition merge_doc (merged_data : gmap string sample_files) (doc : manifest_doc)
    : gmap string sample_files :=
  fold_left merge_sample doc merged_data.

Definition _merge_vspipeline_json_files (docs : list manifest_doc)
    : gmap string sample_files :=
  fold_left merge_doc docs ∅.

(** The list the merged view holds for a sample and a file type. *)
Definition merged_list (merged_data : gmap string sample_files) (sample_name : string)
    (ft : file_type) : list string :=
  get_files ft (default empty_files (merged_data !! sample_name)).

(** The paths one document files under a sample and a type, in document
    order, and the same across the documents in the order supplied. *)
Definition doc_paths (sample_name : string) (ft : file_type) (doc : manifest_doc)
    : list string :=
  item ← doc;
  if decide (item.1 = sample_name)
  then default [] (dict_get (file_type_name ft) item.2)
  else [].

Definition all_paths (sample_name : string) (ft : file_type) (docs : list manifest_doc)
    : list string :=
  docs ≫= doc_paths sample_name ft.

(** The first occurrences of a list, in order. *)
Fixpoint first_seen (l : list string) : list string :=
  match l with
  | [] => []
  | x :: r => x :: filter (λ y, y ≠ x) (first_seen r)
  end.

(** ** Manifest store, one writer at a time *)

(** The documents under the output directory and under the scratch
    directory, by file name. With a single writer every [flock] succeeds at
    the first attempt, so the retry loops of [_safe_read_json_file] and
    [_safe_write_json_file] reduce to one read and one write. *)
Record store := Store {
  output_dir : gmap string manifest_doc;
  scratch_dir : gmap string manifest_doc
}.

(** [{'multiverse': [], 'cnv': [], 'bnd': [], 'region': []}] *)
Definition empty_entry : list (string * list string) :=
  (λ ft, (file_type_name ft, [])) <$> file_types.

Definition json_filename (sample_name task_name : string) : string :=
  sample_name +:+ "_" +:+ task_name +:+ "_vspipeline_inputs.json".

(** [update_vspipeline_json]; [None] is [sys.exit(1)], taken on an invalid
    file type before any file is touched and on a [KeyError]. *)
Definition update_vspipeline_json (st : store)
    (sample_name file_path file_type task_name : string) : option store :=
  if decide (file_type ∈ valid_file_types) then
    let name := json_filename sample_name task_name in
    let scratch1 :=
      match output_dir st !! name with
      | Some doc => <[name := doc]> (scratch_dir st)
      | None => scratch_dir st
      end in
    let samples := default [] (scratch1 !! name) in
    let samples1 :=
      match dict_get sample_name samples with
      | Some _ => samples
      | None => dict_set sample_name empty_entry samples
      end in
    entry ← dict_get sample_name samples1;
    file_list ← dict_get file_type entry;
    let samples2 :=
      dict_set sample_name (dict_set file_type (add_path file_list file_path) entry)
        samples1 in
    Some (Store (<[name := samples2]> (output_dir st)) (<[name := samples2]> scratch1))
  else None.

(** Appends made one after another by the same writer. *)
Definition update_all (st : store) (sample_name file_type task_name : string)
    (paths : list string) : option store :=
  fold_left
    (λ acc file_path,
       st' ← acc; update_vspipeline_json st' sample_name file_path file_type task_name)
    paths (Some st).

(** The list persisted for a sample and a file type, if there is one. *)
Definition stored_list (st : store) (sample_name file_type task_name : string)
    : option (list string) :=
  doc ← output_dir st !! json_filename sample_name task_name;
  entry ← dict_get sample_name doc;
  dict_get file_type entry.

(** The document an append starts from: the persisted one, else whatever
    the scratch directory still holds, else an empty one. *)
Definition staged_doc (st : store) (name : string) : manifest_doc :=
  default []
    (match output_dir st !! name with
     | Some doc => Some doc
     | None => scratch_dir st !! name
     end).

(** The list an append finds in a document: that of the sample's entry, or
    the empty list of the entry it is about to create. *)
Definition doc_list (doc : manifest_doc) (sample_name file_type : string)
    : option (list string) :=
  match dict_get sample_name doc with
  | Some entry => dict_get file_type entry
  | None => dict_get file_type empty_entry
  end.

(** ** Batch descriptor generator *)

(** The keys ['cnv'], ['breakend'] and ['region'] of the two dictionaries a
    template resolves to. *)
Inductive category := CatCnv | CatBreakend | CatRegion.

#[global] Instance category_eq_dec : EqDecision category.
Proof. solve_decision. Defined.

(** [import_algorithms]: [Dict[str, bool]] over the three keys. *)
Record import_flags := ImportFlags {
  alg_cnv : bool;
  alg_breakend : bool;
  alg_region : bool
}.

(** [table_ids] as the generator is typed: [Dict[str, Optional[str]]]. *)
Record table_names := TableNames {
  tid_cnv : option string;
  tid_breakend : option string;
  tid_region : option string
}.

Definition dquote : string := String (ascii_of_nat 34) EmptyString.
Definition newline : string := String (ascii_of_nat 10) EmptyString.

(** [f'"{f}"'] *)
Definition quoted (f : string) : string := dquote +:+ f +:+ dquote.

(** [','.join([f'"{f}"' for f in files])] *)
Definition quoted_files (files : list string) : string :=
  PyStr.join "," (quoted <$> files).

(** [x or 'Table1'] on an optional string: [None] and [''] are both falsy. *)
Definition or_default (x : option string) (d : string) : string :=
  match x with
  | Some s => if decide (s = "") then d else s
  | None => d
  end.

Fixpoint has_slash (s : string) : bool :=
  match s with
  | EmptyString => false
  | String c r => if decide (c = ascii_of_nat 47) then true else has_slash r
  end.

(** [os.path.basename] on a POSIX path: what follows the last slash. *)
Fixpoint basename (s : string) : string :=
  match s with
  | EmptyString => EmptyString
  | String c r =>
      if has_slash r then basename r
      else if decide (c = ascii_of_nat 47) then r else s
  end.

(** The files of one type over the group, in group order; a sample the
    merged manifest does not know gives none. *)
Definition group_files (sample_group : list string)
    (sample_data : gmap string sample_files) (ft : file_type) : list string :=
  sample_name ← sample_group;
  match sample_data !! sample_name with
  | Some sample_info => get_files ft sample_info
  | None => []
  end.

(** The lines [_generate_vsbatch_content] appends to [vsbatch_lines]. *)
Definition vsbatch_lines (template_file : string) (sample_group : list string)
    (sample_data : gmap string sample_files) (import_algorithms : import_flags)
    (table_ids : table_names) (overwrite_project : bool) : list string :=
  let project_name :=
    if decide (length sample_group < 6)
    then PyStr.join "_" (PyStr.sorted sample_group)
    else default "" (head sample_group) +:+ "_cohort" in
  let template_name := basename template_file in
  let project_create_cmd :=
    "project_create " +:+ quoted ("AppData/Projects/" +:+ project_name)
      +:+ " template=" +:+ quoted template_name
      +:+ (if overwrite_project then " overwrite=true" else "") in
  let multiverse_files := group_files sample_group sample_data Multiverse in
  let cnv_files := group_files sample_group sample_data Cnv in
  let bnd_files := group_files sample_group sample_data Bnd in
  let region_files := group_files sample_group sample_data Region in
  [project_create_cmd; "download_required_sources"]
  ++ (if decide (multiverse_files ≠ [])
      then ["import files=" +:+ quoted_files multiverse_files
              +:+ " sample_fields_catalog=SampleCatalog"; "task_wait"]
      else [])
  ++ (if decide (alg_cnv import_algorithms = true ∧ cnv_files ≠ [])
      then ["update_cnv_import files=" +:+ quoted_files cnv_files
              +:+ " table_id=" +:+ quoted (or_default (tid_cnv table_ids) "Table1");
            "task_wait"]
      else [])
  ++ (if decide (alg_breakend import_algorithms = true ∧ bnd_files ≠ [])
      then ["update_bnd_import files=" +:+ quoted_files bnd_files
              +:+ " table_id=" +:+ quoted (or_default (tid_breakend table_ids) "Table1");
            "task_wait"]
      else [])
  ++ (if decide (alg_region import_algorithms = true ∧ region_files ≠ [])
      then ["update_region_import files=" +:+ quoted_files region_files
              +:+ " table_id=" +:+ quoted (or_default (tid_region table_ids) "Table1");
            "task_wait"]
      else [])
  ++ ["get_task_list"; "project_save"; "project_close"].

Definition _generate_vsbatch_content (template_file : string) (sample_group : list string)
    (sample_data : gmap string sample_files) (import_algorithms : import_flags)
    (table_ids : table_names) (overwrite_project : bool) : string :=
  PyStr.join newline
    (vsbatch_lines template_file sample_group sample_data import_algorithms
       table_ids overwrite_project).

(** What the claims say of one category, read off the inputs. *)
Definition category_flag (c : category) (flags : import_flags) : bool :=
  match c with
  | CatCnv => alg_cnv flags
  | CatBreakend => alg_breakend flags
  | CatRegion => alg_region flags
  end.

Definition category_table (c : category) (ids : table_names) : option string :=
  match c with
  | CatCnv => tid_cnv ids
  | CatBreakend => tid_breakend ids
  | CatRegion => tid_region ids
  end.

Definition category_file_type (c : category) : file_type :=
  match c with
  | CatCnv => Cnv
  | CatBreakend => Bnd
  | CatRegion => Region
  end.

Definition category_command (c : category) : string :=
  match c with
  | CatCnv => "update_cnv_import"
  | CatBreakend => "update_bnd_import"
  | CatRegion => "update_region_import"
  end.

(** A line is the import command of a category when it starts with the
    command word and a space. *)
Definition is_import_of (c : category) (line : string) : bool :=
  String.prefix (category_command c +:+ " ") line.

(** The import command of a category over given files and a table name. *)
Definition import_command (c : category) (files : list string) (table : string) : string :=
  category_command c +:+ " files=" +:+ quoted_files files
    +:+ " table_id=" +:+ quoted table.

(** The two lines a category contributes, or none. *)
Definition category_part (c : category) (flags : import_flags) (ids : table_names)
    (files : list string) : list string :=
  if decide (category_flag c flags = true ∧ files ≠ [])
  then [import_command c files (or_default (category_table c ids) "Table1"); "task_wait"]
  else [].

(** ** CNV state *)

(** What [float(fields[cn_index])] can be once the text parsed: a finite
    double, which is a rational number, an infinity, or a NaN. *)
Inductive py_float := Finite (q : Q) | Infinite | NaN.

(** [round(x)] on a finite float: the nearest integer, a tie going to the
    even one. *)
Definition py_round (q : Q) : Z :=
  let f := Qfloor q in
  match Qcompare (Qminus q (inject_Z f)) (Qmake 1 2) with
  | Lt => f
  | Gt => (f + 1)%Z
  | Eq => if Z.even f then f else (f + 1)%Z
  end.

(** The [if]/[elif] chain on [cn_int]. *)
Definition cnv_state (cn_int : Z) : string :=
  if (cn_int =? 2)%Z then "Normal"
  else if (cn_int =? 0)%Z then "Deletion"
  else if (cn_int =? 1)%Z then "Het Deletion"
  else if (cn_int >=? 3)%Z then "Duplicate"
  else "?".

(** What becomes of a data row of [update_cnv_file] whose copy-number text
    parsed as a float: the state is appended; [round] of a NaN raises
    [ValueError] and the row is skipped with a warning; [round] of an
    infinity raises [OverflowError], which ends the run. *)
Inductive row_outcome := Appended (state : string) | Skipped | Aborted.

Definition classify_row (cn_value : py_float) : row_outcome :=
  match cn_value with
  | Finite q => Appended (cnv_state (py_round q))
  | NaN => Skipped
  | Infinite => Aborted
  end.

(** ** Template documents *)

(** What [json.load] returns. Objects keep document order and are assumed
    to have unique keys, as a Python [dict] does; numbers are rationals,
    which covers every integer and every finite float, and differ from one
    another only by value in what the resolver does with them. *)
Inductive json :=
| JNull
| JBool (b : bool)
| JNum (q : Q)
| JStr (s : string)
| JArr (items : list json)
| JObj (fields : list (string * json)).

Module Py.

(** [obj.get(key, default)]; only a dict has [get] ([AttributeError]). *)
Definition get (obj : json) (key : string) (dflt : json) : option json :=
  match obj with
  | JObj fields => Some (default dflt (dict_get key fields))
  | _ => None
  end.

(** The values a [for] loop draws from [v] ([TypeError] when [v] is not
    iterable): the items of a list, the keys of a dict, the characters of a
    string. *)
Definition iter (v : json) : option (list json) :=
  match v with
  | JArr items => Some items
  | JObj fields => Some (JStr <$> fields.*1)
  | JStr s => Some ((λ c, JStr (String c EmptyString)) <$> list_ascii_of_string s)
  | _ => None
  end.

(** [bool(v)] *)
Definition truthy (v : json) : bool :=
  match v with
  | JNull => false
  | JBool b => b
  | JNum q => negb (Qeq_bool q 0)
  | JStr s => negb (String.eqb s "")
  | JArr items => match items with [] => false | _ => true end
  | JObj fields => match fields with [] => false | _ => true end
  end.

(** Lists and dicts cannot be hashed ([TypeError]). *)
Definition hashable (v : json) : bool :=
  match v with
  | JArr _ | JObj _ => false
  | _ => true
  end.

(** [a == b] on hashable values: a bool is the number 0 or 1. *)
Definition key_eq (a b : json) : bool :=
  match a, b with
  | JNull, JNull => true
  | JStr s, JStr t => String.eqb s t
  | JBool x, JBool y => Bool.eqb x y
  | JNum p, JNum q => Qeq_bool p q
  | JBool x, JNum q | JNum q, JBool x => Qeq_bool (if x then 1 else 0) q
  | _, _ => false
  end.

(** [v == 'text'] *)
Definition is_str (v : json) (text : string) : bool :=
  match v with
  | JStr s => String.eqb s text
  | _ => false
  end.

(** The string a [str] method is called on ([AttributeError] otherwise). *)
Definition as_str (v : json) : option string :=
  match v with
  | JStr s => Some s
  | _ => None
  end.

Definition lower_char (c : ascii) : ascii :=
  let n := nat_of_ascii c in
  if (65 <=? n) && (n <=? 90) then ascii_of_nat (n + 32) else c.

(** [s.lower()] *)
Fixpoint lower (s : string) : string :=
  match s with
  | EmptyString => EmptyString
  | String c r => String (lower_char c) (lower r)
  end.

(** [sub in s] *)
Fixpoint contains (sub s : string) : bool :=
  String.prefix sub s
  || match s with
     | EmptyString => false
     | String _ r => contains sub r
     end.

Definition is_digit (c : ascii) : bool :=
  let n := nat_of_ascii c in (48 <=? n) && (n <=? 57).

Fixpoint all_digits (s : string) : bool :=
  match s with
  | EmptyString => true
  | String c r => is_digit c && all_digits r
  end.

(** [s.isdigit()] *)
Definition isdigit (s : string) : bool :=
  match s with
  | EmptyString => false
  | _ => all_digits s
  end.

(** [s.replace(old, '')] for a non-empty [old]: every occurrence met from
    the left is dropped; [skip] counts the characters of the occurrence
    still to drop. *)
Fixpoint remove_from (skip : nat) (old s : string) : string :=
  match s with
  | EmptyString => EmptyString
  | String c r =>
      match skip with
      | S k => remove_from k old r
      | 0 =>
          if String.prefix old s
          then remove_from (String.length old - 1) old r
          else String c (remove_from 0 old r)
      end
  end.

Definition remove_all (old s : string) : string := remove_from 0 old s.

End Py.

(** A dict keyed by hashable values, in insertion order. *)
Fixpoint lookup_get (k : json) (d : list (json * json)) : option json :=
  match d with
  | [] => None
  | (k', v) :: d' => if Py.key_eq k k' then Some v else lookup_get k d'
  end.

Fixpoint lookup_set (k v : json) (d : list (json * json)) : list (json * json) :=
  match d with
  | [] => [(k, v)]
  | (k', v') :: d' =>
      if Py.key_eq k k' then (k', v) :: d' else (k', v') :: lookup_set k v d'
  end.

(** Body of [for axis in obj['axisUuids']]. *)
Definition record_axis (axis_lookup : list (json * json)) (axis : json)
    : option (list (json * json)) :=
  class_name ← Py.get axis "className" JNull;
  if Py.is_str class_name "AxisUuidOptions" then
    fields ← Py.get axis "fields" (JObj []);
    uuid ← Py.get fields "uuid" JNull;
    if Py.truthy uuid then
      if Py.hashable uuid then Some (lookup_set uuid fields axis_lookup) else None
    else Some axis_lookup
  else Some axis_lookup.

(** A loop whose body may raise: the first exception ends it. *)
Definition for_each {A S : Type} (body : S → A → option S) (l : list A) (s : S)
    : option S :=
  fold_left (λ acc x, s' ← acc; body s' x) l (Some s).

(** [_find_axis_uuids], returning the lookup it fills. *)
Fixpoint _find_axis_uuids (obj : json) (axis_lookup : list (json * json))
    : option (list (json * json)) :=
  match obj with
  | JObj fields =>
      lookup1 ←
        match dict_get "axisUuids" fields with
        | Some axes => axes_items ← Py.iter axes; for_each record_axis axes_items axis_lookup
        | None => Some axis_lookup
        end;
      (fix values (fs : list (string * json)) (lk : list (json * json)) :=
         match fs with
         | [] => Some lk
         | (_, value) :: rest => lk' ← _find_axis_uuids value lk; values rest lk'
         end) fields lookup1
  | JArr items =>
      (fix each (l : list json) (lk : list (json * json)) :=
         match l with
         | [] => Some lk
         | item :: rest => lk' ← _find_axis_uuids item lk; each rest lk'
         end) items axis_lookup
  | _ => Some axis_lookup
  end.

(** [_find_table_data_options], without the path strings, which nothing
    reads. *)
Fixpoint _find_table_data_options (obj : json) : list json :=
  match obj with
  | JObj fields =>
      (if Py.is_str (default JNull (dict_get "className" fields)) "VSTableDataOptions"
       then [obj] else [])
      ++ (fix values (fs : list (string * json)) :=
            match fs with
            | [] => []
            | (_, value) :: rest => _find_table_data_options value ++ values rest
            end) fields
  | JArr items =>
      (fix each (l : list json) :=
         match l with
         | [] => []
         | item :: rest => _find_table_data_options item ++ each rest
         end) items
  | _ => []
  end.

(** One value for each of ['cnv'], ['breakend'], ['region']. *)
Record per_category (A : Type) := PerCategory {
  of_cnv : A;
  of_breakend : A;
  of_region : A
}.
Arguments PerCategory {A} _ _ _.
Arguments of_cnv {A} _.
Arguments of_breakend {A} _.
Arguments of_region {A} _.

Definition cat_get {A : Type} (c : category) (d : per_category A) : A :=
  match c with
  | CatCnv => of_cnv d
  | CatBreakend => of_breakend d
  | CatRegion => of_region d
  end.

Definition cat_set {A : Type} (c : category) (x : A) (d : per_category A) : per_category A :=
  match c with
  | CatCnv => PerCategory x (of_breakend d) (of_region d)
  | CatBreakend => PerCategory (of_cnv d) x (of_region d)
  | CatRegion => PerCategory (of_cnv d) (of_breakend d) x
  end.

(** Body of [for axis_uuid in axis_uuid_list]. *)
Definition match_axis (axis_lookup : list (json * json)) (user_id : json)
    (matching_tables : per_category (list json)) (axis_uuid : json)
    : option (per_category (list json)) :=
  if Py.hashable axis_uuid then
    match lookup_get axis_uuid axis_lookup with
    | Some axis_fields =>
        axis_type ← Py.get axis_fields "axisType" (JStr "");
        if Py.is_str axis_type "CNV"
        then Some (cat_set CatCnv (of_cnv matching_tables ++ [user_id]) matching_tables)
        else if Py.is_str axis_type "Breakend"
        then Some (cat_set CatBreakend (of_breakend matching_tables ++ [user_id])
                     matching_tables)
        else if Py.is_str axis_type "Region"
        then Some (cat_set CatRegion (of_region matching_tables ++ [user_id])
                     matching_tables)
        else Some matching_tables
    | None => Some matching_tables
    end
  else None.

(** Body of [for path, table_option in table_options]. *)
Definition match_table (axis_lookup : list (json * json))
    (matching_tables : per_category (list json)) (table_option : json)
    : option (per_category (list json)) :=
  fields ← Py.get table_option "fields" (JObj []);
  user_id ← Py.get fields "userId" (JStr "");
  axis_uuid_list ← Py.get fields "axisUuidList" (JArr []);
  axis_uuids ← Py.iter axis_uuid_list;
  for_each (match_axis axis_lookup user_id) axis_uuids matching_tables.

(** The loop that removes duplicates through the set [seen]. *)
Fixpoint unique_from (seen : list json) (candidates : list json) : option (list json) :=
  match candidates with
  | [] => Some []
  | candidate :: rest =>
      if Py.hashable candidate then
        if existsb (Py.key_eq candidate) seen then unique_from seen rest
        else cons candidate <$> unique_from (candidate :: seen) rest
      else None
  end.

(** [c.startswith('Table') and c.replace('Table', '').isdigit()] *)
Definition is_generic (c : string) : bool :=
  String.prefix "Table" c && Py.isdigit (Py.remove_all "Table" c).

(** The choice among the candidates of one table type; [JNull] is [None]. *)
Definition select_table (candidates : list json) : option json :=
  match candidates with
  | [] => Some JNull
  | _ =>
      unique_candidates ← unique_from [] candidates;
      match unique_candidates with
      | [] => Some JNull
      | [only] => Some only
      | _ =>
          names ← mapM Py.as_str unique_candidates;
          let custom_names := filter (λ c, is_generic c = false) names in
          let generic_names := filter (λ c, is_generic c = true) names in
          if decide (custom_names ≠ []) then JStr <$> head (PyStr.sorted custom_names)
          else if decide (generic_names ≠ []) then JStr <$> head (PyStr.sorted generic_names)
          else head unique_candidates
      end
  end.

(** The [if]/[elif] chain on the lowered name of one algorithm. *)
Definition flag_algorithm (import_algorithms : import_flags) (alg_name : string)
    : import_flags :=
  let name := Py.lower alg_name in
  if Py.contains "import" name then
    if Py.contains "cnv" name
    then ImportFlags true (alg_breakend import_algorithms) (alg_region import_algorithms)
    else if Py.contains "breakend" name || Py.contains "bnd" name
    then ImportFlags (alg_cnv import_algorithms) true (alg_region import_algorithms)
    else if Py.contains "region" name
    then ImportFlags (alg_cnv import_algorithms) (alg_breakend import_algorithms) true
    else import_algorithms
  else import_algorithms.

(** Body of [for algorithm in algorithms]. *)
Definition check_algorithm (import_algorithms : import_flags) (algorithm : json)
    : option import_flags :=
  alg_fields ← Py.get algorithm "fields" (JObj []);
  alg_name ← Py.get alg_fields "algName" (JStr "");
  name ← Py.as_str alg_name;
  Some (flag_algorithm import_algorithms name).

(** Body of [for data_tree in data_trees]. *)
Definition check_tree (import_algorithms : import_flags) (data_tree : json)
    : option import_flags :=
  tree_fields ← Py.get data_tree "fields" (JObj []);
  algorithms ← Py.get tree_fields "algorithms" (JArr []);
  algorithm_items ← Py.iter algorithms;
  for_each check_algorithm algorithm_items import_algorithms.

(** The walk to [project.fields.dal.fields.dataTrees]. *)
Definition data_trees_of (template_data : json) : option json :=
  project ← Py.get template_data "project" (JObj []);
  fields ← Py.get project "fields" (JObj []);
  dal ← Py.get fields "dal" (JObj []);
  dal_fields ← Py.get dal "fields" (JObj []);
  Py.get dal_fields "dataTrees" (JArr []).

(** The table identifiers: both walks, the matching and the selection. *)
Definition resolve_tables (template_data : json) : option (per_category json) :=
  axis_lookup ← _find_axis_uuids template_data [];
  let table_options := _find_table_data_options template_data in
  matching_tables ←
    for_each (match_table axis_lookup) table_options (PerCategory [] [] []);
  cnv_id ← select_table (of_cnv matching_tables);
  breakend_id ← select_table (of_breakend matching_tables);
  region_id ← select_table (of_region matching_tables);
  Some (PerCategory cnv_id breakend_id region_id).

(** The algorithm flags. *)
Definition detect_algorithms (template_data : json) : option import_flags :=
  data_trees ← data_trees_of template_data;
  trees ← Py.iter data_trees;
  for_each check_tree trees (ImportFlags false false false).

Record resolution := Resolution {
  import_algorithms : import_flags;
  table_ids : per_category json
}.

(** The body of the [try] block, once the document is loaded. *)
Definition parse_template (template_data : json) : option resolution :=
  ids ← resolve_tables template_data;
  flags ← detect_algorithms template_data;
  Some (Resolution flags ids).

(** What the [except] clause returns. *)
Definition degraded : resolution :=
  Resolution (ImportFlags false false false) (PerCategory JNull JNull JNull).

(** [_parse_template_file]; [loaded] is [None] when the file cannot be
    opened or is not JSON. *)
Definition _parse_template_file (loaded : option json) : resolution :=
  default degraded (loaded ≫= parse_template).

(** ** The template claims, in the words of the specification *)

(** A name that is "Table" followed by digits. *)
Definition table_then_digits (c : string) : bool :=
  String.prefix "Table" c
  && Py.isdigit (String.substring 5 (String.length c - 5) c).

(** The selection the specification words: the smallest custom name if
    there is one, else the smallest generic name. *)
Definition stated_selection (names : list string) : option string :=
  let custom_names := filter (λ c, table_then_digits c = false) names in
  let generic_names := filter (λ c, table_then_digits c = true) names in
  match PyStr.sorted custom_names with
  | selected :: _ => Some selected
  | [] => head (PyStr.sorted generic_names)
  end.

(** The name of one algorithm record, and the names of the records found
    along [project.fields.dal.fields.dataTrees], tree by tree. *)
Definition algorithm_name (algorithm : json) : option string :=
  alg_fields ← Py.get algorithm "fields" (JObj []);
  alg_name ← Py.get alg_fields "algName" (JStr "");
  Py.as_str alg_name.

Definition tree_algorithm_names (data_tree : json) : option (list string) :=
  tree_fields ← Py.get data_tree "fields" (JObj []);
  algorithms ← Py.get tree_fields "algorithms" (JArr []);
  algorithm_items ← Py.iter algorithms;
  mapM algorithm_name algorithm_items.

Definition algorithm_names (template_data : json) : option (list string) :=
  data_trees ← data_trees_of template_data;
  trees ← Py.iter data_trees;
  mjoin <$> mapM tree_algorithm_names trees.

(** [text] occurs in the name, letter case apart. *)
Definition mentions (text alg_name : string) : bool :=
  Py.contains text (Py.lower alg_name).

Definition template_path : list string :=
  ["project"; "fields"; "dal"; "fields"; "dataTrees"].

(** Some key of the path is missing where the walk looks for it. *)
Fixpoint path_absent (path : list string) (v : json) : Prop :=
  match path, v with
  | key :: rest, JObj fields =>
      match dict_get key fields with
      | None => True
      | Some v' => path_absent rest v'
      end
  | _, _ => False
  end.

(** The walk meets a value that is not an object where it looks up a key. *)
Fixpoint path_blocked (path : list string) (v : json) : Prop :=
  match path with
  | [] => False
  | key :: rest =>
      match v with
      | JObj fields =>
          match dict_get key fields with
          | None => False
          | Some v' => path_blocked rest v'
          end
      | _ => True
      end
  end.

(** ** The reference graph of a metadata table *)

(** The row of [a] lists [b] among its values. *)
Definition refers (sample_data : list (string * list string)) (a b : string) : Prop :=
  ∃ metadata_values, dict_get a sample_data = Some metadata_values ∧ b ∈ metadata_values.

(** Two samples of the set, one of which lists the other. *)
Definition linked (sample_data : list (string * list string)) (all_samples : gset string)
    (a b : string) : Prop :=
  a ∈ all_samples ∧ b ∈ all_samples
  ∧ (refers sample_data a b ∨ refers sample_data b a).

(** How a traversal state grows over a turn. *)
Definition bfs_extends (st st' : bfs_state) : Prop :=
  processed_samples st ⊆ processed_samples st'
  ∧ current_group st ⊆ current_group st'
  ∧ (∀ x, x ∈ to_process st → x ∈ to_process st')
  ∧ (∀ x, x ∈ current_group st' → x ∈ current_group st ∨ x ∈ to_process st').

(** Every member of the group is still queued or has all it is linked with
    marked. *)
Definition bfs_closed (sample_data : list (string * list string))
    (all_samples : gset string) (st : bfs_state) : Prop :=
  ∀ x, x ∈ current_group st →
    x ∈ to_process st
    ∨ ∀ y, linked sample_data all_samples x y → y ∈ processed_samples st.

(** Every member of the group is reached from the seed, and the queue holds
    members only. *)
Definition bfs_reached (sample_data : list (string * list string))
    (all_samples : gset string) (seed : string) (st : bfs_state) : Prop :=
  (∀ x, x ∈ current_group st → rtc (linked sample_data all_samples) seed x)
  ∧ (∀ x, x ∈ to_process st → x ∈ current_group st).

(** What the loop over the seeds keeps, beyond [groups_inv]: the marked set
    and every group are closed under links, every group is connected, and
    every group is sorted under its first member as key. *)
Definition components_inv (sample_data : list (string * list string))
    (all_samples : gset string) (acc : gmap string (list string) * gset string) : Prop :=
  (∀ x y, x ∈ acc.2 → linked sample_data all_samples x y → y ∈ acc.2)
  ∧ (∀ k g x y, acc.1 !! k = Some g → x ∈ g →
       linked sample_data all_samples x y → y ∈ g)
  ∧ (∀ k g x y, acc.1 !! k = Some g → x ∈ g → y ∈ g →
       rtsc (linked sample_data all_samples) x y)
  ∧ (∀ k g, acc.1 !! k = Some g → head g = Some k ∧ StronglySorted PyStr.le g).

(** ** Trimmed text *)

(** [s] has no whitespace at either end. *)
Definition trimmed (s : string) : Prop := PyStr.strip s = s.

(** [s] is empty or starts with a character that is not whitespace. *)
Definition starts_clean (s : string) : Prop :=
  match s with
  | EmptyString => True
  | String c _ => PyStr.is_space c = false
  end.

(** ** The merged view in closed form *)

(** The sample names the documents carry. *)
Definition doc_samples (docs : list manifest_doc) : list string := (mjoin docs).*1.

(** The entry of a sample: for each type the first occurrences of the
    paths the documents file under it. *)
Definition merged_entry (docs : list manifest_doc) (sample_name : string) : sample_files :=
  SampleFiles (first_seen (all_paths sample_name Multiverse docs))
    (first_seen (all_paths sample_name Cnv docs))
    (first_seen (all_paths sample_name Bnd docs))
    (first_seen (all_paths sample_name Region docs)).

(** The document an append leaves behind, from the one it starts from. *)
Definition appended_doc (doc : manifest_doc) (sample_name file_type file_path : string)
    (file_list : list string) : manifest_doc :=
  dict_set sample_name
    (dict_set file_type (add_path file_list file_path)
       (default empty_entry (dict_get sample_name doc)))
    doc.

(** ** Values inside a document *)

(** [t] is [v] or lies somewhere inside it. *)
Inductive subvalue (t : json) : json → Prop :=
| subvalue_here : subvalue t t
| subvalue_item (items : list json) (v : json) :
    v ∈ items → subvalue t v → subvalue t (JArr items)
| subvalue_field (fields : list (string * json)) (k : string) (v : json) :
    (k, v) ∈ fields → subvalue t v → subvalue t (JObj fields).

(** A record whose [className] is ['VSTableDataOptions']. *)
Definition is_table_record (t : json) : Prop :=
  ∃ fields, t = JObj fields
            ∧ Py.is_str (default JNull (dict_get "className" fields)) "VSTableDataOptions"
              = true.

(** ** The groups file, written and read *)

Definition LF : ascii := ascii_of_nat 10.
Definition CR : ascii := ascii_of_nat 13.
Definition comma : ascii := ascii_of_nat 44.

(** What [_output_sample_groups] writes: [','.join(group) + '\n'] for each
    group; the file is opened with [newline=''], so nothing is translated. *)
Definition groups_file (groups : list (list string)) : string :=
  fold_right (λ group text, PyStr.join "," group +:+ newline +:+ text) "" groups.

(** [for line in f] on a file opened for reading in text mode: the lines
    with their terminators, where ['\n'], ['\r'] and ['\r\n'] each end a
    line and are read as ['\n']; [line] is the part of the line read so far. *)
Fixpoint file_lines_from (line : string) (text : string) : list string :=
  match text with
  | EmptyString => if decide (line = "") then [] else [line]
  | String c rest =>
      if Ascii.eqb c LF then (line +:+ newline) :: file_lines_from "" rest
      else if Ascii.eqb c CR then
        match rest with
        | String c' rest' =>
            if Ascii.eqb c' LF then (line +:+ newline) :: file_lines_from "" rest'
            else (line +:+ newline) :: file_lines_from "" rest
        | EmptyString => [line +:+ newline]
        end
      else file_lines_from (line +:+ String c "") rest
  end.

Definition file_lines (text : string) : list string := file_lines_from "" text.

(** [s.split(sep)] for a separator of one character; [field] is the part
    of the field read so far. *)
Fixpoint split_from (sep : ascii) (field : string) (s : string) : list string :=
  match s with
  | EmptyString => [field]
  | String c rest =>
      if Ascii.eqb c sep then field :: split_from sep "" rest
      else split_from sep (field +:+ String c "") rest
  end.

Definition split (sep : ascii) (s : string) : list string := split_from sep "" s.

(** The group loop of [generate_vsbatch_file]: strip each line, skip the
    empty ones, split the others at commas and strip the fields. *)
Definition read_sample_groups (text : string) : list (list string) :=
  (λ line, PyStr.strip <$> split comma line)
    <$> filter (λ line, line ≠ "") (PyStr.strip <$> file_lines text).

(** [c] occurs in [s]. *)
Definition occurs (c : ascii) (s : string) : Prop := c ∈ list_ascii_of_string s.

#[global] Instance occurs_dec c s : Decision (occurs c s).
Proof. unfold occurs. apply _. Defined.

(** A name that survives the file: not empty, nothing to strip, and no
    comma and no line end inside. *)
Definition line_safe (name : string) : Prop :=
  name ≠ "" ∧ trimmed name
  ∧ ¬ occurs comma name ∧ ¬ occurs LF name ∧ ¬ occurs CR name.

(** ** The retry loops of the locked reader and writer *)

(** The exceptions that leave the two functions: the two messages they
    build themselves, the [ValueError] of [time.sleep] on a negative delay,
    and whatever else an attempt raised. *)
Inductive raised := LockTimeout | InvalidJson | SleepError | OtherError.

Inductive outcome (A : Type) := Returned (a : A) | Raised (e : raised).
Arguments Returned {A} _.
Arguments Raised {A} _.

(** [retry_delay * (2 ** min(attempt, 5))] *)
Definition backoff (retry_delay : Q) (attempt : nat) : Q :=
  (retry_delay * inject_Z (2 ^ Z.of_nat (Nat.min attempt 5)))%Q.

(** What one pass of the reader's loop body meets. *)
Inductive read_attempt :=
| ReadMissing                (* [os.path.exists] is false *)
| ReadBlank                  (* [content.strip()] is empty *)
| ReadParsed (data : json)   (* [json.loads] returns *)
| ReadLocked                 (* [IOError]/[OSError] under the [with] *)
| ReadInvalid                (* [json.JSONDecodeError] *)
| ReadFailed.                (* any other exception *)

(** The [if attempt < max_retries - 1] of all the handlers: sleep and go
    on, or raise. A negative delay makes [time.sleep] raise, and no handler
    of the functions catches that. *)
Definition sleep_or_raise {A : Type} (max_retries : nat) (retry_delay : Q)
    (attempt : nat) (e : raised) (continue : outcome A * list Q) : outcome A * list Q :=
  if decide (Z.of_nat attempt < Z.of_nat max_retries - 1)%Z then
    let delay := backoff retry_delay attempt in
    if Qlt_le_dec delay 0 then (Raised SleepError, [])
    else (continue.1, delay :: continue.2)
  else (Raised e, []).

(** [_safe_read_json_file], over the attempts left of [range(max_retries)]:
    what it returns or raises, and the delays it slept, in order. [file]
    tells what the attempt of each number meets. *)
Fixpoint read_attempts (file : nat → read_attempt) (max_retries : nat) (retry_delay : Q)
    (attempts : list nat) : outcome json * list Q :=
  match attempts with
  | [] => (Returned (JObj []), [])
  | attempt :: rest =>
      let continue := read_attempts file max_retries retry_delay rest in
      match file attempt with
      | ReadMissing => (Returned (JObj []), [])
      | ReadBlank => (Returned (JObj []), [])
      | ReadParsed data => (Returned data, [])
      | ReadLocked => sleep_or_raise max_retries retry_delay attempt LockTimeout continue
      | ReadInvalid => sleep_or_raise max_retries retry_delay attempt InvalidJson continue
      | ReadFailed => sleep_or_raise max_retries retry_delay attempt OtherError continue
      end
  end.

Definition _safe_read_json_file (file : nat → read_attempt) (max_retries : nat)
    (retry_delay : Q) : outcome json * list Q :=
  read_attempts file max_retries retry_delay (seq 0 max_retries).

(** What one pass of the writer's loop body meets. *)
Inductive write_attempt :=
| WriteDone       (* the file was there, locked and written *)
| WriteLocked     (* [IOError]/[OSError] under the [with] of an existing file *)
| WriteFailed     (* any other exception but [FileNotFoundError] *)
| CreateDone      (* [FileNotFoundError]; the file was created and written *)
| CreateLocked    (* [FileNotFoundError]; [IOError]/[OSError] under the second [with] *)
| CreateFailed.   (* [FileNotFoundError]; any other exception in its handler *)

(** [_safe_write_json_file], once the directory of the file is there:
    [Returned true] after a write, [Returned false] when the loop ends
    without one. *)
Fixpoint write_attempts (file : nat → write_attempt) (max_retries : nat) (retry_delay : Q)
    (attempts : list nat) : outcome bool * list Q :=
  match attempts with
  | [] => (Returned false, [])
  | attempt :: rest =>
      let continue := write_attempts file max_retries retry_delay rest in
      match file attempt with
      | WriteDone => (Returned true, [])
      | WriteLocked => sleep_or_raise max_retries retry_delay attempt LockTimeout continue
      | WriteFailed => sleep_or_raise max_retries retry_delay attempt OtherError continue
      | CreateDone => (Returned true, [])
      | CreateLocked => sleep_or_raise max_retries retry_delay attempt LockTimeout continue
      | CreateFailed => (Raised OtherError, [])
      end
  end.

Definition _safe_write_json_file (file : nat → write_attempt) (max_retries : nat)
    (retry_delay : Q) : outcome bool * list Q :=
  write_attempts file max_retries retry_delay (seq 0 max_retries).

(** The attempt ends the reader's loop with a value. *)
Definition answers (a : read_attempt) : option json :=
  match a with
  | ReadMissing | ReadBlank => Some (JObj [])
  | ReadParsed data => Some data
  | _ => None
  end.

(** The seconds slept in all. *)
Definition slept (sleeps : list Q) : Q := fold_right Qplus 0%Q sleeps.

(** The sum of the factors [2 ** min(i, 5)] over the attempts below [k]. *)
Fixpoint waited (k : nat) : Z :=
  match k with
  | 0 => 0
  | S k' => waited k' + 2 ^ Z.of_nat (Nat.min k' 5)
  end.

(** The writer's attempt is followed by another one, if one is left. *)
Definition retried (a : write_attempt) : bool :=
  match a with
  | WriteLocked | WriteFailed | CreateLocked => true
  | _ => false
  end.

(** The writer's attempt wrote the document. *)
Definition writes (a : write_attempt) : bool :=
  match a with
  | WriteDone | CreateDone => true
  | _ => false
  end.

(** ** The CNV file *)








Section cnv_file.
(** [float(text)]; [None] is its [ValueError]. *)
Variable float : string → option py_float.




End cnv_file.

(** ** The axes a document declares *)

(** [axis] is an axis record that files its fields under the string [uuid]. *)
Definition axis_declares (axis : json) (uuid : string) : Prop :=
  ∃ class_name fields,
    Py.get axis "className" JNull = Some class_name
    ∧ Py.is_str class_name "AxisUuidOptions" = true
    ∧ Py.get axis "fields" (JObj []) = Some fields
    ∧ Py.get fields "uuid" JNull = Some (JStr uuid)
    ∧ uuid ≠ "".

(** Some ['axisUuids'] entry of the document, at any depth, holds such a
    record. *)
Definition declares_axis (doc : json) (uuid : string) : Prop :=
  ∃ obj axes items axis,
    subvalue (JObj obj) doc ∧ dict_get "axisUuids" obj = Some axes
    ∧ Py.iter axes = Some items ∧ axis ∈ items ∧ axis_declares axis uuid.

(** ** The tables a category is offered *)

(** The [axisType] of a category. *)
Definition axis_type_name (c : category) : string :=
  match c with
  | CatCnv => "CNV"
  | CatBreakend => "Breakend"
  | CatRegion => "Region"
  end.

(** The lookup resolves [axis_uuid] to an axis of the type of [c]. *)
Definition axis_offers (axis_lookup : list (json * json)) (axis_uuid : json)
    (c : category) : Prop :=
  ∃ axis_fields axis_type,
    lookup_get axis_uuid axis_lookup = Some axis_fields
    ∧ Py.get axis_fields "axisType" (JStr "") = Some axis_type
    ∧ Py.is_str axis_type (axis_type_name c) = true.

(** The table record has [user_id] as its [userId] and, in its
    [axisUuidList], an axis of the type of [c]. *)
Definition table_offers (axis_lookup : list (json * json)) (table_option : json)
    (c : category) (user_id : json) : Prop :=
  ∃ fields axis_uuid_list axis_uuids axis_uuid,
    Py.get table_option "fields" (JObj []) = Some fields
    ∧ Py.get fields "userId" (JStr "") = Some user_id
    ∧ Py.get fields "axisUuidList" (JArr []) = Some axis_uuid_list
    ∧ Py.iter axis_uuid_list = Some axis_uuids
    ∧ axis_uuid ∈ axis_uuids
    ∧ axis_offers axis_lookup axis_uuid c.
Example groups_transitive :
  find_sample_relationships elements
    [["sample"; "m"]; ["A"; "B"]; ["B"; "C"]; ["C"]; ["D"; " x "]] false
  = Some [["A"; "B"; "C"]; ["D"]].
Proof. vm_compute. reflexivity. Qed.

(** ** Loops and dictionaries: general facts *)

Lemma fold_left_invariant {A B : Type} (P : A → Prop) (f : A → B → A) (l : list B) :
  (∀ a x, x ∈ l → P a → P (f a x)) → ∀ a, P a → P (fold_left f l a).
Proof.
  induction l as [|x l IH]; intros Hstep a Ha; simpl; [done|].
  apply IH.
  - intros a' y Hy. apply Hstep. by right.
  - apply Hstep; [by left | done].
Qed.


Lemma dict_set_keys {V : Type} (k : string) (v : V) (d : list (string * V)) (k' : string) :
  k' ∈ (dict_set k v d).*1 ↔ k' = k ∨ k' ∈ d.*1.
Proof.
  induction d as [|[k0 v0] d IH]; simpl.
  - rewrite list_elem_of_singleton. set_solver.
  - case_decide; subst; simpl; rewrite !elem_of_cons; [|rewrite IH]; naive_solver.
Qed.

Lemma dict_get_set_eq {V : Type} (k : string) (v : V) (d : list (string * V)) :
  dict_get k (dict_set k v d) = Some v.
Proof.
  induction d as [|[k0 v0] d IH]; simpl.
  - by rewrite decide_True.
  - destruct (decide (k = k0)); simpl; [by rewrite decide_True | by rewrite decide_False].
Qed.

Lemma dict_get_set_ne {V : Type} (k k' : string) (v : V) (d : list (string * V)) :
  k ≠ k' → dict_get k' (dict_set k v d) = dict_get k' d.
Proof.
  intros Hne. induction d as [|[k0 v0] d IH]; simpl.
  - by rewrite decide_False.
  - destruct (decide (k = k0)); subst; simpl.
    + by rewrite !decide_False.
    + by rewrite IH.
Qed.

Lemma dict_set_keys_NoDup {V : Type} (k : string) (v : V) (d : list (string * V)) :
  NoDup d.*1 → NoDup (dict_set k v d).*1.
Proof.
  induction d as [|[k0 v0] d IH]; simpl; intros Hnd.
  - apply NoDup_singleton.
  - apply NoDup_cons in Hnd as [Hk0 Hnd].
    case_decide; subst; simpl; apply NoDup_cons; split; auto.
    rewrite dict_set_keys. naive_solver.
Qed.

Lemma size_list_to_set_le (l : list string) :
  size (list_to_set l : gset string) ≤ length l.
Proof.
  induction l as [|x l IH].
  - done.
  - rewrite list_to_set_cons, length_cons, size_union_alt.
    rewrite size_singleton.
    assert (size (list_to_set l ∖ {[x]} : gset string) ≤ size (list_to_set l : gset string)).
    { apply subseteq_size. set_solver. }
    lia.
Qed.

(** ** The sorted listing and the minimum of a set *)

Lemma sorted_Permutation (l : list string) : PyStr.sorted l ≡ₚ l.
Proof. apply merge_sort_Permutation. Qed.

Lemma elem_of_sorted (l : list string) (x : string) : x ∈ PyStr.sorted l ↔ x ∈ l.
Proof. by rewrite sorted_Permutation. Qed.

Lemma sorted_elements_NoDup (X : gset string) : NoDup (PyStr.sorted (elements X)).
Proof. rewrite sorted_Permutation. apply NoDup_elements. Qed.

Lemma elem_of_sorted_elements (X : gset string) (x : string) :
  x ∈ PyStr.sorted (elements X) ↔ x ∈ X.
Proof. by rewrite elem_of_sorted, elem_of_elements. Qed.

Lemma min_elem_of (l : list string) (m : string) : PyStr.min l = Some m → m ∈ l.
Proof.
  destruct l as [|x r]; simpl; [done|]. intros [= <-].
  revert x. induction r as [|y r IH]; intros x; simpl; [by left|].
  destruct (String.ltb y x).
  - right. apply IH.
  - specialize (IH x). apply elem_of_cons in IH as [->|Hin]; [by left | by do 2 right].
Qed.

Lemma min_is_Some (l : list string) : l ≠ [] → is_Some (PyStr.min l).
Proof. destruct l; [done | by eexists]. Qed.

(** ** The traversal: termination and what it returns *)

Section traversal.
Variable sample_data : list (string * list string).
Variable all_samples : gset string.

Local Abbreviation universe := (universe sample_data all_samples).
Local Abbreviation bfs_measure := (bfs_measure sample_data all_samples).
Local Abbreviation bfs_inv := (bfs_inv sample_data all_samples).


Lemma universe_size : size universe ≤ size all_samples + length sample_data.
Proof.
  unfold universe. rewrite size_union_alt.
  pose proof (size_list_to_set_le sample_data.*1) as Hk.
  rewrite length_fmap in Hk.
  assert (size (list_to_set sample_data.*1 ∖ all_samples : gset string)
          ≤ size (list_to_set sample_data.*1 : gset string)).
  { apply subseteq_size. set_solver. }
  lia.
Qed.

Lemma visit_measure (x : string) (st : bfs_state) :
  x ∈ universe → x ∉ processed_samples st →
  bfs_measure (visit x st) ≤ bfs_measure st.
Proof.
  intros Hu Hp. unfold bfs_measure, visit; simpl.
  rewrite length_app; simpl.
  assert (size (universe ∖ ({[x]} ∪ processed_samples st))
          < size (universe ∖ processed_samples st)).
  { apply subset_size. set_solver. }
  lia.
Qed.

Lemma scan_referrer_measure (cur : string) (st : bfs_state) (item : string * list string) :
  item ∈ sample_data →
  bfs_measure (scan_referrer cur st item) ≤ bfs_measure st.
Proof.
  intros Hin. unfold scan_referrer.
  repeat case_decide; try lia.
  apply visit_measure; [|done].
  unfold universe. apply elem_of_union_r, elem_of_list_to_set.
  by apply list_elem_of_fmap_2.
Qed.

Lemma scan_reference_measure (st : bfs_state) (v : string) :
  bfs_measure (scan_reference all_samples st v) ≤ bfs_measure st.
Proof.
  unfold scan_reference. case_decide as Hc; [|lia].
  destruct Hc. apply visit_measure; [|done]. unfold universe. set_solver.
Qed.

Lemma bfs_turn_measure (cur : string) (st : bfs_state) :
  bfs_measure (bfs_turn sample_data all_samples cur st) ≤ bfs_measure st.
Proof.
  unfold bfs_turn.
  apply (fold_left_invariant (λ s, bfs_measure s ≤ bfs_measure st)).
  { intros a v _ Ha. pose proof (scan_reference_measure a v). lia. }
  apply (fold_left_invariant (λ s, bfs_measure s ≤ bfs_measure st)); [|lia].
  intros a it Hit Ha. pose proof (scan_referrer_measure cur a it Hit). lia.
Qed.

(** The loop ends before the fuel does. *)
Lemma bfs_loop_terminates (fuel : nat) (st : bfs_state) :
  bfs_measure st < fuel → is_Some (bfs_loop fuel sample_data all_samples st).
Proof.
  revert st. induction fuel as [|fuel IH]; intros st Hm; [lia|].
  simpl. destruct (to_process st) as [|cur rest] eqn:Hq; [by eexists|].
  apply IH.
  pose proof (bfs_turn_measure cur
    (BfsState (current_group st) (processed_samples st) rest)) as Hturn.
  unfold bfs_measure in Hm, Hturn |- *. rewrite Hq in Hm. simpl in Hm, Hturn. lia.
Qed.


Lemma visit_inv (seed : string) (processed0 : gset string) (x : string) (st : bfs_state) :
  x ∈ universe → x ∉ processed_samples st →
  bfs_inv seed processed0 st → bfs_inv seed processed0 (visit x st).
Proof.
  intros Hu Hp (Hseed & Hdisj & Hproc & Hsub). unfold bfs_inv, visit; simpl.
  rewrite Hproc in Hp |- *. set_solver.
Qed.

Lemma bfs_turn_inv (seed : string) (processed0 : gset string) (cur : string)
    (st : bfs_state) :
  bfs_inv seed processed0 st →
  bfs_inv seed processed0 (bfs_turn sample_data all_samples cur st).
Proof.
  intros Hinv. unfold bfs_turn.
  apply fold_left_invariant.
  { intros a v _ Ha. unfold scan_reference. case_decide as Hc; [|done].
    destruct Hc. apply visit_inv; [unfold universe; set_solver|done..]. }
  apply fold_left_invariant; [|done].
  intros a it Hit Ha. unfold scan_referrer. repeat case_decide; try done.
  apply visit_inv; [|done..].
  unfold universe. apply elem_of_union_r, elem_of_list_to_set.
  by apply list_elem_of_fmap_2.
Qed.

Lemma bfs_loop_inv (seed : string) (processed0 : gset string) (fuel : nat)
    (st st' : bfs_state) :
  bfs_inv seed processed0 st →
  bfs_loop fuel sample_data all_samples st = Some st' →
  bfs_inv seed processed0 st'.
Proof.
  revert st. induction fuel as [|fuel IH]; intros st Hinv Hrun; [done|].
  simpl in Hrun. destruct (to_process st) as [|cur rest] eqn:Hq.
  - by injection Hrun as <-.
  - eapply IH; [|exact Hrun]. by apply bfs_turn_inv.
Qed.

(** [_find_connected_samples] returns on every input. *)
Lemma find_connected_samples_total (sample : string) (processed : gset string) :
  is_Some (_find_connected_samples sample sample_data all_samples processed).
Proof.
  unfold _find_connected_samples.
  set (st0 := BfsState {[sample]} ({[sample]} ∪ processed) [sample]).
  destruct (bfs_loop_terminates (bfs_fuel sample_data all_samples) st0) as [st Hst].
  { unfold bfs_measure, bfs_fuel, st0; simpl.
    pose proof universe_size.
    assert (size (universe ∖ ({[sample]} ∪ processed)) ≤ size universe).
    { apply subseteq_size. set_solver. }
    lia. }
  rewrite Hst. by eexists.
Qed.

(** The group it returns holds the seed, is new, and is exactly what it
    added to the marked set. *)
Lemma find_connected_samples_spec (sample : string) (processed : gset string) :
  sample ∉ processed → sample ∈ universe →
  ∃ group processed',
    _find_connected_samples sample sample_data all_samples processed
      = Some (group, processed')
    ∧ sample ∈ group
    ∧ group ## processed
    ∧ processed' = processed ∪ group
    ∧ (∀ x, x ∈ group → x ∈ universe).
Proof.
  intros Hnew Hu. unfold _find_connected_samples.
  set (st0 := BfsState {[sample]} ({[sample]} ∪ processed) [sample]).
  destruct (bfs_loop_terminates (bfs_fuel sample_data all_samples) st0) as [st Hst].
  { unfold bfs_measure, bfs_fuel, st0; simpl.
    pose proof universe_size.
    assert (size (universe ∖ ({[sample]} ∪ processed)) ≤ size universe).
    { apply subseteq_size. set_solver. }
    lia. }
  assert (bfs_inv sample processed st0) as Hinv0.
  { unfold bfs_inv, st0; simpl. set_solver. }
  pose proof (bfs_loop_inv _ _ _ _ _ Hinv0 Hst) as (Hseed & Hdisj & Hproc & Hsub).
  exists (current_group st), (processed_samples st).
  rewrite Hst; simpl. by split_and!.
Qed.

End traversal.

(** ** What [_parse_sample_file] returns *)


Lemma parse_row_inv (acc : list (string * list string) * gset string) (row : list string) :
  parse_inv acc → parse_inv (parse_row acc row).
Proof.
  intros [Hnd Hkeys]. destruct row as [|c0 rest]; simpl; [done|].
  case_decide; [done|]. split; simpl.
  - by apply dict_set_keys_NoDup.
  - intros k. rewrite dict_set_keys, Hkeys. set_solver.
Qed.

Lemma parse_rows_inv (rows : list (list string)) :
  parse_inv (fold_left parse_row rows ([], ∅)).
Proof.
  apply fold_left_invariant.
  - intros acc row _. apply parse_row_inv.
  - split; simpl; [apply NoDup_nil_2 | set_solver].
Qed.

Lemma parsed_universe (rows : list (list string)) :
  let parsed := fold_left parse_row rows ([], ∅) in
  universe parsed.1 parsed.2 = parsed.2.
Proof.
  intros parsed. destruct (parse_rows_inv rows) as [_ Hkeys]. fold parsed in Hkeys.
  unfold universe. apply set_eq. intros x.
  rewrite elem_of_union, elem_of_list_to_set, Hkeys. tauto.
Qed.

(** ** The loop over the seeds *)


Section seeds.
Variable sample_data : list (string * list string).
Variable all_samples : gset string.
Hypothesis Huniverse : universe sample_data all_samples = all_samples.

Lemma group_step_spec (acc : gmap string (list string) * gset string) (sample : string) :
  groups_inv acc → acc.2 ⊆ all_samples → sample ∈ all_samples →
  ∃ acc', group_step sample_data all_samples (Some acc) sample = Some acc'
          ∧ groups_inv acc' ∧ acc'.2 ⊆ all_samples
          ∧ acc.2 ⊆ acc'.2 ∧ sample ∈ acc'.2.
Proof.
  destruct acc as [rel P]. intros (Hkey & Hin & Hcov & Hdisj) Hsub Hs; simpl in *.
  case_decide as Hp.
  { exists (rel, P). by split_and!. }
  destruct (find_connected_samples_spec sample_data all_samples sample P Hp)
    as (G & P' & -> & HsG & HGP & -> & HGu); [by rewrite Huniverse|].
  rewrite Huniverse in HGu. simpl.
  destruct (min_is_Some (elements G)) as [key Hmin].
  { intros Hnil. apply elements_empty_inv in Hnil. set_solver. }
  rewrite Hmin; simpl.
  apply min_elem_of, elem_of_elements in Hmin.
  assert (rel !! key = None) as Hfresh.
  { destruct (rel !! key) as [g|] eqn:Hk; [|done].
    destruct (Hkey _ _ Hk) as [Hkg _]. specialize (Hin _ _ _ Hk Hkg). set_solver. }
  eexists; split; [done|]. simpl. split_and!; [split_and!|..]; simpl.
  - intros k g. rewrite lookup_insert. case_decide; [|by apply Hkey].
    intros [= <-]; subst k. split; [by apply elem_of_sorted_elements|].
    apply sorted_elements_NoDup.
  - intros k g x. rewrite lookup_insert. case_decide.
    + intros [= <-]. rewrite elem_of_sorted_elements. set_solver.
    + intros Hk Hx. specialize (Hin _ _ _ Hk Hx). set_solver.
  - intros x [Hx|Hx]%elem_of_union.
    + destruct (Hcov _ Hx) as (k & g & Hk & Hxg).
      exists k, g. split; [|done]. rewrite lookup_insert_ne; [done|congruence].
    + exists key, (PyStr.sorted (elements G)).
      rewrite lookup_insert_eq. split; [done|]. by apply elem_of_sorted_elements.
  - intros k1 k2 g1 g2 x. rewrite !lookup_insert.
    repeat case_decide; subst; try congruence.
    + intros [= <-] Hk2. rewrite elem_of_sorted_elements. intros Hx1 Hx2.
      specialize (Hin _ _ _ Hk2 Hx2). set_solver.
    + intros Hk1 [= <-] Hx1. rewrite elem_of_sorted_elements. intros Hx2.
      specialize (Hin _ _ _ Hk1 Hx1). set_solver.
    + apply Hdisj.
  - set_solver.
  - set_solver.
  - set_solver.
Qed.

Lemma group_loop_spec (seeds : list string)
    (acc : gmap string (list string) * gset string) :
  groups_inv acc → acc.2 ⊆ all_samples → (∀ s, s ∈ seeds → s ∈ all_samples) →
  ∃ acc', fold_left (group_step sample_data all_samples) seeds (Some acc) = Some acc'
          ∧ groups_inv acc' ∧ acc'.2 ⊆ all_samples
          ∧ acc.2 ⊆ acc'.2 ∧ (∀ s, s ∈ seeds → s ∈ acc'.2).
Proof.
  revert acc. induction seeds as [|s seeds IH]; intros acc Hinv Hsub Hseeds.
  { exists acc. split_and!; try done. intros s Hs. by apply elem_of_nil in Hs. }
  destruct (group_step_spec acc s Hinv Hsub) as (acc1 & Hstep & Hinv1 & Hsub1 & Hmono1 & Hs1).
  { apply Hseeds. by left. }
  destruct (IH acc1 Hinv1 Hsub1) as (acc' & Hrun & Hinv' & Hsub' & Hmono' & Hall').
  { intros s' Hs'. apply Hseeds. by right. }
  exists acc'. cbn [fold_left]. rewrite Hstep. split_and!; try done.
  - set_solver.
  - intros s' [->|Hs']%elem_of_cons; [set_solver | by apply Hall'].
Qed.

End seeds.

(** The written groups, for a dictionary of groups that meets the invariant. *)
Lemma output_partitions (relationships : gmap string (list string)) (samples : gset string) :
  groups_inv (relationships, samples) →
  partitions (_output_sample_groups relationships) samples.
Proof.
  intros (Hkey & Hin & Hcov & Hdisj); simpl in *.
  unfold _output_sample_groups.
  set (keys := PyStr.sorted (elements (dom relationships))).
  assert (NoDup keys) as Hnd by apply sorted_elements_NoDup.
  assert (∀ i g, ((λ k, default [] (relationships !! k)) <$> keys) !! i = Some g →
            ∃ k, keys !! i = Some k ∧ relationships !! k = Some g) as Hget.
  { intros i g. rewrite list_lookup_fmap. destruct (keys !! i) as [k|] eqn:Hk; [|done].
    simpl. intros [= <-]. exists k. split; [done|].
    assert (k ∈ dom relationships) as [g Hg]%elem_of_dom.
    { apply elem_of_sorted_elements. by eapply list_elem_of_lookup_2. }
    by rewrite Hg. }
  assert (∀ k g, relationships !! k = Some g →
            ∃ i, ((λ k, default [] (relationships !! k)) <$> keys) !! i = Some g
                 ∧ keys !! i = Some k) as Hput.
  { intros k g Hk.
    assert (k ∈ keys) as [i Hi]%list_elem_of_lookup_1.
    { apply elem_of_sorted_elements, elem_of_dom. by eexists. }
    exists i. split; [|done]. by rewrite list_lookup_fmap, Hi; simpl; rewrite Hk. }
  assert (∀ i j g h x,
            ((λ k, default [] (relationships !! k)) <$> keys) !! i = Some g →
            ((λ k, default [] (relationships !! k)) <$> keys) !! j = Some h →
            x ∈ g → x ∈ h → i = j) as Hone.
  { intros i j g h x (ki & Hki & Hg)%Hget (kj & Hkj & Hh)%Hget Hxg Hxh.
    assert (ki = kj) as -> by (by eapply Hdisj).
    by eapply NoDup_lookup. }
  split_and!.
  - intros x (k & g & Hk & Hx)%Hcov.
    destruct (Hput _ _ Hk) as (i & Hi & _).
    exists i. split; [by exists g|]. intros j h Hj Hxh. by eapply Hone.
  - intros i j g h x Hi Hj Hne Hxg Hxh. apply Hne. by eapply Hone.
  - intros x. split.
    + intros (g & [i (k & _ & Hk)%Hget]%list_elem_of_lookup_1 & Hx). by eapply Hin.
    + intros (k & g & Hk & Hx)%Hcov. destruct (Hput _ _ Hk) as (i & Hi & _).
      exists g. split; [by eapply list_elem_of_lookup_2 | done].
  - intros g [i (k & _ & Hk)%Hget]%list_elem_of_lookup_1.
    destruct (Hkey _ _ Hk) as [Hkg Hndg]. split; [|done].
    intros ->. by apply elem_of_nil in Hkg.
Qed.

(** ** Rows that share a sample name *)














(** ** Group resolver: the claims *)

Lemma groups_inv_empty : groups_inv (∅, ∅).
Proof.
  unfold groups_inv; simpl. split_and!.
  - intros k g. by rewrite lookup_empty.
  - intros k g x. by rewrite lookup_empty.
  - intros x Hx. by apply not_elem_of_empty in Hx.
  - intros k1 k2 g1 g2 x. by rewrite lookup_empty.
Qed.

(** C1. In non-cohort mode, for every metadata table (a header row and any
    data rows) and whatever order the interpreter walks the sample set in,
    the run ends normally and the groups it writes are a partition of the
    parsed sample set: each sample is in exactly one group, two different
    groups share no sample, and the groups together are the sample set. *)
Theorem C1_groups_partition_sample_set (order : gset string → list string)
    (header : list string) (rows : list (list string)) :
  (∀ X, order X ≡ₚ elements X) →
  ∃ sample_data all_samples groups,
    _parse_sample_file (header :: rows) = Some (sample_data, all_samples)
    ∧ find_sample_relationships order (header :: rows) false = Some groups
    ∧ partitions groups all_samples.
Proof.
  intros Horder. unfold find_sample_relationships. simpl.
  pose proof (parsed_universe rows) as Huniv. simpl in Huniv.
  destruct (fold_left parse_row rows ([], ∅)) as [sample_data all_samples] eqn:Hparse.
  simpl in Huniv.
  destruct (group_loop_spec sample_data all_samples Huniv (order all_samples) (∅, ∅))
    as ([rel P] & Hrun & Hinv & Hsub & _ & Hall); simpl in *.
  { apply groups_inv_empty. }
  { set_solver. }
  { intros s. rewrite Horder. apply elem_of_elements. }
  exists sample_data, all_samples, (_output_sample_groups rel).
  split; [done|]. rewrite Hrun; simpl. split; [done|].
  apply output_partitions.
  assert (P = all_samples) as <-; [|done].
  apply set_eq. intros x. split; [set_solver|].
  intros Hx. apply Hall. rewrite Horder. by apply elem_of_elements.
Qed.

Lemma C1_groups_partition_sample_set_witness :
  ∃ sample_data all_samples groups,
    _parse_sample_file
      [["sample"; "relative"]; ["A"; "B"]; ["B"; "C"]; ["C"]; ["D"; "x"]]
      = Some (sample_data, all_samples)
    ∧ find_sample_relationships elements
        [["sample"; "relative"]; ["A"; "B"]; ["B"; "C"]; ["C"]; ["D"; "x"]] false
      = Some groups
    ∧ partitions groups all_samples.
Proof.
  apply (C1_groups_partition_sample_set elements).
  intros X. reflexivity.
Defined.

Lemma output_empty : _output_sample_groups ∅ = [].
Proof. reflexivity. Qed.

Lemma output_singleton (k : string) (g : list string) :
  _output_sample_groups {[ k := g ]} = [g].
Proof.
  unfold _output_sample_groups.
  rewrite dom_singleton_L, elements_singleton. simpl.
  by rewrite lookup_singleton_eq.
Qed.

(** C2 (as amended). In cohort mode, for every metadata table, the run ends
    normally; it writes exactly one group, the sorted listing of the whole
    sample set, when the sample set is not empty, and no group at all when
    the sample set is empty. The metadata values play no part. *)
Theorem C2_cohort_one_group_unless_empty (order : gset string → list string)
    (header : list string) (rows : list (list string)) :
  ∃ sample_data all_samples,
    _parse_sample_file (header :: rows) = Some (sample_data, all_samples)
    ∧ find_sample_relationships order (header :: rows) true
      = Some (if decide (all_samples = ∅) then []
              else [PyStr.sorted (elements all_samples)])
    ∧ (∀ x, x ∈ PyStr.sorted (elements all_samples) ↔ x ∈ all_samples)
    ∧ NoDup (PyStr.sorted (elements all_samples)).
Proof.
  unfold find_sample_relationships. simpl.
  destruct (fold_left parse_row rows ([], ∅)) as [sample_data all_samples].
  exists sample_data, all_samples. split; [done|]. simpl. split_and!.
  - case_decide; [by rewrite output_empty | by rewrite output_singleton].
  - apply elem_of_sorted_elements.
  - apply sorted_elements_NoDup.
Qed.

(** C2, the claim as stated, fails on a table whose sample set is empty: a
    header alone yields no group, not one. *)
Lemma C2_cohort_empty_table_counterexample :
  ¬ ∃ group, find_sample_relationships elements [["sample"; "relative"]] true
             = Some [group].
Proof. intros [group Hrun]. vm_compute in Hrun. discriminate Hrun. Qed.



(** ** Manifest merger *)

Example merge_dedup_example :
  merged_list
    (_merge_vspipeline_json_files
       [[("S1", [("cnv", ["/a/x.vcf"; "/a/y.vcf"])])];
        [("S1", [("cnv", ["/a/z.vcf"; "/a/x.vcf"])]); ("S2", [("bnd", ["/b"])])]])
    "S1" Cnv
  = ["/a/x.vcf"; "/a/y.vcf"; "/a/z.vcf"].
Proof. vm_compute. reflexivity. Qed.

Lemma get_set_files (ft ft' : file_type) (l : list string) (e : sample_files) :
  get_files ft (set_files ft' l e) = if decide (ft = ft') then l else get_files ft e.
Proof. by destruct ft, ft'. Qed.

Lemma add_path_fold (l acc : list string) :
  fold_left add_path l acc = acc ++ filter (λ p, p ∉ acc) (first_seen l).
Proof.
  revert acc. induction l as [|x r IH]; intros acc; simpl.
  - by rewrite app_nil_r.
  - rewrite IH. unfold add_path. case_decide as Hx.
    + rewrite filter_cons_False by (intros Hn; by apply Hn).
      f_equal. rewrite list_filter_filter. apply list_filter_iff.
      intros y. split; [|tauto]. intros Hy. split; [done|]. by intros ->.
    + rewrite filter_cons_True by done.
      rewrite <- app_assoc. simpl. do 2 f_equal.
      rewrite list_filter_filter. apply list_filter_iff.
      intros y. rewrite elem_of_app, list_elem_of_singleton. tauto.
Qed.

Lemma add_path_fold_app (l1 l2 acc : list string) :
  fold_left add_path (l1 ++ l2) acc = fold_left add_path l2 (fold_left add_path l1 acc).
Proof. apply fold_left_app. Qed.

Lemma elem_of_first_seen (l : list string) (x : string) : x ∈ first_seen l ↔ x ∈ l.
Proof.
  induction l as [|y r IH]; simpl; [done|].
  rewrite !elem_of_cons, list_elem_of_filter, IH.
  destruct (decide (x = y)); naive_solver.
Qed.

Lemma first_seen_NoDup (l : list string) : NoDup (first_seen l).
Proof.
  induction l as [|y r IH]; simpl; [apply NoDup_nil_2|].
  apply NoDup_cons. split.
  - rewrite list_elem_of_filter. naive_solver.
  - by apply NoDup_filter.
Qed.

Lemma filter_keeps_all {A : Type} (P : A → Prop) `{∀ x, Decision (P x)} (l : list A) :
  (∀ x, x ∈ l → P x) → filter P l = l.
Proof.
  induction l as [|y r IH]; intros Hall; [done|].
  rewrite filter_cons_True by (apply Hall; by left).
  f_equal. apply IH. intros x Hx. apply Hall. by right.
Qed.

Lemma add_path_fold_nil (l : list string) : fold_left add_path l [] = first_seen l.
Proof.
  rewrite add_path_fold. simpl. apply filter_keeps_all.
  intros x _. apply not_elem_of_nil.
Qed.

(** One type's turn changes that type's list only. *)
Lemma merge_types_get (sample_info : list (string * list string)) (ft : file_type)
    (entry : sample_files) :
  get_files ft (fold_left (merge_type sample_info) file_types entry)
  = fold_left add_path (default [] (dict_get (file_type_name ft) sample_info))
      (get_files ft entry).
Proof.
  unfold file_types. simpl. unfold merge_type.
  destruct ft; rewrite ?get_set_files; simpl; reflexivity.
Qed.

Lemma merge_sample_list (merged_data : gmap string sample_files)
    (item : string * list (string * list string)) (sample_name : string) (ft : file_type) :
  merged_list (merge_sample merged_data item) sample_name ft
  = fold_left add_path (doc_paths sample_name ft [item])
      (merged_list merged_data sample_name ft).
Proof.
  unfold merged_list, merge_sample, doc_paths. simpl. rewrite app_nil_r.
  case_decide as Hname.
  - subst sample_name. rewrite lookup_insert_eq. simpl. apply merge_types_get.
  - by rewrite lookup_insert_ne.
Qed.

Lemma merge_doc_list (doc : manifest_doc) (merged_data : gmap string sample_files)
    (sample_name : string) (ft : file_type) :
  merged_list (merge_doc merged_data doc) sample_name ft
  = fold_left add_path (doc_paths sample_name ft doc)
      (merged_list merged_data sample_name ft).
Proof.
  unfold merge_doc. revert merged_data.
  induction doc as [|item doc IH]; intros merged_data; [done|].
  cbn [fold_left]. rewrite IH, merge_sample_list.
  assert (doc_paths sample_name ft (item :: doc)
          = doc_paths sample_name ft [item] ++ doc_paths sample_name ft doc) as ->.
  { unfold doc_paths. rewrite !bind_cons. simpl. by rewrite app_nil_r. }
  by rewrite add_path_fold_app.
Qed.

Lemma merge_docs_list (docs : list manifest_doc) (merged_data : gmap string sample_files)
    (sample_name : string) (ft : file_type) :
  merged_list (fold_left merge_doc docs merged_data) sample_name ft
  = fold_left add_path (all_paths sample_name ft docs)
      (merged_list merged_data sample_name ft).
Proof.
  revert merged_data. induction docs as [|doc docs IH]; intros merged_data; [done|].
  cbn [fold_left]. rewrite IH, merge_doc_list.
  unfold all_paths. rewrite bind_cons. by rewrite add_path_fold_app.
Qed.

Lemma merged_list_fold (docs : list manifest_doc) (sample_name : string) (ft : file_type) :
  merged_list (_merge_vspipeline_json_files docs) sample_name ft
  = fold_left add_path (all_paths sample_name ft docs) [].
Proof.
  unfold _merge_vspipeline_json_files. rewrite merge_docs_list.
  unfold merged_list at 1. rewrite lookup_empty. by destruct ft.
Qed.

(** C7. For every list of manifest documents, sample and file type, the
    merged list holds every path that some document files under that sample
    and type, each exactly once, in the order of their first occurrences
    across the documents as supplied (whatever is met before a given point
    of the inputs comes first in the result); and what earlier documents
    gave stays in front, later documents adding only paths not yet there. *)
Theorem C7_merge_first_occurrence_order (docs : list manifest_doc)
    (sample_name : string) (ft : file_type) :
  let merged := merged_list (_merge_vspipeline_json_files docs) sample_name ft in
  let supplied := all_paths sample_name ft docs in
  NoDup merged
  ∧ (∀ p, p ∈ merged ↔ p ∈ supplied)
  ∧ merged = first_seen supplied
  ∧ (∀ before after, supplied = before ++ after →
       ∃ l1 l2, merged = l1 ++ l2
                ∧ (∀ p, p ∈ l1 ↔ p ∈ before) ∧ (∀ p, p ∈ l2 → p ∉ before))
  ∧ (∀ docs1 docs2, docs = docs1 ++ docs2 →
       ∃ added,
         merged = merged_list (_merge_vspipeline_json_files docs1) sample_name ft ++ added
         ∧ ∀ p, p ∈ added →
             p ∉ merged_list (_merge_vspipeline_json_files docs1) sample_name ft).
Proof.
  intros merged supplied.
  assert (merged = first_seen supplied) as Hm.
  { unfold merged. by rewrite merged_list_fold, add_path_fold_nil. }
  split_and!.
  - rewrite Hm. apply first_seen_NoDup.
  - intros p. rewrite Hm. apply elem_of_first_seen.
  - done.
  - intros before after Hsplit.
    exists (first_seen before),
      (filter (λ p, p ∉ first_seen before) (first_seen after)).
    split_and!.
    + unfold merged. rewrite merged_list_fold. fold supplied. rewrite Hsplit.
      by rewrite add_path_fold_app, add_path_fold_nil, add_path_fold.
    + intros p. apply elem_of_first_seen.
    + intros p [Hp _]%list_elem_of_filter. by rewrite elem_of_first_seen in Hp.
  - intros docs1 docs2 Hdocs.
    exists (filter (λ p, p ∉ merged_list (_merge_vspipeline_json_files docs1) sample_name ft)
              (first_seen (all_paths sample_name ft docs2))).
    split.
    + unfold merged. rewrite !merged_list_fold, Hdocs.
      unfold all_paths. rewrite bind_app.
      by rewrite add_path_fold_app, <- add_path_fold.
    + by intros p [Hp _]%list_elem_of_filter.
Qed.

(** ** Manifest store *)


Lemma add_path_present (l : list string) (p : string) : p ∈ l → add_path l p = l.
Proof. intros Hp. unfold add_path. by rewrite decide_True. Qed.






Example update_all_example :
  update_all (Store ∅ ∅) "S1" "cnv" "hiphase" ["/a/x.vcf"; "/a/y.vcf"; "/a/x.vcf"]
    ≫= (λ st, stored_list st "S1" "cnv" "hiphase")
  = Some ["/a/x.vcf"; "/a/y.vcf"].
Proof. vm_compute. reflexivity. Qed.

(** ** Batch descriptor generator *)

Example vsbatch_example :
  vsbatch_lines "/data/tpl/somatic.vsproject-template" ["S2"; "S1"]
    {[ "S1" := SampleFiles ["/m/1.vcf"] ["/c/1.cns"] [] [];
       "S2" := SampleFiles [] ["/c/2.cns"] ["/b/2.vcf"] [] ]}
    (ImportFlags true false true) (TableNames (Some "MyCnv") None None) true
  = ["project_create " +:+ quoted "AppData/Projects/S1_S2"
       +:+ " template=" +:+ quoted "somatic.vsproject-template" +:+ " overwrite=true";
     "download_required_sources";
     "import files=" +:+ quoted "/m/1.vcf" +:+ " sample_fields_catalog=SampleCatalog";
     "task_wait";
     "update_cnv_import files=" +:+ quoted "/c/2.cns" +:+ "," +:+ quoted "/c/1.cns"
       +:+ " table_id=" +:+ quoted "MyCnv";
     "task_wait";
     "get_task_list"; "project_save"; "project_close"].
Proof. vm_compute. reflexivity. Qed.

Lemma import_command_is_import (c : category) (files : list string) (table : string) :
  is_import_of c (import_command c files table) = true.
Proof. by destruct c. Qed.

Lemma task_wait_not_import (c : category) : is_import_of c "task_wait" = false.
Proof. by destruct c. Qed.

(** The lines are those of the category between lines of other kinds. *)
Lemma vsbatch_lines_split (c : category) (template_file : string)
    (sample_group : list string) (sample_data : gmap string sample_files)
    (flags : import_flags) (ids : table_names) (overwrite_project : bool) :
  ∃ before after,
    vsbatch_lines template_file sample_group sample_data flags ids overwrite_project
    = before
      ++ category_part c flags ids
           (group_files sample_group sample_data (category_file_type c))
      ++ after
    ∧ Forall (λ line, is_import_of c line = false) before
    ∧ Forall (λ line, is_import_of c line = false) after.
Proof.
  unfold vsbatch_lines, category_part.
  set (name := if decide (length sample_group < 6) then _ else _).
  set (create := (_ +:+ _)%string).
  set (mfiles := group_files sample_group sample_data Multiverse).
  set (cfiles := group_files sample_group sample_data Cnv).
  set (bfiles := group_files sample_group sample_data Bnd).
  set (rfiles := group_files sample_group sample_data Region).
  set (head2 := [create; "download_required_sources"]).
  set (mpart := if decide (mfiles ≠ []) then _ else _).
  set (cpart := if decide (alg_cnv flags = true ∧ cfiles ≠ []) then _ else _).
  set (bpart := if decide (alg_breakend flags = true ∧ bfiles ≠ []) then _ else _).
  set (rpart := if decide (alg_region flags = true ∧ rfiles ≠ []) then _ else _).
  set (tail3 := ["get_task_list"; "project_save"; "project_close"]).
  assert (∀ k, Forall (λ line, is_import_of k line = false) head2) as Hhead.
  { intros k. unfold head2, create. repeat constructor; by destruct k. }
  assert (∀ k, Forall (λ line, is_import_of k line = false) mpart) as Hm.
  { intros k. unfold mpart. case_decide; repeat constructor; by destruct k. }
  assert (∀ k, Forall (λ line, is_import_of k line = false) tail3) as Htail.
  { intros k. unfold tail3. repeat constructor; by destruct k. }
  assert (∀ k, k ≠ CatCnv → Forall (λ line, is_import_of k line = false) cpart) as Hc.
  { intros k Hk. unfold cpart. case_decide; repeat constructor; by destruct k. }
  assert (∀ k, k ≠ CatBreakend → Forall (λ line, is_import_of k line = false) bpart) as Hb.
  { intros k Hk. unfold bpart. case_decide; repeat constructor; by destruct k. }
  assert (∀ k, k ≠ CatRegion → Forall (λ line, is_import_of k line = false) rpart) as Hr.
  { intros k Hk. unfold rpart. case_decide; repeat constructor; by destruct k. }
  destruct c; simpl.
  - exists (head2 ++ mpart), (bpart ++ rpart ++ tail3). split_and!.
    + by rewrite <- !app_assoc.
    + apply Forall_app; auto.
    + rewrite !Forall_app. split_and!; auto.
  - exists (head2 ++ mpart ++ cpart), (rpart ++ tail3). split_and!.
    + by rewrite <- !app_assoc.
    + rewrite !Forall_app. split_and!; auto.
    + rewrite !Forall_app. split_and!; auto.
  - exists (head2 ++ mpart ++ cpart ++ bpart), tail3. split_and!.
    + by rewrite <- !app_assoc.
    + rewrite !Forall_app. split_and!; auto.
    + auto.
Qed.

(** C5 (as amended). For every sample group, merged manifest and template
    resolution result, and each of cnv, breakend and region: the command
    sequence has an import command of that category exactly when the
    category's algorithm flag is true and the group has files of its type;
    any such command lists all those files, each quoted, joined by commas,
    carries the resolved table identifier, or ["Table1"] exactly when the
    identifier is absent or is the empty string, and is followed at once by
    the synchronization marker [task_wait]. *)
Theorem C5_conditional_import_commands (c : category) (template_file : string)
    (sample_group : list string) (sample_data : gmap string sample_files)
    (flags : import_flags) (ids : table_names) (overwrite_project : bool) :
  let lines :=
    vsbatch_lines template_file sample_group sample_data flags ids overwrite_project in
  let files := group_files sample_group sample_data (category_file_type c) in
  let table := or_default (category_table c ids) "Table1" in
  ((∃ line, line ∈ lines ∧ is_import_of c line = true)
     ↔ category_flag c flags = true ∧ files ≠ [])
  ∧ (∀ i line, lines !! i = Some line → is_import_of c line = true →
       line = category_command c +:+ " files=" +:+ PyStr.join "," (quoted <$> files)
                +:+ " table_id=" +:+ quoted table
       ∧ lines !! S i = Some "task_wait")
  ∧ (∀ s, category_table c ids = Some s → s ≠ "" → table = s)
  ∧ (category_table c ids = None ∨ category_table c ids = Some "" → table = "Table1").
Proof.
  intros lines files table.
  destruct (vsbatch_lines_split c template_file sample_group sample_data flags ids
              overwrite_project) as (before & after & Hsplit & Hbefore & Hafter).
  fold lines files in Hsplit. unfold category_part in Hsplit. fold table in Hsplit.
  rewrite Forall_forall in Hbefore, Hafter.
  assert (∀ i line, lines !! i = Some line → is_import_of c line = true →
            (category_flag c flags = true ∧ files ≠ [])
            ∧ line = import_command c files table
            ∧ lines !! S i = Some "task_wait") as Hpos.
  { intros i line Hi Himp. rewrite Hsplit in Hi |- *.
    apply lookup_app_Some in Hi as [Hi|[Hlen Hi]].
    { apply list_elem_of_lookup_2, Hbefore in Hi. congruence. }
    case_decide as Hcond; simpl in Hi.
    - destruct (i - length before) as [|[|k]] eqn:Hk; simpl in Hi.
      + injection Hi as <-. split; [done|]. split; [done|].
        rewrite lookup_app_r by lia.
        replace (S i - length before) with 1 by lia. done.
      + injection Hi as <-. by rewrite task_wait_not_import in Himp.
      + apply list_elem_of_lookup_2, Hafter in Hi. congruence.
    - apply list_elem_of_lookup_2, Hafter in Hi. congruence. }
  split_and!.
  - split.
    + intros (line & [i Hi]%list_elem_of_lookup_1 & Himp).
      by destruct (Hpos i line Hi Himp) as (Hcond & _).
    + intros Hcond. exists (import_command c files table).
      split; [|apply import_command_is_import].
      rewrite Hsplit, decide_True by done. set_solver.
  - intros i line Hi Himp. by destruct (Hpos i line Hi Himp) as (_ & -> & Hnext).
  - intros s Hs Hne. unfold table, or_default. rewrite Hs. by rewrite decide_False.
  - intros [Hnone|Hempty]; unfold table, or_default.
    + by rewrite Hnone.
    + by rewrite Hempty.
Qed.

(** C5, the claim as stated, fails when the resolved identifier is the empty
    string (what a table record without a [userId] resolves to): the
    identifier is not absent, yet the command carries ["Table1"]. *)
Lemma C5_empty_identifier_counterexample :
  let ids := TableNames (Some "") None None in
  let lines :=
    vsbatch_lines "somatic.vsproject-template" ["S1"]
      {[ "S1" := SampleFiles [] ["/c/1.cns"] [] [] ]}
      (ImportFlags true true true) ids true in
  category_table CatCnv ids ≠ None
  ∧ import_command CatCnv ["/c/1.cns"] "Table1" ∈ lines
  ∧ import_command CatCnv ["/c/1.cns"] "" ∉ lines.
Proof.
  split_and!; [done| |]; vm_compute.
  - do 2 right. left.
  - intros Hin. repeat (apply elem_of_cons in Hin as [Heq|Hin]; [discriminate Heq|]).
    by apply elem_of_nil in Hin.
Qed.

(** ** CNV state *)




Example cnv_state_ties :
  classify_row (Finite (5#2)) = Appended "Normal"
  ∧ classify_row (Finite (1#2)) = Appended "Deletion"
  ∧ classify_row (Finite (3#2)) = Appended "Normal"
  ∧ classify_row (Finite (7#2)) = Appended "Duplicate".
Proof. by vm_compute. Qed.

(** ** Template resolver *)

Example template_example :
  _parse_template_file (Some (JObj
    [("project", JObj [("fields", JObj [("dal", JObj [("fields", JObj
        [("dataTrees", JArr [JObj [("fields", JObj [("algorithms", JArr
            [JObj [("fields", JObj [("algName", JStr "Import CNV Calls")])];
             JObj [("fields", JObj [("algName", JStr "Import BND")])]])])]])])])])]);
     ("views", JArr
        [JObj [("axisUuids", JArr
                  [JObj [("className", JStr "AxisUuidOptions");
                         ("fields", JObj [("uuid", JStr "u1"); ("axisType", JStr "CNV")])];
                   JObj [("className", JStr "AxisUuidOptions");
                         ("fields", JObj [("uuid", JStr "u2"); ("axisType", JStr "Region")])]])];
         JObj [("className", JStr "VSTableDataOptions");
               ("fields", JObj [("userId", JStr "Table2");
                                ("axisUuidList", JArr [JStr "u1"; JStr "u2"])])];
         JObj [("className", JStr "VSTableDataOptions");
               ("fields", JObj [("userId", JStr "Losses");
                                ("axisUuidList", JArr [JStr "u1"])])]])]))
  = Resolution (ImportFlags true true false)
      (PerCategory (JStr "Losses") JNull (JStr "Table2")).
Proof. vm_compute. reflexivity. Qed.

(** Where the resolver's test and the pattern agree: on every name that does
    not start with "Table", and on every name in which "Table" does not
    occur again after that start. *)
Lemma remove_all_absent (s : string) :
  Py.contains "Table" s = false → Py.remove_all "Table" s = s.
Proof.
  unfold Py.remove_all. induction s as [|c r IH]; [done|].
  intros Hc. cbn [Py.contains] in Hc. apply orb_false_iff in Hc as [Hp Hr].
  cbn [Py.remove_from]. rewrite Hp. by rewrite IH.
Qed.

Lemma substring_whole (s : string) : String.substring 0 (String.length s) s = s.
Proof. induction s as [|c r IH]; [done|]. simpl. by rewrite IH. Qed.

Lemma is_generic_without_prefix (c : string) :
  String.prefix "Table" c = false →
  is_generic c = false ∧ table_then_digits c = false.
Proof. intros Hp. unfold is_generic, table_then_digits. by rewrite Hp. Qed.

Lemma is_generic_single_prefix (rest : string) :
  Py.contains "Table" rest = false →
  is_generic ("Table" +:+ rest) = table_then_digits ("Table" +:+ rest).
Proof.
  intros Hc. unfold is_generic, table_then_digits. f_equal.
  change ("Table" +:+ rest)
    with (String "T" (String "a" (String "b" (String "l" (String "e" rest))))).
  unfold Py.remove_all. simpl.
  assert (String.prefix "" rest = true) as -> by (by destruct rest).
  fold (Py.remove_all "Table" rest). rewrite remove_all_absent by done.
  by rewrite Nat.sub_0_r, substring_whole.
Qed.

(** C3. The two selections the specification lists come out as it says,
    but the resolver does not partition the candidates by the pattern
    "Table" followed by digits: it deletes every occurrence of "Table" from
    a name that starts with it and tests what is left for digits. The name
    "TableTable5" is custom by the pattern and generic for the resolver, so
    that of the candidates "TableTable5" and "Table9" the stated rule
    selects "TableTable5" and the resolver "Table9", also when the two
    names come from a template document. *)
Theorem C3_table_selection_on_repeated_prefix :
  select_table [JStr "Table1"; JStr "Table2"; JStr "MyCustomTable"]
    = Some (JStr "MyCustomTable")
  ∧ select_table [JStr "Table2"; JStr "Table1"] = Some (JStr "Table1")
  ∧ table_then_digits "TableTable5" = false
  ∧ is_generic "TableTable5" = true
  ∧ stated_selection ["TableTable5"; "Table9"] = Some "TableTable5"
  ∧ select_table [JStr "TableTable5"; JStr "Table9"] = Some (JStr "Table9")
  ∧ of_cnv (table_ids (_parse_template_file (Some (JObj
      [("axes", JObj [("axisUuids", JArr
          [JObj [("className", JStr "AxisUuidOptions");
                 ("fields", JObj [("uuid", JStr "u1"); ("axisType", JStr "CNV")])]])]);
       ("tables", JArr
          [JObj [("className", JStr "VSTableDataOptions");
                 ("fields", JObj [("userId", JStr "TableTable5");
                                  ("axisUuidList", JArr [JStr "u1"])])];
           JObj [("className", JStr "VSTableDataOptions");
                 ("fields", JObj [("userId", JStr "Table9");
                                  ("axisUuidList", JArr [JStr "u1"])])]])]))))
    = JStr "Table9".
Proof. split_and!; vm_compute; reflexivity. Qed.

(** A table record without a [userId] resolves to the empty string, which
    is a resolved identifier and not an absent one. *)
Example missing_user_id_resolves_to_empty :
  of_cnv (table_ids (_parse_template_file (Some (JObj
    [("axes", JObj [("axisUuids", JArr
        [JObj [("className", JStr "AxisUuidOptions");
               ("fields", JObj [("uuid", JStr "u1"); ("axisType", JStr "CNV")])]])]);
     ("tables", JArr
        [JObj [("className", JStr "VSTableDataOptions");
               ("fields", JObj [("axisUuidList", JArr [JStr "u1"])])]])]))))
  = JStr "".
Proof. vm_compute. reflexivity. Qed.

Lemma for_each_raised {A S : Type} (body : S → A → option S) (l : list A) :
  fold_left (λ acc x, s' ← acc; body s' x) l None = None.
Proof. by induction l. Qed.

Lemma for_each_cons {A S : Type} (body : S → A → option S) (x : A) (l : list A) (s : S) :
  for_each body (x :: l) s = body s x ≫= for_each body l.
Proof.
  unfold for_each. simpl. destruct (body s x); simpl; [done|apply for_each_raised].
Qed.

Lemma check_algorithm_name (flags : import_flags) (algorithm : json) :
  check_algorithm flags algorithm
  = (λ name, flag_algorithm flags name) <$> algorithm_name algorithm.
Proof.
  unfold check_algorithm, algorithm_name.
  destruct (Py.get algorithm "fields" (JObj [])) as [alg_fields|]; simpl; [|done].
  destruct (Py.get alg_fields "algName" (JStr "")) as [alg_name|]; simpl; [|done].
  by destruct (Py.as_str alg_name).
Qed.

Lemma check_algorithms_names (algorithms : list json) (flags flags' : import_flags) :
  for_each check_algorithm algorithms flags = Some flags' →
  ∃ names, mapM algorithm_name algorithms = Some names
           ∧ flags' = fold_left flag_algorithm names flags.
Proof.
  revert flags. induction algorithms as [|algorithm rest IH]; intros flags.
  - intros [= <-]. by exists [].
  - rewrite for_each_cons, check_algorithm_name.
    destruct (algorithm_name algorithm) as [name|] eqn:Hname; simpl; [|done].
    intros (names & Hnames & ->)%IH.
    exists (name :: names). by rewrite Hname, Hnames.
Qed.

Lemma check_tree_names (data_tree : json) (flags flags' : import_flags) :
  check_tree flags data_tree = Some flags' →
  ∃ names, tree_algorithm_names data_tree = Some names
           ∧ flags' = fold_left flag_algorithm names flags.
Proof.
  unfold check_tree, tree_algorithm_names.
  destruct (Py.get data_tree "fields" (JObj [])) as [tree_fields|]; simpl; [|done].
  destruct (Py.get tree_fields "algorithms" (JArr [])) as [algorithms|]; simpl; [|done].
  destruct (Py.iter algorithms) as [items|]; simpl; [|done].
  apply check_algorithms_names.
Qed.

Lemma check_trees_names (trees : list json) (flags flags' : import_flags) :
  for_each check_tree trees flags = Some flags' →
  ∃ names, mjoin <$> mapM tree_algorithm_names trees = Some names
           ∧ flags' = fold_left flag_algorithm names flags.
Proof.
  revert flags. induction trees as [|data_tree rest IH]; intros flags.
  - intros [= <-]. by exists [].
  - rewrite for_each_cons.
    destruct (check_tree flags data_tree) as [flags1|] eqn:Htree; simpl; [|done].
    apply check_tree_names in Htree as (names1 & Hnames1 & ->).
    intros (names & Hnames & ->)%IH.
    destruct (mapM tree_algorithm_names rest) as [nss|] eqn:Hrest; [|done].
    simpl in Hnames. injection Hnames as <-.
    exists (names1 ++ mjoin nss). rewrite Hnames1; simpl.
    split; [done|]. by rewrite fold_left_app.
Qed.

Lemma detect_algorithms_names (template_data : json) (flags : import_flags) :
  detect_algorithms template_data = Some flags →
  ∃ names, algorithm_names template_data = Some names
           ∧ flags = fold_left flag_algorithm names (ImportFlags false false false).
Proof.
  unfold detect_algorithms, algorithm_names.
  destruct (data_trees_of template_data) as [data_trees|]; simpl; [|done].
  destruct (Py.iter data_trees) as [trees|]; simpl; [|done].
  apply check_trees_names.
Qed.

(** Which names raise which flag. *)
Lemma flags_of_names (names : list string) (flags : import_flags) :
  let result := fold_left flag_algorithm names flags in
  alg_cnv result
    = alg_cnv flags
      || existsb (λ n, mentions "import" n && mentions "cnv" n) names
  ∧ alg_breakend result
    = alg_breakend flags
      || existsb (λ n, mentions "import" n && negb (mentions "cnv" n)
                       && (mentions "breakend" n || mentions "bnd" n)) names
  ∧ alg_region result
    = alg_region flags
      || existsb (λ n, mentions "import" n && negb (mentions "cnv" n)
                       && negb (mentions "breakend" n || mentions "bnd" n)
                       && mentions "region" n) names.
Proof.
  revert flags. induction names as [|name names IH]; intros flags; simpl.
  - by rewrite !orb_false_r.
  - destruct (IH (flag_algorithm flags name)) as (-> & -> & ->).
    unfold flag_algorithm, mentions.
    destruct (Py.contains "import" (Py.lower name)),
      (Py.contains "cnv" (Py.lower name)),
      (Py.contains "breakend" (Py.lower name)),
      (Py.contains "bnd" (Py.lower name)),
      (Py.contains "region" (Py.lower name));
      destruct flags as [[] [] []]; simpl; by rewrite ?orb_true_r.
Qed.

Lemma existsb_elem_of {A : Type} (f : A → bool) (l : list A) :
  existsb f l = true ↔ ∃ x, x ∈ l ∧ f x = true.
Proof.
  rewrite existsb_exists. split; intros (x & Hx & Hf); exists x;
    (split; [by apply list_elem_of_In | done]).
Qed.




(** Follows the walk key by key, on every shape the values can have. *)
Ltac walk_path :=
  unfold template_path, data_trees_of, Py.get; simpl;
  repeat (case_match; simpl in *; simplify_eq; try done).

Lemma data_trees_absent (template_data : json) :
  path_absent template_path template_data →
  data_trees_of template_data = Some (JArr []).
Proof. walk_path. Qed.

Lemma data_trees_blocked (template_data : json) :
  path_blocked template_path template_data →
  data_trees_of template_data = None.
Proof. walk_path. Qed.

(** C9 (as amended). A document that cannot be loaded, and a document on
    which any step of the resolution raises, as when the walk to
    [project.fields.dal.fields.dataTrees] meets a value that is not an
    object, resolve to the degraded result: the three flags false and the
    three identifiers absent; the resolver itself never raises. When a key
    of that path is merely missing, the three flags are false and the
    identifiers are those the table walk resolved, absent only if that walk
    raised. *)
Theorem C9_failure_degrades_missing_path_clears_flags :
  _parse_template_file None = degraded
  ∧ (∀ template_data, parse_template template_data = None →
       _parse_template_file (Some template_data) = degraded)
  ∧ (∀ template_data, path_blocked template_path template_data →
       _parse_template_file (Some template_data) = degraded)
  ∧ (∀ template_data, path_absent template_path template_data →
       import_algorithms (_parse_template_file (Some template_data))
         = ImportFlags false false false
       ∧ table_ids (_parse_template_file (Some template_data))
         = default (PerCategory JNull JNull JNull) (resolve_tables template_data)).
Proof.
  split_and!.
  - done.
  - intros template_data Hnone. unfold _parse_template_file. simpl. by rewrite Hnone.
  - intros template_data Hblocked%data_trees_blocked.
    unfold _parse_template_file, parse_template, detect_algorithms. simpl.
    rewrite Hblocked. by destruct (resolve_tables template_data).
  - intros template_data Habsent%data_trees_absent.
    unfold _parse_template_file, parse_template, detect_algorithms. simpl.
    rewrite Habsent. by destruct (resolve_tables template_data).
Qed.

(** C9, the claim as stated, fails on a document without the [project] key
    that holds a table on a CNV axis: the path is absent, yet the cnv
    identifier is resolved, so the result is not the degraded one. *)
Lemma C9_missing_path_counterexample :
  let template_data :=
    JObj [("axes", JObj [("axisUuids", JArr
            [JObj [("className", JStr "AxisUuidOptions");
                   ("fields", JObj [("uuid", JStr "u1"); ("axisType", JStr "CNV")])]])]);
          ("tables", JArr
            [JObj [("className", JStr "VSTableDataOptions");
                   ("fields", JObj [("userId", JStr "Losses");
                                    ("axisUuidList", JArr [JStr "u1"])])]])] in
  path_absent template_path template_data
  ∧ of_cnv (table_ids (_parse_template_file (Some template_data))) = JStr "Losses"
  ∧ _parse_template_file (Some template_data) ≠ degraded.
Proof.
  split_and!.
  - by vm_compute.
  - vm_compute. reflexivity.
  - vm_compute. discriminate.
Qed.

Example wrong_type_on_path_degrades :
  _parse_template_file (Some (JObj
    [("project", JArr []);
     ("axes", JObj [("axisUuids", JArr
        [JObj [("className", JStr "AxisUuidOptions");
               ("fields", JObj [("uuid", JStr "u1"); ("axisType", JStr "CNV")])]])]);
     ("tables", JArr
        [JObj [("className", JStr "VSTableDataOptions");
               ("fields", JObj [("userId", JStr "Losses");
                                ("axisUuidList", JArr [JStr "u1"])])]])]))
  = degraded.
Proof. vm_compute. reflexivity. Qed.

(** * Further properties of the code *)

(** ** The order of [sorted] and [min] *)

Lemma le_iff (a b : string) : PyStr.le a b ↔ a = b ∨ OrderedTypeEx.String_as_OT.lt a b.
Proof.
  unfold PyStr.le, String.leb.
  destruct (String.compare a b) eqn:Hc; simpl.
  - apply OrderedTypeEx.String_as_OT.cmp_eq in Hc. tauto.
  - apply OrderedTypeEx.String_as_OT.cmp_lt in Hc. tauto.
  - split; [done|]. intros [->|Hlt].
    + assert (String.compare b b = Eq) as Heq
        by (by apply OrderedTypeEx.String_as_OT.cmp_eq).
      congruence.
    + apply OrderedTypeEx.String_as_OT.cmp_lt in Hlt.
      unfold OrderedTypeEx.String_as_OT.cmp in Hlt. congruence.
Qed.

#[global] Instance le_transitive : Transitive PyStr.le.
Proof.
  intros a b c. rewrite !le_iff. intros [->|Hab] [->|Hbc]; auto.
  right. by eapply OrderedTypeEx.String_as_OT.lt_trans.
Qed.

#[global] Instance le_total : Total PyStr.le.
Proof.
  intros a b. unfold PyStr.le.
  destruct (String.leb_total a b) as [->| ->]; [by left | by right].
Qed.

#[global] Instance le_antisymm : AntiSymm eq PyStr.le.
Proof.
  intros a b Hab Hba. apply String.leb_antisym; by apply Is_true_true.
Qed.

#[global] Instance le_reflexive : Reflexive PyStr.le.
Proof. intros a. by destruct (total PyStr.le a a). Qed.

Lemma sorted_StronglySorted (l : list string) : StronglySorted PyStr.le (PyStr.sorted l).
Proof. apply StronglySorted_merge_sort; apply _. Qed.

(** The sorted listing depends on the elements only. *)
Lemma sorted_of_Permutation (l1 l2 : list string) :
  l1 ≡ₚ l2 → PyStr.sorted l1 = PyStr.sorted l2.
Proof.
  intros Hperm. apply (StronglySorted_unique PyStr.le); try apply sorted_StronglySorted.
  by rewrite !sorted_Permutation.
Qed.

Lemma ltb_not_le (a b : string) : String.ltb a b = true ↔ ¬ PyStr.le b a.
Proof.
  unfold PyStr.le, String.ltb, String.leb. rewrite (String.compare_antisym b a).
  destruct (String.compare a b); simpl; intuition congruence.
Qed.

(** [min] returns an element below all the others. *)
Lemma min_is_least (l : list string) (m : string) :
  PyStr.min l = Some m → ∀ x, x ∈ l → PyStr.le m x.
Proof.
  destruct l as [|x0 r]; [done|]. simpl. intros [= <-].
  assert (∀ acc, PyStr.le (fold_left (λ m y, if String.ltb y m then y else m) r acc) acc
            ∧ ∀ x, x ∈ r →
                PyStr.le (fold_left (λ m y, if String.ltb y m then y else m) r acc) x)
    as Hfold.
  { induction r as [|y r IH]; intros acc; simpl.
    - split; [reflexivity|]. intros x Hx. by apply elem_of_nil in Hx.
    - destruct (IH (if String.ltb y acc then y else acc)) as [Hacc Hrest].
      destruct (String.ltb y acc) eqn:Hlt.
      + assert (PyStr.le y acc) as Hya.
        { destruct (total PyStr.le y acc) as [?|Hay]; [done|].
          by apply ltb_not_le in Hlt. }
        split; [by etrans|]. intros x [->|Hx]%elem_of_cons; auto.
      + assert (PyStr.le acc y) as Hay.
        { destruct (total PyStr.le acc y) as [?|Hya]; [done|].
          destruct (decide (PyStr.le acc y)) as [?|Hn]; [done|].
          apply ltb_not_le in Hn. congruence. }
        split; [done|]. intros x [->|Hx]%elem_of_cons; [by etrans | auto]. }
  destruct (Hfold x0) as [H0 Hr].
  intros x [->|Hx]%elem_of_cons; auto.
Qed.

(** The first of a sorted listing is the minimum. *)
Lemma head_sorted_min (l : list string) : head (PyStr.sorted l) = PyStr.min l.
Proof.
  destruct l as [|x0 r] eqn:Hl; [done|]. rewrite <- Hl.
  destruct (min_is_Some l) as [m Hm]; [by rewrite Hl|]. rewrite Hm.
  pose proof (sorted_StronglySorted l) as Hs.
  pose proof (sorted_Permutation l) as Hp.
  destruct (PyStr.sorted l) as [|h t] eqn:Hsorted.
  { apply Permutation_nil_l in Hp. rewrite Hl in Hp. done. }
  simpl. f_equal. apply (anti_symm PyStr.le).
  - apply StronglySorted_inv in Hs as [_ Hall]. rewrite Forall_forall in Hall.
    assert (m ∈ h :: t) as [->|Hin]%elem_of_cons.
    { rewrite Hp. by apply min_elem_of. }
    + reflexivity.
    + by apply Hall.
  - eapply min_is_least; [done|]. rewrite <- Hp. by left.
Qed.

(** ** The groups are the connected components *)

Lemma fold_left_establishes {A B : Type} (Q : B → A → Prop) (f : A → B → A) (l : list B) :
  (∀ a x, x ∈ l → Q x (f a x)) →
  (∀ a x y, Q x a → Q x (f a y)) →
  ∀ x, x ∈ l → ∀ a, Q x (fold_left f l a).
Proof.
  induction l as [|z l IH]; intros Hnow Hkeep x Hx a; [by apply elem_of_nil in Hx|].
  simpl. apply elem_of_cons in Hx as [->|Hx].
  - apply (fold_left_invariant (Q z)); [intros; by apply Hkeep|].
    apply Hnow. by left.
  - apply IH; [|done..]. intros a' x' Hx'. apply Hnow. by right.
Qed.

Lemma dict_get_elem_of {V : Type} (k : string) (v : V) (d : list (string * V)) :
  NoDup d.*1 → (k, v) ∈ d → dict_get k d = Some v.
Proof.
  induction d as [|[k0 v0] d IH]; simpl; intros Hnd Hin; [by apply elem_of_nil in Hin|].
  apply NoDup_cons in Hnd as [Hk0 Hnd].
  apply elem_of_cons in Hin as [Heq|Hin];
    [injection Heq as <- <-; by rewrite decide_True|].
  rewrite decide_False; [by apply IH|].
  intros ->. apply Hk0. by apply (list_elem_of_fmap_2 fst) in Hin.
Qed.

Lemma linked_sym (sample_data : list (string * list string)) (all_samples : gset string)
    (a b : string) :
  linked sample_data all_samples a b → linked sample_data all_samples b a.
Proof. unfold linked. tauto. Qed.

Lemma bfs_extends_refl (st : bfs_state) : bfs_extends st st.
Proof. unfold bfs_extends. split_and!; auto. Qed.

Lemma bfs_extends_visit (st0 st : bfs_state) (x : string) :
  bfs_extends st0 st → bfs_extends st0 (visit x st).
Proof.
  intros (Hp & Hg & Hq & Hnew). unfold bfs_extends, visit; simpl. split_and!.
  - set_solver.
  - set_solver.
  - intros y Hy. apply elem_of_app. left. by apply Hq.
  - intros y [Hy|Hy]%elem_of_union.
    + right. apply elem_of_app. right. set_solver.
    + destruct (Hnew y Hy) as [?|?]; [by left|]. right. apply elem_of_app. by left.
Qed.

Section components.
Variable sample_data : list (string * list string).
Variable all_samples : gset string.
Hypothesis Hnodup : NoDup sample_data.*1.
Hypothesis Hkeys : ∀ k, k ∈ sample_data.*1 ↔ k ∈ all_samples.

Local Abbreviation linked := (linked sample_data all_samples).
Local Abbreviation bfs_closed := (bfs_closed sample_data all_samples).
Local Abbreviation bfs_reached := (bfs_reached sample_data all_samples).
Local Abbreviation components_inv := (components_inv sample_data all_samples).

Lemma scan_referrer_extends (cur : string) (st0 st : bfs_state) (item : string * list string) :
  bfs_extends st0 st → bfs_extends st0 (scan_referrer cur st item).
Proof.
  intros Hext. unfold scan_referrer. repeat case_decide; try done.
  by apply bfs_extends_visit.
Qed.

Lemma scan_reference_extends (st0 st : bfs_state) (v : string) :
  bfs_extends st0 st → bfs_extends st0 (scan_reference all_samples st v).
Proof.
  intros Hext. unfold scan_reference. case_decide; [by apply bfs_extends_visit|done].
Qed.

Lemma bfs_turn_extends (cur : string) (st : bfs_state) :
  bfs_extends st (bfs_turn sample_data all_samples cur st).
Proof.
  unfold bfs_turn.
  apply (fold_left_invariant (bfs_extends st)).
  { intros a v _. apply scan_reference_extends. }
  apply (fold_left_invariant (bfs_extends st)).
  { intros a it _. apply scan_referrer_extends. }
  apply bfs_extends_refl.
Qed.

(** After the turn of [cur], all that [cur] is linked with is marked. *)
Lemma bfs_turn_marks_linked (cur : string) (st : bfs_state) (y : string) :
  linked cur y → y ∈ processed_samples (bfs_turn sample_data all_samples cur st).
Proof.
  intros (Hcur & Hy & [(meta & Hmeta & Hin)|(meta & Hmeta & Hin)]); unfold bfs_turn.
  - rewrite Hmeta. simpl.
    apply (fold_left_establishes (λ v s, v ∈ all_samples → v ∈ processed_samples s));
      [| |done..].
    + intros a v _ Hv. unfold scan_reference.
      case_decide as Hc; [unfold visit; simpl; set_solver|].
      destruct (decide (v ∈ processed_samples a)); [done|]. by destruct Hc.
    + intros a v w Hv Hall. specialize (Hv Hall).
      by apply (scan_reference_extends a a w (bfs_extends_refl a)).
  - apply (fold_left_invariant (λ s, y ∈ processed_samples s)).
    { intros a v _ Ha. by apply (scan_reference_extends a a v (bfs_extends_refl a)). }
    assert ((y, meta) ∈ sample_data) as Hitem.
    { clear -Hmeta. induction sample_data as [|[k0 v0] d IH]; simpl in *; [done|].
      case_decide; simplify_eq; [by left | right; auto]. }
    apply (fold_left_establishes
             (λ item s, cur ∈ item.2 → item.1 ∈ processed_samples s)
             _ _) with (x := (y, meta)); [| |done..].
    + intros a item _ Hc. unfold scan_referrer.
      case_decide; [done|]. rewrite decide_True by done. unfold visit; simpl. set_solver.
    + intros a item item' Hitm Hc. specialize (Hitm Hc).
      by apply (scan_referrer_extends cur a a item' (bfs_extends_refl a)).
Qed.

Lemma bfs_turn_closed (cur : string) (rest : list string) (st : bfs_state) :
  to_process st = cur :: rest →
  bfs_closed st →
  bfs_closed (bfs_turn sample_data all_samples cur
                (BfsState (current_group st) (processed_samples st) rest)).
Proof.
  intros Hq Hclosed.
  set (st1 := BfsState (current_group st) (processed_samples st) rest).
  pose proof (bfs_turn_extends cur st1) as (Hp & Hg & Hqueue & Hnew).
  intros x Hx. destruct (Hnew x Hx) as [Hold|Hqueued]; [|by left].
  simpl in Hold. destruct (Hclosed x Hold) as [Hin|Hdone].
  - rewrite Hq in Hin. apply elem_of_cons in Hin as [->|Hin].
    + right. intros y Hy. by apply bfs_turn_marks_linked.
    + left. by apply Hqueue.
  - right. intros y Hy. apply Hp. simpl. by apply Hdone.
Qed.

Lemma bfs_loop_closed (fuel : nat) (st st' : bfs_state) :
  bfs_closed st →
  bfs_loop fuel sample_data all_samples st = Some st' →
  ∀ x y, x ∈ current_group st' → linked x y → y ∈ processed_samples st'.
Proof.
  revert st. induction fuel as [|fuel IH]; intros st Hclosed Hrun; [done|].
  simpl in Hrun. destruct (to_process st) as [|cur rest] eqn:Hq.
  - injection Hrun as <-. intros x y Hx Hxy.
    destruct (Hclosed x Hx) as [Hin|Hdone]; [|by apply Hdone].
    rewrite Hq in Hin. by apply elem_of_nil in Hin.
  - eapply IH; [|exact Hrun]. by apply bfs_turn_closed.
Qed.

Lemma visit_reached (seed cur x : string) (st : bfs_state) :
  cur ∈ current_group st → linked cur x →
  bfs_reached seed st → bfs_reached seed (visit x st).
Proof.
  intros Hcur Hlink [Hreach Hqueue]. unfold bfs_reached, visit; simpl. split.
  - intros y [Hy|Hy]%elem_of_union; [|by apply Hreach].
    apply elem_of_singleton in Hy as ->.
    eapply rtc_r; [by apply Hreach | done].
  - intros y [Hy|Hy]%elem_of_app.
    + apply elem_of_union_r. by apply Hqueue.
    + apply list_elem_of_singleton in Hy as ->. set_solver.
Qed.

Lemma bfs_turn_reached (seed cur : string) (st : bfs_state) :
  cur ∈ current_group st → cur ∈ all_samples →
  bfs_reached seed st →
  bfs_reached seed (bfs_turn sample_data all_samples cur st).
Proof.
  intros Hcur Hall Hreach.
  cut (cur ∈ current_group (bfs_turn sample_data all_samples cur st)
       ∧ bfs_reached seed (bfs_turn sample_data all_samples cur st)); [tauto|].
  unfold bfs_turn.
  apply (fold_left_invariant (λ s, cur ∈ current_group s ∧ bfs_reached seed s)).
  { intros a v Hv [Hc Hr]. unfold scan_reference. case_decide as Hcond; [|done].
    destruct Hcond as [Hvall Hvnew].
    split; [unfold visit; simpl; set_solver|].
    apply (visit_reached seed cur); [done| |done].
    split_and!; [done..|]. left.
    unfold refers.
    destruct (dict_get cur sample_data) as [meta|]; simpl in Hv; [by exists meta|].
    by apply elem_of_nil in Hv. }
  apply (fold_left_invariant (λ s, cur ∈ current_group s ∧ bfs_reached seed s)); [|done].
  intros a item Hitem [Hc Hr]. unfold scan_referrer.
  repeat case_decide; try done.
  split; [unfold visit; simpl; set_solver|].
  apply (visit_reached seed cur); [done| |done].
  split_and!; [done| |].
  - apply Hkeys. by apply (list_elem_of_fmap_2 fst) in Hitem.
  - right. exists item.2. split; [|done].
    apply dict_get_elem_of; [done|]. by destruct item.
Qed.

Lemma universe_is_all : universe sample_data all_samples = all_samples.
Proof.
  unfold universe. apply set_eq. intros x.
  rewrite elem_of_union, elem_of_list_to_set, Hkeys. tauto.
Qed.

Lemma bfs_loop_reached (seed : string) (processed0 : gset string) (fuel : nat)
    (st st' : bfs_state) :
  bfs_inv sample_data all_samples seed processed0 st →
  bfs_reached seed st →
  bfs_loop fuel sample_data all_samples st = Some st' →
  bfs_reached seed st'.
Proof.
  revert st. induction fuel as [|fuel IH]; intros st Hinv Hreach Hrun; [done|].
  simpl in Hrun. destruct (to_process st) as [|cur rest] eqn:Hq.
  - by injection Hrun as <-.
  - eapply IH; [| |exact Hrun].
    + by apply bfs_turn_inv.
    + destruct Hreach as [Hr Hqueue].
      assert (cur ∈ current_group st) as Hcur by (apply Hqueue; rewrite Hq; by left).
      apply bfs_turn_reached; simpl; [done| |].
      * destruct Hinv as (_ & _ & _ & Hu). rewrite <- universe_is_all. by apply Hu.
      * split; [done|]. simpl. intros x Hx. apply Hqueue. rewrite Hq. by right.
Qed.

(** The group of a seed: closed under links within what is marked, and
    reached from the seed link by link. *)
Lemma find_connected_samples_component (sample : string) (processed group processed' : gset string) :
  sample ∉ processed → sample ∈ all_samples →
  _find_connected_samples sample sample_data all_samples processed
    = Some (group, processed') →
  (∀ x y, x ∈ group → linked x y → y ∈ processed')
  ∧ (∀ x, x ∈ group → rtc linked sample x).
Proof.
  intros Hnew Hall. unfold _find_connected_samples.
  set (st0 := BfsState {[sample]} ({[sample]} ∪ processed) [sample]).
  destruct (bfs_loop (bfs_fuel sample_data all_samples) sample_data all_samples st0)
    as [st|] eqn:Hrun; simpl; [|done].
  intros [= <- <-]. split.
  - eapply bfs_loop_closed; [|exact Hrun].
    intros x Hx. left. unfold st0 in *; simpl in *. set_solver.
  - eapply (bfs_loop_reached sample processed); [| |exact Hrun].
    + unfold bfs_inv, st0; simpl. rewrite universe_is_all. set_solver.
    + unfold bfs_reached, st0; simpl. split.
      * intros x ->%elem_of_singleton. done.
      * intros x Hx. set_solver.
Qed.

Lemma group_step_components (acc acc' : gmap string (list string) * gset string)
    (sample : string) :
  groups_inv acc → sample ∈ all_samples → components_inv acc →
  group_step sample_data all_samples (Some acc) sample = Some acc' →
  components_inv acc'.
Proof.
  destruct acc as [rel P]. intros (Hkey & Hin & Hcov & Hdisj) Hs
    (Hclosed & Hgclosed & Hconn & Hsorted); simpl in *.
  case_decide as Hp.
  { intros [= <-]. by split_and!. }
  destruct (find_connected_samples_spec sample_data all_samples sample P Hp)
    as (G & P' & Hfind & HsG & HGP & -> & HGu); [by rewrite universe_is_all|].
  rewrite Hfind. simpl.
  destruct (find_connected_samples_component sample P G (P ∪ G) Hp Hs Hfind)
    as [HGclosed HGreach].
  destruct (PyStr.min (elements G)) as [key|] eqn:Hmin; simpl; [|done].
  intros [= <-]. simpl.
  assert (∀ x y, x ∈ G → linked x y → y ∈ G) as HGG.
  { intros x y Hx Hxy. specialize (HGclosed x y Hx Hxy).
    apply elem_of_union in HGclosed as [Hy|Hy]; [|done].
    apply linked_sym in Hxy. specialize (Hclosed y x Hy Hxy). set_solver. }
  unfold components_inv; simpl. split_and!.
  - intros x y [Hx|Hx]%elem_of_union Hxy.
    + apply elem_of_union_l. by eapply Hclosed.
    + apply elem_of_union_r. by eapply HGG.
  - intros k g x y. rewrite lookup_insert. case_decide; [|by apply Hgclosed].
    intros [= <-]. rewrite !elem_of_sorted_elements. apply HGG.
  - intros k g x y. rewrite lookup_insert. case_decide; [|by apply Hconn].
    intros [= <-]. rewrite !elem_of_sorted_elements. intros Hx Hy.
    etrans; [apply rtc_rtsc_lr, HGreach, Hx | apply rtc_rtsc_rl, HGreach, Hy].
  - intros k g. rewrite lookup_insert. case_decide; [|by apply Hsorted].
    intros [= <-]. subst k. split; [|apply sorted_StronglySorted].
    by rewrite head_sorted_min.
Qed.

Lemma group_loop_components (seeds : list string)
    (acc acc' : gmap string (list string) * gset string) :
  universe sample_data all_samples = all_samples →
  groups_inv acc → acc.2 ⊆ all_samples → (∀ s, s ∈ seeds → s ∈ all_samples) →
  components_inv acc →
  fold_left (group_step sample_data all_samples) seeds (Some acc) = Some acc' →
  components_inv acc'.
Proof.
  intros Hu. revert acc. induction seeds as [|s seeds IH];
    intros acc Hinv Hsub Hseeds Hcomp Hrun.
  { by injection Hrun as <-. }
  destruct (group_step_spec sample_data all_samples Hu acc s Hinv Hsub)
    as (acc1 & Hstep & Hinv1 & Hsub1 & _ & _).
  { apply Hseeds. by left. }
  cbn [fold_left] in Hrun. rewrite Hstep in Hrun.
  eapply (IH acc1); try done.
  - intros s' Hs'. apply Hseeds. by right.
  - eapply group_step_components; [exact Hinv| |exact Hcomp|exact Hstep].
    apply Hseeds. by left.
Qed.

End components.

Lemma components_inv_empty (sample_data : list (string * list string))
    (all_samples : gset string) :
  components_inv sample_data all_samples (∅, ∅).
Proof.
  unfold components_inv; simpl. split_and!.
  - intros x y Hx. by apply not_elem_of_empty in Hx.
  - intros k g x y. by rewrite lookup_empty.
  - intros k g x y. by rewrite lookup_empty.
  - intros k g. by rewrite lookup_empty.
Qed.

Lemma elem_of_output (relationships : gmap string (list string)) (g : list string) :
  g ∈ _output_sample_groups relationships ↔ ∃ k, relationships !! k = Some g.
Proof.
  unfold _output_sample_groups. rewrite list_elem_of_fmap. split.
  - intros (k & -> & Hk). apply elem_of_sorted_elements, elem_of_dom in Hk as [g Hg].
    exists k. by rewrite Hg.
  - intros (k & Hk). exists k. rewrite Hk. split; [done|].
    apply elem_of_sorted_elements, elem_of_dom. by eexists.
Qed.

(** What a non-cohort run returns, with all that the loops keep. *)
Lemma resolver_run (order : gset string → list string) (header : list string)
    (rows : list (list string)) (sample_data : list (string * list string))
    (all_samples : gset string) :
  (∀ X, order X ≡ₚ elements X) →
  _parse_sample_file (header :: rows) = Some (sample_data, all_samples) →
  ∃ relationships,
    find_sample_relationships order (header :: rows) false
      = Some (_output_sample_groups relationships)
    ∧ groups_inv (relationships, all_samples)
    ∧ components_inv sample_data all_samples (relationships, all_samples).
Proof.
  intros Horder Hparse. unfold find_sample_relationships. rewrite Hparse. simpl.
  simpl in Hparse. injection Hparse as Hparse.
  pose proof (parsed_universe rows) as Huniv.
  pose proof (parse_rows_inv rows) as [Hnd Hkeys].
  rewrite Hparse in Huniv, Hnd, Hkeys. simpl in Huniv, Hnd, Hkeys.
  destruct (group_loop_spec sample_data all_samples Huniv (order all_samples) (∅, ∅))
    as ([rel P] & Hrun & Hinv & Hsub & _ & Hall); simpl in *.
  { apply groups_inv_empty. }
  { set_solver. }
  { intros s. rewrite Horder. apply elem_of_elements. }
  assert (P = all_samples) as ->.
  { apply set_eq. intros x. split; [set_solver|].
    intros Hx. apply Hall. rewrite Horder. by apply elem_of_elements. }
  exists rel. rewrite Hrun. simpl. split_and!; [done..|].
  eapply (group_loop_components sample_data all_samples Hnd Hkeys (order all_samples)
            (∅, ∅)); [done| | | | |exact Hrun].
  - apply groups_inv_empty.
  - set_solver.
  - intros s. rewrite Horder. apply elem_of_elements.
  - apply components_inv_empty.
Qed.

(** X1. Two samples of the table one of which lists the other among its
    metadata values are written in the same group. *)
Theorem linked_samples_share_a_group (order : gset string → list string)
    (header : list string) (rows : list (list string))
    (sample_data : list (string * list string)) (all_samples : gset string)
    (a b : string) :
  (∀ X, order X ≡ₚ elements X) →
  _parse_sample_file (header :: rows) = Some (sample_data, all_samples) →
  linked sample_data all_samples a b →
  ∃ groups g,
    find_sample_relationships order (header :: rows) false = Some groups
    ∧ g ∈ groups ∧ a ∈ g ∧ b ∈ g.
Proof.
  intros Horder Hparse Hlink.
  destruct (resolver_run order header rows sample_data all_samples Horder Hparse)
    as (rel & Hrun & (Hkey & Hin & Hcov & Hdisj) & (_ & Hclosed & _ & _)); simpl in *.
  destruct Hlink as (Ha & Hb & Hab).
  destruct (Hcov a Ha) as (k & g & Hk & Hag).
  exists (_output_sample_groups rel), g. split_and!; [done| |done|].
  - apply elem_of_output. by exists k.
  - eapply Hclosed; [done..|]. by split_and!.
Qed.

Lemma linked_samples_share_a_group_witness :
  ∃ groups g,
    find_sample_relationships elements
      [["sample"; "mother"]; ["A"; "B"]; ["B"; ""]; ["C"; "x"]] false = Some groups
    ∧ g ∈ groups ∧ "A" ∈ g ∧ "B" ∈ g.
Proof.
  apply (linked_samples_share_a_group elements ["sample"; "mother"]
           [["A"; "B"]; ["B"; ""]; ["C"; "x"]]
           [("A", ["B"]); ("B", []); ("C", ["x"])]
           (list_to_set ["A"; "B"; "C"])).
  - intros X. reflexivity.
  - vm_compute. reflexivity.
  - split_and!; [set_solver..|]. left. exists ["B"]. split; [reflexivity|set_solver].
Defined.

(** X2. Two samples written in the same group are joined by a chain of
    samples of the table in which each lists, or is listed by, the next:
    the resolver never merges samples that are not connected. *)
Theorem grouped_samples_are_connected (order : gset string → list string)
    (header : list string) (rows : list (list string))
    (sample_data : list (string * list string)) (all_samples : gset string)
    (groups : list (list string)) (g : list string) (a b : string) :
  (∀ X, order X ≡ₚ elements X) →
  _parse_sample_file (header :: rows) = Some (sample_data, all_samples) →
  find_sample_relationships order (header :: rows) false = Some groups →
  g ∈ groups → a ∈ g → b ∈ g →
  rtsc (linked sample_data all_samples) a b.
Proof.
  intros Horder Hparse Hgroups Hg Ha Hb.
  destruct (resolver_run order header rows sample_data all_samples Horder Hparse)
    as (rel & Hrun & _ & (_ & _ & Hconn & _)); simpl in *.
  rewrite Hrun in Hgroups. injection Hgroups as <-.
  apply elem_of_output in Hg as [k Hk]. by eapply Hconn.
Qed.

Lemma grouped_samples_are_connected_witness :
  rtsc (linked [("A", ["B"]); ("B", []); ("C", ["B"])] (list_to_set ["A"; "B"; "C"]))
    "A" "C".
Proof.
  apply (grouped_samples_are_connected elements ["sample"; "mother"]
           [["A"; "B"]; ["B"; ""]; ["C"; "B"]]
           [("A", ["B"]); ("B", []); ("C", ["B"])]
           (list_to_set ["A"; "B"; "C"])
           [["A"; "B"; "C"]] ["A"; "B"; "C"]).
  - intros X. reflexivity.
  - vm_compute. reflexivity.
  - vm_compute. reflexivity.
  - set_solver.
  - set_solver.
  - set_solver.
Defined.

(** X3. A sample that lists no other sample of the table and is listed by
    none is written as a group of its own, also when it lists itself. *)
Theorem unlinked_sample_is_a_group_alone (order : gset string → list string)
    (header : list string) (rows : list (list string))
    (sample_data : list (string * list string)) (all_samples : gset string)
    (a : string) :
  (∀ X, order X ≡ₚ elements X) →
  _parse_sample_file (header :: rows) = Some (sample_data, all_samples) →
  a ∈ all_samples →
  (∀ b, linked sample_data all_samples a b → b = a) →
  ∃ groups,
    find_sample_relationships order (header :: rows) false = Some groups
    ∧ [a] ∈ groups.
Proof.
  intros Horder Hparse Ha Halone.
  destruct (resolver_run order header rows sample_data all_samples Horder Hparse)
    as (rel & Hrun & (Hkey & Hin & Hcov & Hdisj) & (_ & _ & Hconn & _)); simpl in *.
  exists (_output_sample_groups rel). split; [done|].
  destruct (Hcov a Ha) as (k & g & Hk & Hag).
  apply elem_of_output. exists k. rewrite Hk. f_equal.
  assert (∀ y, rtsc (linked sample_data all_samples) a y → y = a) as Hchain.
  { intros y Hy. unfold rtsc in Hy.
    apply (rtc_ind_r (R := sc (linked sample_data all_samples)) (λ y, y = a) a);
      [done| |exact Hy].
    intros x z _ Hstep ->.
    destruct Hstep as [Hxz|Hzx]; [by apply Halone|].
    apply linked_sym in Hzx. by apply Halone. }
  destruct (Hkey k g Hk) as [_ Hnd].
  assert (∀ y, y ∈ g → y = a) as Hall.
  { intros y Hy. apply Hchain. by eapply Hconn. }
  destruct g as [|x [|y g]].
  - by apply elem_of_nil in Hag.
  - f_equal. apply Hall. by left.
  - exfalso. apply NoDup_cons in Hnd as [Hx _]. apply Hx.
    rewrite (Hall x) by (by left). rewrite (Hall y) by (right; by left). by left.
Qed.

Lemma unlinked_sample_is_a_group_alone_witness :
  ∃ groups,
    find_sample_relationships elements
      [["sample"; "mother"]; ["A"; "B"]; ["B"; ""]; ["C"; "C"]] false = Some groups
    ∧ ["C"] ∈ groups.
Proof.
  apply (unlinked_sample_is_a_group_alone elements ["sample"; "mother"]
           [["A"; "B"]; ["B"; ""]; ["C"; "C"]]
           [("A", ["B"]); ("B", []); ("C", ["C"])]
           (list_to_set ["A"; "B"; "C"])).
  - intros X. reflexivity.
  - vm_compute. reflexivity.
  - set_solver.
  - intros b (_ & Hb & [(meta & Hmeta & Hin)|(meta & Hmeta & Hin)]).
    + injection Hmeta as <-. set_solver.
    + simpl in Hmeta. repeat case_decide; simplify_eq; set_solver.
Defined.

(** X4. The members of every written group are in lexicographic order, in
    cohort mode too; in non-cohort mode the groups are written in the
    strict lexicographic order of their first, smallest, members. *)
Theorem groups_are_written_in_order (order : gset string → list string)
    (table : list (list string)) (cohort : bool) (groups : list (list string)) :
  (∀ X, order X ≡ₚ elements X) →
  find_sample_relationships order table cohort = Some groups →
  (∀ g, g ∈ groups → StronglySorted PyStr.le g)
  ∧ (cohort = false →
       ∃ firsts, head <$> groups = Some <$> firsts
                 ∧ StronglySorted PyStr.le firsts ∧ NoDup firsts).
Proof.
  intros Horder Hrun. destruct table as [|header rows]; [done|].
  destruct (_parse_sample_file (header :: rows)) as [[sample_data all_samples]|] eqn:Hparse;
    [|done].
  destruct cohort.
  - unfold find_sample_relationships in Hrun. rewrite Hparse in Hrun. simpl in Hrun.
    injection Hrun as <-. split; [|done].
    intros g. case_decide.
    + rewrite output_empty. intros Hg. by apply elem_of_nil in Hg.
    + rewrite output_singleton. intros ->%list_elem_of_singleton.
      apply sorted_StronglySorted.
  - destruct (resolver_run order header rows sample_data all_samples Horder Hparse)
      as (rel & Hrun' & _ & (_ & _ & _ & Hsorted)); simpl in *.
    rewrite Hrun' in Hrun. injection Hrun as <-. split.
    + intros g [k Hk]%elem_of_output. by apply Hsorted in Hk as [_ ?].
    + intros _. exists (PyStr.sorted (elements (dom rel))). split_and!.
      * unfold _output_sample_groups. rewrite <- list_fmap_compose.
        apply Forall_fmap_ext_1, Forall_forall. intros k Hk. simpl.
        apply elem_of_sorted_elements, elem_of_dom in Hk as [g Hg].
        rewrite Hg. simpl. by apply Hsorted in Hg as [? _].
      * apply sorted_StronglySorted.
      * apply sorted_elements_NoDup.
Qed.

Lemma groups_are_written_in_order_witness :
  (∀ g, g ∈ [["A"; "B"; "Z"]; ["C"]] → StronglySorted PyStr.le g)
  ∧ (false = false →
       ∃ firsts, head <$> [["A"; "B"; "Z"]; ["C"]] = Some <$> firsts
                 ∧ StronglySorted PyStr.le firsts ∧ NoDup firsts).
Proof.
  apply (groups_are_written_in_order elements
           [["sample"; "mother"]; ["Z"; "B"]; ["C"; ""]; ["B"; "A"]; ["A"]] false).
  - intros X. reflexivity.
  - vm_compute. reflexivity.
Defined.

(** ** What the parser keeps *)

Lemma lstrip_starts_clean (s : string) : starts_clean (PyStr.lstrip s).
Proof.
  induction s as [|c r IH]; simpl; [done|].
  destruct (PyStr.is_space c) eqn:Hc; [done|]. simpl. done.
Qed.

Lemma lstrip_clean (s : string) : starts_clean s → PyStr.lstrip s = s.
Proof. destruct s as [|c r]; simpl; [done|]. by intros ->. Qed.

Lemma rstrip_starts_clean (s : string) : starts_clean s → starts_clean (PyStr.rstrip s).
Proof.
  destruct s as [|c r]; simpl; [done|]. intros Hc.
  destruct (PyStr.rstrip r); [by rewrite Hc|done].
Qed.

Lemma rstrip_rstrip (s : string) : PyStr.rstrip (PyStr.rstrip s) = PyStr.rstrip s.
Proof.
  induction s as [|c r IH]; simpl; [done|].
  destruct (PyStr.rstrip r) as [|c' r'] eqn:Hr.
  - destruct (PyStr.is_space c) eqn:Hc; simpl; [done|]. by rewrite Hc.
  - cbn [PyStr.rstrip]. cbn [PyStr.rstrip] in IH. by rewrite IH.
Qed.

(** Stripping twice is stripping once. *)
Lemma strip_trimmed (s : string) : trimmed (PyStr.strip s).
Proof.
  unfold trimmed, PyStr.strip.
  rewrite (lstrip_clean (PyStr.rstrip (PyStr.lstrip s))).
  - apply rstrip_rstrip.
  - apply rstrip_starts_clean, lstrip_starts_clean.
Qed.





(** ** The merged view in closed form *)

Lemma sample_files_eq (e1 e2 : sample_files) :
  (∀ ft, get_files ft e1 = get_files ft e2) → e1 = e2.
Proof.
  intros Hget. destruct e1, e2.
  pose proof (Hget Multiverse). pose proof (Hget Cnv).
  pose proof (Hget Bnd). pose proof (Hget Region). simpl in *. congruence.
Qed.

Lemma merge_sample_dom (merged_data : gmap string sample_files)
    (item : string * list (string * list string)) :
  dom (merge_sample merged_data item) = {[item.1]} ∪ dom merged_data.
Proof. unfold merge_sample. by rewrite dom_insert_L. Qed.

Lemma merge_doc_dom (doc : manifest_doc) (merged_data : gmap string sample_files) :
  dom (merge_doc merged_data doc) = list_to_set doc.*1 ∪ dom merged_data.
Proof.
  unfold merge_doc. revert merged_data.
  induction doc as [|item doc IH]; intros merged_data; simpl; [set_solver|].
  rewrite IH, merge_sample_dom. set_solver.
Qed.

Lemma merge_docs_dom (docs : list manifest_doc) (merged_data : gmap string sample_files) :
  dom (fold_left merge_doc docs merged_data)
  = list_to_set (doc_samples docs) ∪ dom merged_data.
Proof.
  unfold doc_samples. revert merged_data.
  induction docs as [|doc docs IH]; intros merged_data; simpl; [set_solver|].
  rewrite IH, merge_doc_dom, fmap_app, list_to_set_app_L. set_solver.
Qed.

(** The entry of the merged view under a name. *)
Lemma merged_lookup (docs : list manifest_doc) (sample_name : string) :
  _merge_vspipeline_json_files docs !! sample_name
  = if decide (sample_name ∈ doc_samples docs)
    then Some (merged_entry docs sample_name)
    else None.
Proof.
  case_decide as Hin.
  - assert (sample_name ∈ dom (_merge_vspipeline_json_files docs)) as Hdom.
    { unfold _merge_vspipeline_json_files. rewrite merge_docs_dom. set_solver. }
    apply elem_of_dom in Hdom as [e He]. rewrite He. f_equal.
    apply sample_files_eq. intros ft.
    pose proof (merged_list_fold docs sample_name ft) as Hl.
    unfold merged_list in Hl. rewrite He in Hl. simpl in Hl.
    rewrite Hl, add_path_fold_nil. by destruct ft.
  - apply not_elem_of_dom. unfold _merge_vspipeline_json_files.
    rewrite merge_docs_dom. set_solver.
Qed.

(** X6. The merged view has an entry exactly for the samples that occur in
    some document, also for a sample that occurs with no known file type;
    the entry's four lists are the first occurrences of the paths the
    documents file under the sample and the type. *)
Theorem merged_view_in_closed_form (docs : list manifest_doc) (sample_name : string) :
  _merge_vspipeline_json_files docs !! sample_name
  = if decide (sample_name ∈ doc_samples docs)
    then Some (merged_entry docs sample_name)
    else None.
Proof. apply merged_lookup. Qed.

Lemma add_path_fold_present (l acc : list string) :
  (∀ p, p ∈ l → p ∈ acc) → fold_left add_path l acc = acc.
Proof.
  revert acc. induction l as [|p l IH]; intros acc Hall; [done|]. simpl.
  rewrite add_path_present by (apply Hall; by left).
  apply IH. intros q Hq. apply Hall. by right.
Qed.

Lemma first_seen_app_present (l1 l2 : list string) :
  (∀ p, p ∈ l2 → p ∈ l1) → first_seen (l1 ++ l2) = first_seen l1.
Proof.
  intros Hall. rewrite <- !add_path_fold_nil, add_path_fold_app.
  apply add_path_fold_present. intros p Hp.
  rewrite add_path_fold_nil. apply elem_of_first_seen. by apply Hall.
Qed.

Lemma elem_of_all_paths (sample_name : string) (ft : file_type) (docs : list manifest_doc)
    (p : string) :
  p ∈ all_paths sample_name ft docs
  ↔ ∃ doc, doc ∈ docs ∧ p ∈ doc_paths sample_name ft doc.
Proof. unfold all_paths. rewrite list_elem_of_bind. naive_solver. Qed.

(** X7. Supplying again documents that were already supplied changes
    nothing: the merged view of the documents followed by any of them,
    in any number and order, is the merged view of the documents. *)
Theorem merging_again_changes_nothing (docs again : list manifest_doc) :
  (∀ doc, doc ∈ again → doc ∈ docs) →
  _merge_vspipeline_json_files (docs ++ again) = _merge_vspipeline_json_files docs.
Proof.
  intros Hagain. apply map_eq. intros sample_name.
  rewrite !merged_lookup.
  assert (sample_name ∈ doc_samples (docs ++ again) ↔ sample_name ∈ doc_samples docs)
    as Hsame.
  { unfold doc_samples. rewrite !list_elem_of_fmap.
    split; intros ([k v] & -> & Hin); exists (k, v); (split; [done|]).
    - apply list_elem_of_join in Hin as (doc & Hkv & Hdoc). apply list_elem_of_join.
      exists doc. split; [done|].
      apply elem_of_app in Hdoc as [?|?]; [done|by apply Hagain].
    - apply list_elem_of_join in Hin as (doc & Hkv & Hdoc). apply list_elem_of_join.
      exists doc. split; [done|]. apply elem_of_app. by left. }
  destruct (decide (sample_name ∈ doc_samples docs)) as [Hin|Hnin].
  - rewrite decide_True by by apply Hsame. f_equal. unfold merged_entry.
    assert (∀ ft, first_seen (all_paths sample_name ft (docs ++ again))
                  = first_seen (all_paths sample_name ft docs)) as Hft.
    { intros ft. unfold all_paths. rewrite bind_app. apply first_seen_app_present.
      intros p (doc & Hdoc & Hp)%elem_of_all_paths.
      apply elem_of_all_paths. exists doc. split; [by apply Hagain|done]. }
    by rewrite !Hft.
  - rewrite decide_False; [done|]. by rewrite Hsame.
Qed.

Lemma merging_again_changes_nothing_witness :
  _merge_vspipeline_json_files
    ([[("S1", [("cnv", ["/a"; "/b"])])]; [("S2", [("bnd", ["/c"])])]]
     ++ [[("S2", [("bnd", ["/c"])])]; [("S1", [("cnv", ["/a"; "/b"])])];
         [("S2", [("bnd", ["/c"])])]])
  = _merge_vspipeline_json_files
      [[("S1", [("cnv", ["/a"; "/b"])])]; [("S2", [("bnd", ["/c"])])]].
Proof.
  apply merging_again_changes_nothing.
  intros doc Hdoc. set_solver.
Defined.

(** ** The manifest store: what an append does and does not touch *)

Lemma dict_set_set {V : Type} (k : string) (v v' : V) (d : list (string * V)) :
  dict_set k v (dict_set k v' d) = dict_set k v d.
Proof.
  induction d as [|[k0 v0] d IH]; simpl.
  - by rewrite decide_True.
  - case_decide; simpl; [by rewrite decide_True|]. rewrite decide_False by done.
    by rewrite IH.
Qed.


Lemma empty_entry_lists (file_type : string) (l : list string) :
  dict_get file_type empty_entry = Some l → l = [].
Proof.
  unfold empty_entry, file_types. simpl. repeat case_decide; congruence.
Qed.

(** An append succeeds exactly on a valid file type under which the
    document it starts from lets a list be found, and then leaves one and
    the same document in both directories. *)
Lemma update_result (st st' : store) (sample_name file_path file_type task_name : string) :
  update_vspipeline_json st sample_name file_path file_type task_name = Some st'
  ↔ file_type ∈ valid_file_types
    ∧ ∃ l,
        doc_list (staged_doc st (json_filename sample_name task_name))
          sample_name file_type = Some l
        ∧ st' = Store
                  (<[json_filename sample_name task_name :=
                       appended_doc (staged_doc st (json_filename sample_name task_name))
                         sample_name file_type file_path l]> (output_dir st))
                  (<[json_filename sample_name task_name :=
                       appended_doc (staged_doc st (json_filename sample_name task_name))
                         sample_name file_type file_path l]> (scratch_dir st)).
Proof.
  unfold update_vspipeline_json.
  set (name := json_filename sample_name task_name).
  case_decide as Hft; [|naive_solver]. cbv zeta.
  set (scratch1 := match output_dir st !! name with
                   | Some doc => <[name:=doc]> (scratch_dir st)
                   | None => scratch_dir st end).
  assert (default [] (scratch1 !! name) = staged_doc st name) as ->.
  { unfold scratch1, staged_doc. destruct (output_dir st !! name); [|done].
    by rewrite lookup_insert_eq. }
  assert (∀ d, <[name := d]> scratch1 = <[name := d]> (scratch_dir st)) as Hscratch.
  { intros d. unfold scratch1. destruct (output_dir st !! name); [|done].
    by rewrite insert_insert_eq. }
  set (doc := staged_doc st name). unfold doc_list, appended_doc.
  destruct (dict_get sample_name doc) as [entry|] eqn:Hentry;
    cbn [mbind option_bind default].
  - rewrite Hentry. simpl.
    destruct (dict_get file_type entry) as [l|]; simpl;
      [|split; [done|]; intros (_ & l' & Hl' & _); discriminate Hl'].
    rewrite Hscratch. split.
    + intros [= <-]. split; [done|]. by exists l.
    + intros (_ & l' & [= <-] & ->). done.
  - rewrite dict_get_set_eq. cbn [mbind option_bind default].
    destruct (dict_get file_type empty_entry) as [l|]; cbn [mbind option_bind];
      [|split; [done|]; intros (_ & l' & Hl' & _); discriminate Hl'].
    rewrite Hscratch, !dict_set_set. split.
    + intros [= <-]. split; [done|]. by exists l.
    + intros (_ & l' & [= <-] & ->). done.
Qed.


Lemma add_path_prefix (l : list string) (p : string) : l `prefix_of` add_path l p.
Proof. unfold add_path. case_decide; [done|]. by apply prefix_app_r. Qed.

Lemma appended_doc_list (doc : manifest_doc) (sample_name file_type file_path : string)
    (l : list string) (sample_name' file_type' : string) :
  doc_list doc sample_name file_type = Some l →
  doc_list (appended_doc doc sample_name file_type file_path l) sample_name' file_type'
  = if decide (sample_name' = sample_name ∧ file_type' = file_type)
    then Some (add_path l file_path)
    else doc_list doc sample_name' file_type'.
Proof.
  intros Hl. unfold doc_list, appended_doc.
  destruct (decide (sample_name' = sample_name)) as [->|Hs].
  - rewrite dict_get_set_eq.
    destruct (decide (file_type' = file_type)) as [->|Hf].
    + rewrite decide_True by done. by rewrite dict_get_set_eq.
    + rewrite decide_False by tauto. rewrite dict_get_set_ne by done.
      by destruct (dict_get sample_name doc).
  - rewrite decide_False by tauto. by rewrite dict_get_set_ne.
Qed.

(** X9. A successful append removes and reorders nothing. Every other
    document of the output and scratch directories is as before; in the
    document appended to, the list of the sample and type is the former one
    with the path added at its end if it was not there, and the list of
    every other sample or type is unchanged; and the output and scratch
    directories end with the same document. *)
Theorem append_touches_one_list_only (st st' : store)
    (sample_name file_path file_type task_name : string) :
  update_vspipeline_json st sample_name file_path file_type task_name = Some st' →
  let name := json_filename sample_name task_name in
  (∀ other, other ≠ name →
     output_dir st' !! other = output_dir st !! other
     ∧ scratch_dir st' !! other = scratch_dir st !! other)
  ∧ ∃ doc' l,
      output_dir st' !! name = Some doc' ∧ scratch_dir st' !! name = Some doc'
      ∧ doc_list (staged_doc st name) sample_name file_type = Some l
      ∧ doc_list doc' sample_name file_type = Some (add_path l file_path)
      ∧ l `prefix_of` add_path l file_path
      ∧ (∀ sample_name' file_type',
           ¬ (sample_name' = sample_name ∧ file_type' = file_type) →
           doc_list doc' sample_name' file_type'
           = doc_list (staged_doc st name) sample_name' file_type').
Proof.
  intros (Hft & l & Hl & ->)%update_result name. fold name in Hl. simpl. split.
  - intros other Hother. by rewrite !lookup_insert_ne.
  - eexists _, l. rewrite !lookup_insert_eq. split_and!; try done.
    + rewrite appended_doc_list by done. by rewrite decide_True.
    + apply add_path_prefix.
    + intros s' f' Hne. rewrite appended_doc_list by done. by rewrite decide_False.
Qed.

Lemma append_touches_one_list_only_witness :
  let st := Store {[ "S1_hiphase_vspipeline_inputs.json" :=
                       [("S1", [("multiverse", ["/m"]); ("cnv", ["/a/x.vcf"]);
                                ("bnd", []); ("region", [])])] ]} ∅ in
  ∃ st',
    update_vspipeline_json st "S1" "/a/y.vcf" "cnv" "hiphase" = Some st'
    ∧ stored_list st' "S1" "cnv" "hiphase" = Some ["/a/x.vcf"; "/a/y.vcf"]
    ∧ ∃ doc',
        output_dir st' !! json_filename "S1" "hiphase" = Some doc'
        ∧ scratch_dir st' !! json_filename "S1" "hiphase" = Some doc'
        ∧ doc_list doc' "S1" "multiverse" = Some ["/m"].
Proof.
  intros st.
  destruct (update_vspipeline_json st "S1" "/a/y.vcf" "cnv" "hiphase") as [st'|] eqn:Hrun;
    [|by vm_compute in Hrun].
  exists st'. split; [done|]. split.
  - vm_compute in Hrun. injection Hrun as <-. by vm_compute.
  - destruct (append_touches_one_list_only st st' "S1" "/a/y.vcf" "cnv" "hiphase" Hrun)
      as (_ & doc' & l & Hout & Hscr & Hl & _ & _ & Hother).
    exists doc'. split_and!; [done..|].
    rewrite Hother; [by vm_compute|]. intros [_ ?]. done.
Defined.



(** ** From the store to the merger *)








(** ** The batch of a group *)

Lemma group_files_unknown (sample_group : list string)
    (sample_data : gmap string sample_files) (ft : file_type) :
  (∀ s, s ∈ sample_group → sample_data !! s = None) →
  group_files sample_group sample_data ft = [].
Proof.
  unfold group_files. induction sample_group as [|s g IH]; intros Hnone; [done|].
  rewrite bind_cons, (Hnone s) by (by left). simpl. apply IH.
  intros s' Hs'. apply Hnone. by right.
Qed.

(** X12. When the template cannot be loaded or resolved, and whenever the
    three flags are false, the batch of a group holds no cnv, bnd or region
    import whatever files the group has: it is the project creation, the
    source download, the multiverse import with its [task_wait] if the group
    has multiverse files, and the three closing commands. A group none of
    whose samples is in the manifest gets these five fixed commands only,
    whatever the flags. *)
Theorem batch_without_optional_imports (template_file : string)
    (sample_group : list string) (sample_data : gmap string sample_files)
    (flags : import_flags) (ids : table_names) (overwrite_project : bool) :
  let lines :=
    vsbatch_lines template_file sample_group sample_data flags ids overwrite_project in
  let multiverse_files := group_files sample_group sample_data Multiverse in
  import_algorithms (_parse_template_file None) = ImportFlags false false false
  ∧ (flags = ImportFlags false false false →
       ∃ create,
         lines = [create; "download_required_sources"]
                 ++ (if decide (multiverse_files ≠ [])
                     then ["import files=" +:+ quoted_files multiverse_files
                             +:+ " sample_fields_catalog=SampleCatalog"; "task_wait"]
                     else [])
                 ++ ["get_task_list"; "project_save"; "project_close"])
  ∧ ((∀ s, s ∈ sample_group → sample_data !! s = None) →
       ∃ create,
         lines = [create; "download_required_sources";
                  "get_task_list"; "project_save"; "project_close"]).
Proof.
  intros lines multiverse_files. split_and!; [done| |].
  - intros ->. eexists. unfold lines, vsbatch_lines. simpl.
    fold multiverse_files.
    repeat match goal with
           | |- context [decide (false = true ∧ ?Q)] =>
               rewrite (decide_False (P := false = true ∧ Q)) by (by intros [? _])
           end.
    done.
  - intros Hnone. eexists. unfold lines, vsbatch_lines.
    rewrite !group_files_unknown by done. cbv zeta.
    rewrite (decide_False (P := @nil string ≠ [])) by (by intros ?).
    repeat match goal with
           | |- context [decide (?Q ∧ @nil string ≠ [])] =>
               rewrite (decide_False (P := Q ∧ @nil string ≠ [])) by (by intros [_ ?])
           end.
    done.
Qed.

(** X13. The project a group of fewer than six samples is created under
    does not depend on the order of the samples in the group: two listings
    of the same samples give the same [project_create] line. *)
Theorem project_line_ignores_sample_order (template_file : string)
    (group1 group2 : list string) (sample_data1 sample_data2 : gmap string sample_files)
    (flags1 flags2 : import_flags) (ids1 ids2 : table_names) (overwrite_project : bool) :
  group1 ≡ₚ group2 → length group1 < 6 →
  head (vsbatch_lines template_file group1 sample_data1 flags1 ids1 overwrite_project)
  = head (vsbatch_lines template_file group2 sample_data2 flags2 ids2 overwrite_project).
Proof.
  intros Hperm Hlen. unfold vsbatch_lines. simpl.
  rewrite <- (Permutation_length Hperm). rewrite !decide_True by done.
  by rewrite (sorted_of_Permutation group1 group2).
Qed.

Lemma project_line_ignores_sample_order_witness :
  head (vsbatch_lines "t.vsproject-template" ["S2"; "S1"; "S3"] ∅
          (ImportFlags false false false) (TableNames None None None) true)
  = head (vsbatch_lines "t.vsproject-template" ["S3"; "S2"; "S1"]
            {[ "S1" := SampleFiles ["/m"] [] [] [] ]}
            (ImportFlags true true true) (TableNames None None None) true).
Proof.
  apply project_line_ignores_sample_order.
  - apply Permutation_sym. apply (Permutation_cons_append ["S2"; "S1"] "S3").
  - simpl. lia.
Defined.

(** ** The walks over a template document *)

Lemma json_ind_nested (P : json → Prop) :
  P JNull → (∀ b, P (JBool b)) → (∀ q, P (JNum q)) → (∀ s, P (JStr s)) →
  (∀ items, Forall P items → P (JArr items)) →
  (∀ fields, Forall (λ kv, P kv.2) fields → P (JObj fields)) →
  ∀ v, P v.
Proof.
  intros Hnull Hbool Hnum Hstr Harr Hobj.
  fix IH 1. intros [| b | q | s | items | fields];
    [exact Hnull | apply Hbool | apply Hnum | apply Hstr | |].
  - apply Harr. induction items as [|x l IHl]; constructor; [apply IH | exact IHl].
  - apply Hobj. induction fields as [|[k v] l IHl]; constructor; [apply IH | exact IHl].
Qed.

Lemma find_table_data_options_obj (fields : list (string * json)) :
  _find_table_data_options (JObj fields)
  = (if Py.is_str (default JNull (dict_get "className" fields)) "VSTableDataOptions"
     then [JObj fields] else [])
    ++ (fields ≫= λ kv, _find_table_data_options kv.2).
Proof.
  cbn [_find_table_data_options]. f_equal.
  induction fields as [|[k v] l IHl]; [done|]. rewrite bind_cons. simpl. by rewrite IHl.
Qed.

Lemma find_table_data_options_arr (items : list json) :
  _find_table_data_options (JArr items) = items ≫= _find_table_data_options.
Proof.
  cbn [_find_table_data_options].
  induction items as [|x l IHl]; [done|]. rewrite bind_cons. by rewrite IHl.
Qed.

(** X14. The table walk collects exactly the table records of the document:
    a value is among the table options found if and only if it is the
    document or lies inside it, at any depth of objects and lists, inside
    another table record too, and it is an object whose [className] is
    ['VSTableDataOptions']. *)
Theorem table_walk_finds_every_record (template_data t : json) :
  t ∈ _find_table_data_options template_data
  ↔ subvalue t template_data ∧ is_table_record t.
Proof.
  split.
  - revert template_data.
    apply (json_ind_nested
             (λ v, t ∈ _find_table_data_options v → subvalue t v ∧ is_table_record t));
      try (simpl; intros; by match goal with H : _ ∈ [] |- _ => apply elem_of_nil in H end).
    + intros items IH. rewrite find_table_data_options_arr.
      intros (v & Ht & Hv)%list_elem_of_bind.
      rewrite Forall_forall in IH. destruct (IH v Hv Ht) as [Hsub Hrec].
      split; [by eapply subvalue_item|done].
    + intros fields IH. rewrite find_table_data_options_obj.
      intros [Hhere|Hbelow]%elem_of_app.
      * destruct (Py.is_str _ _) eqn:Hclass; [|by apply elem_of_nil in Hhere].
        apply list_elem_of_singleton in Hhere as ->.
        split; [constructor|]. by exists fields.
      * apply list_elem_of_bind in Hbelow as ([k v] & Ht & Hv).
        rewrite Forall_forall in IH. destruct (IH (k, v) Hv Ht) as [Hsub Hrec].
        split; [by eapply subvalue_field|done].
  - intros [Hsub Hrec]. induction Hsub as [|items v Hv _ IH|fields k v Hv _ IH].
    + destruct Hrec as (fields & -> & Hclass).
      rewrite find_table_data_options_obj, Hclass. apply elem_of_app. left. by left.
    + rewrite find_table_data_options_arr. apply list_elem_of_bind. by exists v.
    + rewrite find_table_data_options_obj. apply elem_of_app. right.
      apply list_elem_of_bind. by exists (k, v).
Qed.

(** ** The choice among table names *)






(** X16. The three flags depend only on which algorithm names occur along
    the path: two documents that resolve without raising and carry the same
    names, in whatever order, number and spread over data trees, get the
    same flags. *)
Theorem flags_depend_on_the_set_of_names (template1 template2 : json)
    (r1 r2 : resolution) (names1 names2 : list string) :
  parse_template template1 = Some r1 →
  parse_template template2 = Some r2 →
  algorithm_names template1 = Some names1 →
  algorithm_names template2 = Some names2 →
  (∀ n, n ∈ names1 ↔ n ∈ names2) →
  import_algorithms r1 = import_algorithms r2.
Proof.
  intros Hr1 Hr2 Hn1 Hn2 Hsame.
  assert (∀ template r names,
            parse_template template = Some r → algorithm_names template = Some names →
            import_algorithms r
            = fold_left flag_algorithm names (ImportFlags false false false)) as Hflags.
  { intros template r names Hr Hn. unfold parse_template in Hr.
    destruct (resolve_tables template); simpl in Hr; [|done].
    destruct (detect_algorithms template) as [flags|] eqn:Hd; simpl in Hr; [|done].
    injection Hr as <-. simpl.
    apply detect_algorithms_names in Hd as (names' & Hn' & ->). congruence. }
  rewrite (Hflags _ _ _ Hr1 Hn1), (Hflags _ _ _ Hr2 Hn2).
  assert (∀ f, existsb f names1 = existsb f names2) as Hex.
  { intros f. apply eq_true_iff_eq. rewrite !existsb_elem_of. naive_solver. }
  destruct (flags_of_names names1 (ImportFlags false false false)) as (H1 & H2 & H3).
  destruct (flags_of_names names2 (ImportFlags false false false)) as (H1' & H2' & H3').
  rewrite !Hex in *.
  destruct (fold_left flag_algorithm names1 _), (fold_left flag_algorithm names2 _).
  simpl in *. congruence.
Qed.

Lemma flags_depend_on_the_set_of_names_witness :
  import_algorithms (Resolution (ImportFlags true false true) (PerCategory JNull JNull JNull))
  = import_algorithms (Resolution (ImportFlags true false true) (PerCategory JNull JNull JNull)).
Proof.
  apply (flags_depend_on_the_set_of_names
           (JObj [("project", JObj [("fields", JObj [("dal", JObj [("fields", JObj
              [("dataTrees", JArr
                 [JObj [("fields", JObj [("algorithms", JArr
                    [JObj [("fields", JObj [("algName", JStr "Import CNV")])];
                     JObj [("fields", JObj [("algName", JStr "Import Region")])]])])]])])])])])])
           (JObj [("project", JObj [("fields", JObj [("dal", JObj [("fields", JObj
              [("dataTrees", JArr
                 [JObj [("fields", JObj [("algorithms", JArr
                    [JObj [("fields", JObj [("algName", JStr "Import Region")])]])])];
                  JObj [("fields", JObj [("algorithms", JArr
                    [JObj [("fields", JObj [("algName", JStr "Import CNV")])];
                     JObj [("fields", JObj [("algName", JStr "Import Region")])]])])]])])])])])])
           _ _ ["Import CNV"; "Import Region"]
           ["Import Region"; "Import CNV"; "Import Region"]).
  - vm_compute. reflexivity.
  - vm_compute. reflexivity.
  - vm_compute. reflexivity.
  - vm_compute. reflexivity.
  - intros n. set_solver.
Defined.

(** ** The groups file read back *)

Lemma append_nil (b : string) : "" +:+ b = b.
Proof. reflexivity. Qed.

Lemma append_cons (x : ascii) (a b : string) : String x a +:+ b = String x (a +:+ b).
Proof. reflexivity. Qed.

Lemma append_assoc (a b c : string) : (a +:+ b) +:+ c = a +:+ (b +:+ c).
Proof. induction a as [|x a IH]; [done|]. by rewrite !append_cons, IH. Qed.

Lemma append_empty_r (a : string) : a +:+ "" = a.
Proof. induction a as [|x a IH]; [done|]. by rewrite append_cons, IH. Qed.

Lemma occurs_nil (c : ascii) : ¬ occurs c "".
Proof. unfold occurs. simpl. apply not_elem_of_nil. Qed.

Lemma occurs_cons (c x : ascii) (s : string) :
  occurs c (String x s) ↔ c = x ∨ occurs c s.
Proof. unfold occurs. simpl. apply elem_of_cons. Qed.

Lemma occurs_append (c : ascii) (a b : string) :
  occurs c (a +:+ b) ↔ occurs c a ∨ occurs c b.
Proof.
  induction a as [|x a IH].
  - rewrite append_nil. pose proof (occurs_nil c). tauto.
  - rewrite append_cons, !occurs_cons, IH. tauto.
Qed.

Lemma file_lines_from_line (line rest acc : string) :
  ¬ occurs LF line → ¬ occurs CR line →
  file_lines_from acc (line +:+ newline +:+ rest)
  = (acc +:+ line +:+ newline) :: file_lines_from "" rest.
Proof.
  revert acc. induction line as [|c line IH]; intros acc Hlf Hcr.
  - rewrite append_nil. unfold newline. rewrite append_cons, append_nil.
    cbn [file_lines_from]. by rewrite Ascii.eqb_refl.
  - rewrite occurs_cons in Hlf, Hcr. rewrite append_cons.
    cbn [file_lines_from].
    destruct (Ascii.eqb_spec c LF) as [->|_]; [tauto|].
    destruct (Ascii.eqb_spec c CR) as [->|_]; [tauto|].
    rewrite IH by tauto. by rewrite append_assoc, append_cons, append_nil.
Qed.

Lemma split_from_field (sep : ascii) (name rest acc : string) :
  ¬ occurs sep name →
  split_from sep acc (name +:+ rest) = split_from sep (acc +:+ name) rest.
Proof.
  revert acc. induction name as [|c name IH]; intros acc Hsep.
  - by rewrite append_nil, append_empty_r.
  - rewrite occurs_cons in Hsep. rewrite append_cons.
    cbn [split_from].
    destruct (Ascii.eqb_spec c sep) as [->|_]; [tauto|].
    rewrite IH by tauto. by rewrite append_assoc, append_cons, append_nil.
Qed.

Lemma join_cons (sep x y : string) (r : list string) :
  PyStr.join sep (x :: y :: r) = x +:+ sep +:+ PyStr.join sep (y :: r).
Proof. reflexivity. Qed.

Lemma split_join (group : list string) :
  group ≠ [] → Forall (λ name, ¬ occurs comma name) group →
  split comma (PyStr.join "," group) = group.
Proof.
  unfold split. induction group as [|x [|y r] IH]; [done| |]; intros _ Hall.
  - apply Forall_cons in Hall as [Hx _]. cbn [PyStr.join].
    rewrite <- (append_empty_r x) at 1. rewrite split_from_field by done.
    by rewrite append_nil.
  - apply Forall_cons in Hall as [Hx Hall].
    rewrite join_cons, split_from_field, append_nil, append_cons, append_nil by done.
    cbn [split_from]. change (Ascii.eqb "," comma) with true. cbv iota.
    f_equal. by apply IH.
Qed.

Lemma rstrip_append (a b : string) :
  PyStr.rstrip b ≠ "" → PyStr.rstrip (a +:+ b) = a +:+ PyStr.rstrip b.
Proof.
  intros Hb. induction a as [|c a IH]; [done|].
  rewrite !append_cons. cbn [PyStr.rstrip].
  rewrite IH. destruct (a +:+ PyStr.rstrip b) as [|c' r] eqn:Hr; [|done].
  destruct a; [by rewrite append_nil in Hr|by rewrite append_cons in Hr].
Qed.

Lemma rstrip_newline (s : string) : PyStr.rstrip (s +:+ newline) = PyStr.rstrip s.
Proof.
  induction s as [|c s IH]; [done|].
  rewrite append_cons. cbn [PyStr.rstrip]. by rewrite IH.
Qed.

Lemma trimmed_ends (s : string) : trimmed s ↔ starts_clean s ∧ PyStr.rstrip s = s.
Proof.
  unfold trimmed, PyStr.strip. split.
  - intros Hs. assert (starts_clean s) as Hc.
    { rewrite <- Hs. apply rstrip_starts_clean, lstrip_starts_clean. }
    split; [done|]. by rewrite (lstrip_clean s Hc) in Hs.
  - intros [Hc Hr]. by rewrite (lstrip_clean s Hc).
Qed.

Lemma join_line_safe (group : list string) :
  group ≠ [] → Forall line_safe group →
  PyStr.join "," group ≠ "" ∧ trimmed (PyStr.join "," group)
  ∧ ¬ occurs LF (PyStr.join "," group) ∧ ¬ occurs CR (PyStr.join "," group).
Proof.
  induction group as [|x [|y r] IH]; [done| |]; intros _ Hall.
  - apply Forall_cons in Hall as [(Hne & Htrim & _ & Hlf & Hcr) _]. done.
  - apply Forall_cons in Hall as [(Hne & Htrim & _ & Hlf & Hcr) Hall].
    destruct (IH ltac:(done) Hall) as (Hne' & Htrim' & Hlf' & Hcr').
    rewrite join_cons.
    set (rest := PyStr.join "," (y :: r)) in *.
    apply trimmed_ends in Htrim as [Hxc Hxr]. apply trimmed_ends in Htrim' as [Hrc Hrr].
    assert (PyStr.rstrip ("," +:+ rest) = "," +:+ rest) as Hrest.
    { rewrite append_cons, append_nil. cbn [PyStr.rstrip].
      rewrite Hrr. by destruct rest. }
    assert (∀ c, c ≠ comma → ¬ occurs c x → ¬ occurs c rest →
                 ¬ occurs c (x +:+ "," +:+ rest)) as Hocc.
    { intros c Hc Hx Hr. rewrite occurs_append, append_cons, append_nil, occurs_cons.
      tauto. }
    split_and!.
    + destruct x; [done|by rewrite append_cons].
    + apply trimmed_ends. split.
      * destruct x; [done|by rewrite append_cons].
      * rewrite rstrip_append; rewrite Hrest; [done|by rewrite append_cons].
    + by apply Hocc.
    + by apply Hocc.
Qed.

Lemma file_lines_groups_file (groups : list (list string)) :
  Forall (λ group, group ≠ [] ∧ Forall line_safe group) groups →
  file_lines (groups_file groups) = (λ group, PyStr.join "," group +:+ newline) <$> groups.
Proof.
  unfold file_lines. induction groups as [|group groups IH]; intros Hall; [done|].
  apply Forall_cons in Hall as [[Hne Hsafe] Hall].
  destruct (join_line_safe group Hne Hsafe) as (_ & _ & Hlf & Hcr).
  cbn [groups_file fold_right fmap list_fmap].
  rewrite file_lines_from_line by done. rewrite append_nil. f_equal. by apply IH.
Qed.

Lemma read_back_groups_file (groups : list (list string)) :
  Forall (λ group, group ≠ [] ∧ Forall line_safe group) groups →
  read_sample_groups (groups_file groups) = groups.
Proof.
  intros Hall. unfold read_sample_groups. rewrite file_lines_groups_file by done.
  induction groups as [|group groups IH]; [done|].
  apply Forall_cons in Hall as [[Hne Hsafe] Hall].
  destruct (join_line_safe group Hne Hsafe) as (Hjoin & Htrim & _ & _).
  cbn [fmap list_fmap].
  assert (PyStr.strip (PyStr.join "," group +:+ newline) = PyStr.join "," group) as ->.
  { apply trimmed_ends in Htrim as [Hc Hr]. unfold PyStr.strip.
    rewrite lstrip_clean.
    - by rewrite rstrip_newline.
    - destruct (PyStr.join "," group); [done|by rewrite append_cons]. }
  rewrite filter_cons_True by done. cbn [fmap list_fmap]. f_equal.
  - rewrite split_join; [|done|].
    + rewrite <- (list_fmap_id group) at 2. apply Forall_fmap_ext_1.
      eapply Forall_impl; [exact Hsafe|]. by intros name (_ & ? & _).
    + eapply Forall_impl; [exact Hsafe|]. by intros name (_ & _ & ? & _).
  - by apply IH.
Qed.



Lemma parsed_name_origin (rows : list (list string)) (x : string) :
  x ∈ (fold_left parse_row rows ([], ∅)).2 →
  x ≠ "" ∧ ∃ row, row ∈ rows ∧ row_name row = Some x.
Proof.
  revert x.
  apply (fold_left_invariant
           (λ acc : list (string * list string) * gset string,
              ∀ x, x ∈ acc.2 → x ≠ "" ∧ ∃ row, row ∈ rows ∧ row_name row = Some x)).
  - intros acc row Hrow Hacc x. destruct row as [|c0 rest]; simpl; [apply Hacc|].
    case_decide as Hempty; [apply Hacc|]. simpl.
    intros [Hx|Hx]%elem_of_union; [|by apply Hacc].
    apply elem_of_singleton in Hx as ->. split; [done|]. by exists (c0 :: rest).
  - simpl. intros x Hx. by apply not_elem_of_empty in Hx.
Qed.

(** X18. The resolver and the batch generator agree on the groups: if no
    sample name of the table (the stripped first column of a data row)
    contains a comma, a line feed or a carriage return, then in either mode
    the groups the batch generator reads from the file the resolver wrote
    are the groups the resolver found, in the same order. *)
Theorem resolver_groups_reach_the_generator (order : gset string → list string)
    (header : list string) (rows : list (list string)) (cohort : bool)
    (groups : list (list string)) :
  (∀ X, order X ≡ₚ elements X) →
  (∀ row name, row ∈ rows → row_name row = Some name →
     ¬ occurs comma name ∧ ¬ occurs LF name ∧ ¬ occurs CR name) →
  find_sample_relationships order (header :: rows) cohort = Some groups →
  read_sample_groups (groups_file groups) = groups.
Proof.
  intros Horder Hplain Hrun. apply read_back_groups_file.
  destruct (_parse_sample_file (header :: rows)) as [[sample_data all_samples]|] eqn:Hparse;
    [|done].
  assert (∀ x, x ∈ all_samples → line_safe x) as Hsafe.
  { intros x Hx. simpl in Hparse. injection Hparse as Hparse.
    replace all_samples with (fold_left parse_row rows ([], ∅)).2 in Hx
      by (by rewrite Hparse).
    apply parsed_name_origin in Hx as (Hne & row & Hrow & Hname).
    destruct (Hplain row x Hrow Hname) as (? & ? & ?).
    split_and!; try done.
    destruct row as [|c0 rest]; [done|]. unfold row_name in Hname. simpl in Hname.
    injection Hname as <-. apply strip_trimmed. }
  cut (∀ g, g ∈ groups → g ≠ [] ∧ ∀ x, x ∈ g → x ∈ all_samples).
  { intros Hgroups. apply Forall_forall. intros g Hg.
    destruct (Hgroups g Hg) as [Hne Hsub]. split; [done|].
    apply Forall_forall. intros x Hx. by apply Hsafe, Hsub. }
  destruct cohort.
  - unfold find_sample_relationships in Hrun. rewrite Hparse in Hrun. simpl in Hrun.
    injection Hrun as <-. intros g (k & Hk)%elem_of_output.
    case_decide as Hempty; [by rewrite lookup_empty in Hk|].
    apply lookup_singleton_Some in Hk as [_ <-]. split.
    + intros Hnil. apply Hempty. apply set_eq. intros x.
      rewrite <- elem_of_sorted_elements, Hnil. set_solver.
    + intros x. by rewrite elem_of_sorted_elements.
  - destruct (resolver_run order header rows sample_data all_samples Horder Hparse)
      as (relationships & Hrun' & (Hkey & Hsub & _) & _).
    rewrite Hrun' in Hrun. injection Hrun as <-.
    intros g (k & Hk)%elem_of_output. split.
    + intros ->. destruct (Hkey k [] Hk) as [Hin _]. by apply elem_of_nil in Hin.
    + intros x Hx. by apply (Hsub k g x).
Qed.

Lemma resolver_groups_reach_the_generator_witness :
  read_sample_groups
    (groups_file [["child"; "father"; "mother"]; ["solo 1"]])
  = [["child"; "father"; "mother"]; ["solo 1"]].
Proof.
  apply (resolver_groups_reach_the_generator
           (λ X, elements X) ["Sample"; "Father"; "Mother"]
           [[" child "; "father"; "mother"]; ["solo 1"]; ["mother"]; ["father"]] false).
  - done.
  - intros row name Hrow Hname.
    repeat (apply elem_of_cons in Hrow as [->|Hrow];
            [injection Hname as <-; split_and!; unfold occurs; vm_compute; intros Hc;
             repeat (apply elem_of_cons in Hc as [Hc|Hc]; [discriminate Hc|]);
             by apply elem_of_nil in Hc|]).
    by apply elem_of_nil in Hrow.
  - vm_compute. reflexivity.
Defined.

(** ** The retry loops *)

Lemma backoff_nonneg (retry_delay : Q) (attempt : nat) :
  (0 <= retry_delay)%Q → (0 <= backoff retry_delay attempt)%Q.
Proof.
  intros Hd. unfold backoff. apply Qmult_le_0_compat; [done|].
  change 0%Q with (inject_Z 0). rewrite <- Zle_Qle. apply Z.pow_nonneg. lia.
Qed.

Lemma sleep_or_raise_continue {A : Type} (max_retries : nat) (retry_delay : Q)
    (attempt : nat) (e : raised) (continue : outcome A * list Q) :
  (0 <= retry_delay)%Q → attempt + 1 < max_retries →
  sleep_or_raise max_retries retry_delay attempt e continue
  = (continue.1, backoff retry_delay attempt :: continue.2).
Proof.
  intros Hd Hlt. unfold sleep_or_raise. rewrite decide_True by lia.
  destruct (Qlt_le_dec _ _) as [Hneg|_]; [|done].
  pose proof (backoff_nonneg retry_delay attempt Hd). lra.
Qed.

Lemma sleep_or_raise_last {A : Type} (max_retries : nat) (retry_delay : Q)
    (attempt : nat) (e : raised) (continue : outcome A * list Q) :
  max_retries ≤ attempt + 1 →
  sleep_or_raise max_retries retry_delay attempt e continue = (Raised e, []).
Proof. intros Hge. unfold sleep_or_raise. by rewrite decide_False by lia. Qed.

(** The reader from attempt [i] on, when the attempts before [k] fail and
    attempt [k] answers. *)
Lemma read_attempts_answer (file : nat → read_attempt) (max_retries : nat)
    (retry_delay : Q) (k : nat) (data : json) (i m : nat) :
  (0 <= retry_delay)%Q → i ≤ k → k < i + m → i + m = max_retries →
  (∀ j, i ≤ j < k → answers (file j) = None) → answers (file k) = Some data →
  read_attempts file max_retries retry_delay (seq i m)
  = (Returned data, backoff retry_delay <$> seq i (k - i)).
Proof.
  intros Hd. revert i. induction m as [|m IH]; intros i Hik Hkm Hn Hfail Hk; [lia|].
  cbn [seq read_attempts].
  destruct (decide (i = k)) as [->|Hne].
  - rewrite Nat.sub_diag. destruct (file k); simpl in Hk; by simplify_eq.
  - assert (answers (file i) = None) as Hi by (apply Hfail; lia).
    replace (k - i) with (S (k - S i)) by lia. cbn [seq fmap list_fmap].
    rewrite (IH (S i)); [|lia|lia|lia|intros j Hj; apply Hfail; lia|done].
    destruct (file i); simpl in Hi; try done;
      by rewrite sleep_or_raise_continue by (done || lia).
Qed.

(** The reader from attempt [i] on, when every attempt left fails. *)
Lemma read_attempts_fail (file : nat → read_attempt) (max_retries : nat)
    (retry_delay : Q) (i m : nat) :
  (0 <= retry_delay)%Q → 0 < m → i + m = max_retries →
  (∀ j, i ≤ j < max_retries → answers (file j) = None) →
  ∃ e, read_attempts file max_retries retry_delay (seq i m)
       = (Raised e, backoff retry_delay <$> seq i (m - 1)).
Proof.
  intros Hd. revert i. induction m as [|m IH]; intros i Hm Hn Hfail; [lia|].
  cbn [seq read_attempts].
  assert (answers (file i) = None) as Hi by (apply Hfail; lia).
  destruct m as [|m].
  - destruct (file i); simpl in Hi; try done;
      rewrite sleep_or_raise_last by lia; by eexists.
  - destruct (IH (S i)) as (e & He); [lia|lia|intros j Hj; apply Hfail; lia|].
    exists e. rewrite He. replace (S (S m) - 1) with (S (S m - 1)) by lia.
    destruct (file i); simpl in Hi; try done;
      by rewrite sleep_or_raise_continue by (done || lia).
Qed.

(** Either every attempt below [n] fails or one of them is the first to answer. *)
Lemma first_answer (file : nat → read_attempt) (n : nat) :
  (∀ j, j < n → answers (file j) = None)
  ∨ ∃ k data, k < n ∧ (∀ j, j < k → answers (file j) = None)
              ∧ answers (file k) = Some data.
Proof.
  induction n as [|n [Hfail|(k & data & Hk & Hfail & Hdata)]].
  - left. intros j Hj. lia.
  - destruct (answers (file n)) as [data|] eqn:Hdata.
    + right. exists n, data. split_and!; [lia|done|done].
    + left. intros j Hj. destruct (decide (j = n)) as [->|?]; [done|apply Hfail; lia].
  - right. exists k, data. split_and!; [lia|done|done].
Qed.

(** X19. The locked reader returns what the first attempt that does not
    fail gives: the empty dictionary if the file is missing or blank then,
    the parsed document otherwise; before it, it slept after each failed
    attempt [i] for [retry_delay * 2 ** min(i, 5)], and no longer. *)
Theorem reader_returns_first_answer (file : nat → read_attempt) (max_retries : nat)
    (retry_delay : Q) (k : nat) (data : json) :
  (0 <= retry_delay)%Q → k < max_retries →
  (∀ j, j < k → answers (file j) = None) → answers (file k) = Some data →
  _safe_read_json_file file max_retries retry_delay
  = (Returned data, backoff retry_delay <$> seq 0 k).
Proof.
  intros Hd Hk Hfail Hdata. unfold _safe_read_json_file.
  rewrite (read_attempts_answer file max_retries retry_delay k data 0 max_retries);
    [by rewrite Nat.sub_0_r|done|lia|lia|done| |done].
  intros j Hj. apply Hfail. lia.
Qed.

Lemma reader_returns_first_answer_witness :
  _safe_read_json_file
    (λ attempt, match attempt with
                | 0 => ReadLocked
                | 1 => ReadInvalid
                | _ => ReadParsed (JObj [("S1", JNull)])
                end) 30 (1 # 2)
  = (Returned (JObj [("S1", JNull)]), backoff (1 # 2) <$> seq 0 2).
Proof.
  apply reader_returns_first_answer.
  - discriminate.
  - lia.
  - intros [|[|j]] Hj; [reflexivity|reflexivity|lia].
  - reflexivity.
Defined.

(** X20. With a delay that is not negative, the locked reader raises if and
    only if it is allowed at least one attempt and every attempt fails; it
    has then slept after each attempt but the last. Allowed no attempt, it
    returns the empty dictionary without looking at the file. *)
Theorem reader_raises_iff_every_attempt_fails (file : nat → read_attempt)
    (max_retries : nat) (retry_delay : Q) :
  (0 <= retry_delay)%Q →
  ((∃ e, (_safe_read_json_file file max_retries retry_delay).1 = Raised e)
   ↔ 0 < max_retries ∧ ∀ j, j < max_retries → answers (file j) = None)
  ∧ ((∃ e, (_safe_read_json_file file max_retries retry_delay).1 = Raised e) →
     (_safe_read_json_file file max_retries retry_delay).2
     = backoff retry_delay <$> seq 0 (max_retries - 1))
  ∧ (max_retries = 0 →
     _safe_read_json_file file max_retries retry_delay = (Returned (JObj []), [])).
Proof.
  intros Hd.
  assert (0 < max_retries → (∀ j, j < max_retries → answers (file j) = None) →
          ∃ e, _safe_read_json_file file max_retries retry_delay
               = (Raised e, backoff retry_delay <$> seq 0 (max_retries - 1))) as Hall.
  { intros Hn Hfail.
    apply (read_attempts_fail file max_retries retry_delay 0 max_retries);
      [done|done|lia|]. intros j Hj. apply Hfail. lia. }
  assert ((∃ e, (_safe_read_json_file file max_retries retry_delay).1 = Raised e) →
          0 < max_retries ∧ ∀ j, j < max_retries → answers (file j) = None) as Hraise.
  { intros [e He].
    destruct (first_answer file max_retries) as [Hfail|(k & data & Hk & Hfail & Hdata)].
    - split; [|done]. destruct max_retries; [by vm_compute in He|lia].
    - exfalso. unfold _safe_read_json_file in He.
      rewrite (read_attempts_answer file max_retries retry_delay k data 0 max_retries)
        in He; [done|done|lia|lia|done| |done].
      intros j Hj. apply Hfail. lia. }
  split_and!.
  - split; [exact Hraise|]. intros [Hn Hfail].
    destruct (Hall Hn Hfail) as (e & ->). by exists e.
  - intros Hr. destruct (Hraise Hr) as [Hn Hfail].
    by destruct (Hall Hn Hfail) as (e & ->).
  - by intros ->.
Qed.

Lemma reader_raises_iff_every_attempt_fails_witness :
  ((∃ e, (_safe_read_json_file (λ _, ReadLocked) 3 (1 # 2)).1 = Raised e)
   ↔ 0 < 3 ∧ ∀ j, j < 3 → answers ((λ _ : nat, ReadLocked) j) = None)
  ∧ ((∃ e, (_safe_read_json_file (λ _, ReadLocked) 3 (1 # 2)).1 = Raised e) →
     (_safe_read_json_file (λ _, ReadLocked) 3 (1 # 2)).2
     = backoff (1 # 2) <$> seq 0 (3 - 1))
  ∧ (3 = 0 →
     _safe_read_json_file (λ _, ReadLocked) 3 (1 # 2) = (Returned (JObj []), [])).
Proof.
  apply (reader_raises_iff_every_attempt_fails (λ _, ReadLocked) 3 (1 # 2)).
  discriminate.
Defined.

Lemma waited_closed (k : nat) : 5 ≤ k → waited k = (32 * Z.of_nat k - 129)%Z.
Proof.
  induction k as [|k IH]; [lia|]. intros Hk.
  destruct (decide (k = 4)) as [->|Hne]; [reflexivity|].
  cbn [waited]. rewrite IH by lia. rewrite Nat.min_r by lia.
  change (2 ^ Z.of_nat 5)%Z with 32%Z. lia.
Qed.

Lemma waited_mono (k k' : nat) : k ≤ k' → (waited k <= waited k')%Z.
Proof.
  induction 1 as [|k' _ IH]; [lia|]. cbn [waited].
  pose proof (Z.pow_nonneg 2 (Z.of_nat (Nat.min k' 5))). lia.
Qed.

Lemma slept_backoff (retry_delay : Q) (k : nat) :
  (slept (backoff retry_delay <$> seq 0 k) == retry_delay * inject_Z (waited k))%Q.
Proof.
  induction k as [|k IH].
  - simpl. unfold slept. simpl. change (inject_Z 0) with 0%Q. lra.
  - rewrite seq_S, fmap_app. unfold slept in *. rewrite fold_right_app. simpl.
    assert (∀ l x, (fold_right Qplus x l == fold_right Qplus 0 l + x)%Q) as Hshift.
    { induction l as [|y l IHl]; intros x; simpl; [lra|]. rewrite IHl. lra. }
    rewrite Hshift, IH. unfold backoff. rewrite inject_Z_plus. lra.
Qed.

(** The delays the reader sleeps are the first of the backoff sequence, and
    never more than one fewer than the attempts it is allowed. *)
Lemma reader_sleeps (file : nat → read_attempt) (max_retries : nat) (retry_delay : Q) :
  (0 <= retry_delay)%Q →
  ∃ k, k ≤ max_retries - 1
       ∧ (_safe_read_json_file file max_retries retry_delay).2
         = backoff retry_delay <$> seq 0 k.
Proof.
  intros Hd.
  destruct (first_answer file max_retries) as [Hfail|(k & data & Hk & Hfail & Hdata)].
  - destruct max_retries as [|n]; [by exists 0|].
    destruct (read_attempts_fail file (S n) retry_delay 0 (S n)) as (e & He);
      [done|lia|lia|intros j Hj; apply Hfail; lia|].
    exists (S n - 1). split; [lia|]. unfold _safe_read_json_file. by rewrite He.
  - exists k. split; [lia|]. unfold _safe_read_json_file.
    rewrite (read_attempts_answer file max_retries retry_delay k data 0 max_retries);
      [by rewrite Nat.sub_0_r|done|lia|lia|done| |done].
    intros j Hj. apply Hfail. lia.
Qed.

(** X21. Whatever the attempts meet, the locked reader allowed six attempts
    or more sleeps for at most [retry_delay * (32 * max_retries - 161)] in
    all before it returns or raises: 399.5 seconds with the default thirty
    attempts and half a second. *)
Theorem reader_waits_at_most (file : nat → read_attempt) (max_retries : nat)
    (retry_delay : Q) :
  (0 <= retry_delay)%Q → 6 ≤ max_retries →
  (slept (_safe_read_json_file file max_retries retry_delay).2
   <= retry_delay * inject_Z (32 * Z.of_nat max_retries - 161))%Q.
Proof.
  intros Hd Hn. destruct (reader_sleeps file max_retries retry_delay Hd) as (k & Hk & ->).
  rewrite slept_backoff. rewrite !(Qmult_comm retry_delay).
  apply Qmult_le_compat_r; [|done]. rewrite <- Zle_Qle.
  pose proof (waited_mono k (max_retries - 1) Hk) as Hle.
  rewrite (waited_closed (max_retries - 1)) in Hle by lia. lia.
Qed.

Lemma reader_waits_at_most_witness :
  (slept (_safe_read_json_file (λ _, ReadLocked) 30 (1 # 2)).2
   <= (1 # 2) * inject_Z (32 * Z.of_nat 30 - 161))%Q.
Proof.
  apply reader_waits_at_most.
  - discriminate.
  - lia.
Defined.

(** The writer from attempt [i] on, when the attempts before [k] are
    retried and attempt [k] is not. *)
Lemma write_attempts_stop (file : nat → write_attempt) (max_retries : nat)
    (retry_delay : Q) (k i m : nat) :
  (0 <= retry_delay)%Q → i ≤ k → k < i + m → i + m = max_retries →
  (∀ j, i ≤ j < k → retried (file j) = true) → retried (file k) = false →
  write_attempts file max_retries retry_delay (seq i m)
  = (if writes (file k) then Returned true else Raised OtherError,
     backoff retry_delay <$> seq i (k - i)).
Proof.
  intros Hd. revert i. induction m as [|m IH]; intros i Hik Hkm Hn Hfail Hk; [lia|].
  cbn [seq write_attempts].
  destruct (decide (i = k)) as [->|Hne].
  - rewrite Nat.sub_diag. by destruct (file k).
  - assert (retried (file i) = true) as Hi by (apply Hfail; lia).
    replace (k - i) with (S (k - S i)) by lia. cbn [seq fmap list_fmap].
    rewrite (IH (S i)); [|lia|lia|lia|intros j Hj; apply Hfail; lia|done].
    destruct (file i); simpl in Hi; try done;
      by rewrite sleep_or_raise_continue by (done || lia).
Qed.

(** The writer from attempt [i] on, when every attempt left is retried. *)
Lemma write_attempts_fail (file : nat → write_attempt) (max_retries : nat)
    (retry_delay : Q) (i m : nat) :
  (0 <= retry_delay)%Q → 0 < m → i + m = max_retries →
  (∀ j, i ≤ j < max_retries → retried (file j) = true) →
  ∃ e, write_attempts file max_retries retry_delay (seq i m)
       = (Raised e, backoff retry_delay <$> seq i (m - 1)).
Proof.
  intros Hd. revert i. induction m as [|m IH]; intros i Hm Hn Hfail; [lia|].
  cbn [seq write_attempts].
  assert (retried (file i) = true) as Hi by (apply Hfail; lia).
  destruct m as [|m].
  - destruct (file i); simpl in Hi; try done;
      rewrite sleep_or_raise_last by lia; by eexists.
  - destruct (IH (S i)) as (e & He); [lia|lia|intros j Hj; apply Hfail; lia|].
    exists e. rewrite He. replace (S (S m) - 1) with (S (S m - 1)) by lia.
    destruct (file i); simpl in Hi; try done;
      by rewrite sleep_or_raise_continue by (done || lia).
Qed.

Lemma first_stop (file : nat → write_attempt) (n : nat) :
  (∀ j, j < n → retried (file j) = true)
  ∨ ∃ k, k < n ∧ (∀ j, j < k → retried (file j) = true) ∧ retried (file k) = false.
Proof.
  induction n as [|n [Hfail|(k & Hk & Hfail & Hstop)]].
  - left. intros j Hj. lia.
  - destruct (retried (file n)) eqn:Hn.
    + left. intros j Hj. destruct (decide (j = n)) as [->|?]; [done|apply Hfail; lia].
    + right. exists n. split_and!; [lia|done|done].
  - right. exists k. split_and!; [lia|done|done].
Qed.

(** X22. With a delay that is not negative, the locked writer returns after
    a write exactly when some attempt writes (to the existing file or to
    the one it creates) and every attempt before it is one the loop
    retries; an error in the handler that creates a missing file is not
    retried. It returns without having written, and without an error,
    exactly when it is allowed no attempt. *)
Theorem writer_returns_only_after_a_write (file : nat → write_attempt)
    (max_retries : nat) (retry_delay : Q) :
  (0 <= retry_delay)%Q →
  ((_safe_write_json_file file max_retries retry_delay).1 = Returned true
   ↔ ∃ k, k < max_retries ∧ writes (file k) = true
          ∧ ∀ j, j < k → retried (file j) = true)
  ∧ ((_safe_write_json_file file max_retries retry_delay).1 = Returned false
     ↔ max_retries = 0).
Proof.
  intros Hd.
  assert (∀ k, k < max_retries → (∀ j, j < k → retried (file j) = true) →
               retried (file k) = false →
               (_safe_write_json_file file max_retries retry_delay).1
               = if writes (file k) then Returned true else Raised OtherError) as Hstop.
  { intros k Hk Hfail Hkstop. unfold _safe_write_json_file.
    rewrite (write_attempts_stop file max_retries retry_delay k 0 max_retries);
      [done|done|lia|lia|done| |done].
    intros j Hj. apply Hfail. lia. }
  assert (0 < max_retries → (∀ j, j < max_retries → retried (file j) = true) →
          ∃ e, (_safe_write_json_file file max_retries retry_delay).1 = Raised e) as Hall.
  { intros Hn Hfail.
    destruct (write_attempts_fail file max_retries retry_delay 0 max_retries)
      as (e & He); [done|done|lia|intros j Hj; apply Hfail; lia|].
    exists e. unfold _safe_write_json_file. by rewrite He. }
  destruct (first_stop file max_retries) as [Hfail|(k & Hk & Hfail & Hkstop)].
  - destruct max_retries as [|n].
    + change (_safe_write_json_file file 0 retry_delay).1 with (@Returned bool false).
      split; [|done]. split; [discriminate|]. intros (k & Hk & _). lia.
    + destruct (Hall ltac:(lia) Hfail) as (e & He). rewrite He.
      split; [|split; [discriminate|lia]]. split; [discriminate|].
      intros (k & Hk & Hw & _). specialize (Hfail k Hk). by destruct (file k).
  - rewrite (Hstop k Hk Hfail Hkstop). split; split.
    + intros Hw. exists k. split_and!; [done| |done]. by destruct (writes (file k)).
    + intros (k' & Hk' & Hw' & Hfail').
      destruct (Nat.lt_trichotomy k k') as [Hlt|[->|Hgt]].
      * specialize (Hfail' k Hlt). congruence.
      * by rewrite Hw'.
      * specialize (Hfail k' Hgt). by destruct (file k').
    + by destruct (writes (file k)).
    + lia.
Qed.

Lemma writer_returns_only_after_a_write_witness :
  ((_safe_write_json_file (λ attempt, match attempt with 0 => WriteLocked | _ => CreateFailed end)
      30 (1 # 2)).1 = Returned true
   ↔ ∃ k, k < 30
          ∧ writes (match k with 0 => WriteLocked | _ => CreateFailed end) = true
          ∧ ∀ j, j < k →
              retried (match j with 0 => WriteLocked | _ => CreateFailed end) = true)
  ∧ ((_safe_write_json_file (λ attempt, match attempt with 0 => WriteLocked | _ => CreateFailed end)
        30 (1 # 2)).1 = Returned false
     ↔ 30 = 0).
Proof.
  apply (writer_returns_only_after_a_write
           (λ attempt, match attempt with 0 => WriteLocked | _ => CreateFailed end)
           30 (1 # 2)).
  discriminate.
Defined.

(** ** The CNV file *)











Section cnv_file_facts.
Variable float : string → option py_float.






End cnv_file_facts.


(** ** The axis lookup *)

Lemma key_eq_str (u : string) (k : json) : Py.key_eq (JStr u) k = true ↔ k = JStr u.
Proof.
  destruct k; simpl; try (split; [discriminate|done]).
  rewrite String.eqb_eq. split; [by intros ->|by intros [= ->]].
Qed.

Lemma key_eq_to_str (u : string) (k : json) : Py.key_eq k (JStr u) = true ↔ k = JStr u.
Proof.
  destruct k; simpl; try (split; [discriminate|done]).
  rewrite String.eqb_eq. split; [by intros ->|by intros [= ->]].
Qed.

Lemma lookup_set_keys (u : string) (k v : json) (d : list (json * json)) :
  is_Some (lookup_get (JStr u) (lookup_set k v d))
  ↔ is_Some (lookup_get (JStr u) d) ∨ k = JStr u.
Proof.
  induction d as [|[k' v'] d IH]; cbn [lookup_get lookup_set].
  - destruct (Py.key_eq (JStr u) k) eqn:Hk.
    + apply key_eq_str in Hk. split; [by right|by eexists].
    + split; [by intros [? ?]|]. intros [[? ?]| ->]; [done|].
      rewrite (proj2 (key_eq_str u (JStr u)) eq_refl) in Hk. done.
  - destruct (Py.key_eq k k') eqn:Hkk'; cbn [lookup_get].
    + destruct (Py.key_eq (JStr u) k') eqn:Hk'.
      * split; [left|]; by eexists.
      * split; [by left|]. intros [?| ->]; [done|].
        apply key_eq_str in Hkk'. subst k'.
        rewrite (proj2 (key_eq_str u (JStr u)) eq_refl) in Hk'. done.
    + destruct (Py.key_eq (JStr u) k') eqn:Hk'; [|exact IH].
      split; [left|]; by eexists.
Qed.

Lemma record_axis_keys (u : string) (lk lk' : list (json * json)) (axis : json) :
  record_axis lk axis = Some lk' →
  is_Some (lookup_get (JStr u) lk')
  ↔ is_Some (lookup_get (JStr u) lk) ∨ axis_declares axis u.
Proof.
  unfold record_axis, axis_declares.
  destruct (Py.get axis "className" JNull) as [class_name|]; simpl; [|done].
  destruct (Py.is_str class_name "AxisUuidOptions") eqn:Hclass.
  2: { intros [= <-]. split; [by left|]. intros [?|(c & f & [= <-] & ? & _)]; [done|].
       congruence. }
  destruct (Py.get axis "fields" (JObj [])) as [fields|]; simpl; [|done].
  destruct (Py.get fields "uuid" JNull) as [uuid|] eqn:Huuid; simpl; [|done].
  destruct (Py.truthy uuid) eqn:Htruthy.
  - destruct (Py.hashable uuid); [|done]. intros [= <-]. rewrite lookup_set_keys.
    split; (intros [?|Hu]; [by left|right]).
    + subst uuid. exists class_name, fields. split_and!; try done.
      intros ->. done.
    + destruct Hu as (c & f & _ & _ & [= <-] & Hu & _). congruence.
  - intros [= <-]. split; [by left|].
    intros [?|(c & f & _ & _ & [= <-] & Hu & Hne)]; [done|].
    rewrite Huuid in Hu. injection Hu as ->.
    simpl in Htruthy. destruct (String.eqb_spec u ""); done.
Qed.

(** A loop each pass of which makes [holds] true or leaves it as it is, by
    a test of the element. *)
Lemma for_each_grows {A St : Type} (holds : St → Prop) (body : St → A → option St)
    (adds : A → Prop) (l : list A) :
  Forall (λ x, ∀ s s', body s x = Some s' → holds s' ↔ holds s ∨ adds x) l →
  ∀ s s', for_each body l s = Some s' → holds s' ↔ holds s ∨ ∃ x, x ∈ l ∧ adds x.
Proof.
  induction l as [|x l IH]; intros Hall s s'.
  - intros [= <-]. split; [by left|]. intros [?|(x & Hx & _)]; [done|].
    by apply elem_of_nil in Hx.
  - apply Forall_cons in Hall as [Hx Hall]. rewrite for_each_cons.
    destruct (body s x) as [s1|] eqn:Hbody; simpl; [|done]. intros Hrest.
    rewrite (IH Hall s1 s' Hrest), (Hx s s1 Hbody). split.
    + intros [[?|?]|(y & Hy & ?)]; [by left|right; exists x|right; exists y];
        (split; [|done]); [by left|by right].
    + intros [?|(y & [->|Hy]%elem_of_cons & ?)]; [by left; left|by left; right|].
      right. by exists y.
Qed.

Lemma for_each_keys {A : Type} (u : string)
    (body : list (json * json) → A → option (list (json * json)))
    (adds : A → Prop) (l : list A) :
  Forall (λ x, ∀ lk lk', body lk x = Some lk' →
                 is_Some (lookup_get (JStr u) lk')
                 ↔ is_Some (lookup_get (JStr u) lk) ∨ adds x) l →
  ∀ lk lk', for_each body l lk = Some lk' →
    is_Some (lookup_get (JStr u) lk')
    ↔ is_Some (lookup_get (JStr u) lk) ∨ ∃ x, x ∈ l ∧ adds x.
Proof. apply (for_each_grows (λ lk, is_Some (lookup_get (JStr u) lk))). Qed.

Lemma find_axis_uuids_obj (fields : list (string * json)) (lk : list (json * json)) :
  _find_axis_uuids (JObj fields) lk
  = match dict_get "axisUuids" fields with
    | Some axes => axes_items ← Py.iter axes; for_each record_axis axes_items lk
    | None => Some lk
    end ≫= for_each (λ lk kv, _find_axis_uuids kv.2 lk) fields.
Proof.
  cbn [_find_axis_uuids].
  destruct (match dict_get "axisUuids" fields with
            | Some axes => axes_items ← Py.iter axes; for_each record_axis axes_items lk
            | None => Some lk
            end) as [lk1|]; simpl; [|done].
  clear lk. revert lk1. induction fields as [|[k v] fields IH]; intros lk; [done|].
  rewrite for_each_cons. simpl. destruct (_find_axis_uuids v lk); simpl; [apply IH|done].
Qed.

Lemma find_axis_uuids_arr (items : list json) (lk : list (json * json)) :
  _find_axis_uuids (JArr items) lk
  = for_each (λ lk item, _find_axis_uuids item lk) items lk.
Proof.
  cbn [_find_axis_uuids].
  revert lk. induction items as [|v items IH]; intros lk; [done|].
  rewrite for_each_cons. destruct (_find_axis_uuids v lk); simpl; [apply IH|done].
Qed.

Lemma find_axis_uuids_keys (u : string) (doc : json) :
  ∀ lk lk', _find_axis_uuids doc lk = Some lk' →
    is_Some (lookup_get (JStr u) lk')
    ↔ is_Some (lookup_get (JStr u) lk) ∨ declares_axis doc u.
Proof.
  assert (∀ v, match v with JArr _ | JObj _ => False | _ => True end →
               ¬ declares_axis v u) as Hleaf.
  { intros v Hv (obj & axes & items & axis & Hsub & _). inversion Hsub; by subst. }
  induction doc as [| b | q | s | items IH | fields IH] using json_ind_nested;
    intros lk lk'; try (intros [= <-]; split; [by left|]; intros [?|Hd]; [done|];
                        by apply Hleaf in Hd).
  - rewrite find_axis_uuids_arr. intros Hwalk.
    rewrite (for_each_keys u _ (λ v, declares_axis v u) items IH lk lk' Hwalk).
    split; (intros [?|Hd]; [by left|right]).
    + destruct Hd as (v & Hv & obj & axes & its & axis & Hsub & Hrest).
      exists obj, axes, its, axis. split; [by eapply subvalue_item|done].
    + destruct Hd as (obj & axes & its & axis & Hsub & Hrest).
      inversion Hsub as [|items' v Hv Hsub'|]; subst.
      exists v. split; [done|]. by exists obj, axes, its, axis.
  - rewrite find_axis_uuids_obj.
    destruct (match dict_get "axisUuids" fields with
              | Some axes => axes_items ← Py.iter axes; for_each record_axis axes_items lk
              | None => Some lk
              end) as [lk1|] eqn:Hhere; simpl; [|done].
    intros Hwalk.
    assert (Forall (λ kv : string * json,
                      ∀ lk lk', _find_axis_uuids kv.2 lk = Some lk' →
                        is_Some (lookup_get (JStr u) lk')
                        ↔ is_Some (lookup_get (JStr u) lk) ∨ declares_axis kv.2 u)
              fields) as IH' by exact IH.
    rewrite (for_each_keys u _ (λ kv, declares_axis kv.2 u) fields IH' lk1 lk' Hwalk).
    assert (is_Some (lookup_get (JStr u) lk1)
            ↔ is_Some (lookup_get (JStr u) lk)
              ∨ ∃ axes its axis, dict_get "axisUuids" fields = Some axes
                                 ∧ Py.iter axes = Some its ∧ axis ∈ its
                                 ∧ axis_declares axis u) as ->.
    { destruct (dict_get "axisUuids" fields) as [axes|] eqn:Haxes.
      - destruct (Py.iter axes) as [its|] eqn:Hits; simpl in Hhere; [|done].
        rewrite (for_each_keys u record_axis (λ axis, axis_declares axis u) its
                   ltac:(apply Forall_forall; intros axis _ l l';
                         apply record_axis_keys) lk lk1 Hhere).
        split; (intros [?|Hd]; [by left|right]).
        + destruct Hd as (axis & Hin & Hd). by exists axes, its, axis.
        + destruct Hd as (axes' & its' & axis & [= <-] & Hits' & Hin & Hd).
          rewrite Hits in Hits'. injection Hits' as <-. by exists axis.
      - injection Hhere as <-. split; [by left|].
        by intros [?|(axes & its & axis & ? & _)]. }
    split.
    + intros [[?|Hd]|Hd]; [by left|right|right].
      * destruct Hd as (axes & its & axis & Hrest).
        exists fields, axes, its, axis. split; [constructor|done].
      * destruct Hd as ([k v] & Hv & obj & axes & its & axis & Hsub & Hrest).
        exists obj, axes, its, axis. split; [by eapply subvalue_field|done].
    + intros [?|Hd]; [by left; left|].
      destruct Hd as (obj & axes & its & axis & Hsub & Hrest).
      inversion Hsub as [| |fields' k v Hv Hsub']; subst.
      * left. right. by exists axes, its, axis.
      * right. exists (k, v). split; [done|]. by exists obj, axes, its, axis.
Qed.

(** X25. The axis lookup the template resolver builds has an entry under a
    string exactly when some ['axisUuids'] entry of the document, at any
    depth, holds a record whose [className] is ['AxisUuidOptions'] and
    whose [fields] carry that string, not empty, as ['uuid'] (when the walk
    does not raise). *)
Theorem axis_lookup_holds_declared_axes (template_data : json)
    (axis_lookup : list (json * json)) (uuid : string) :
  _find_axis_uuids template_data [] = Some axis_lookup →
  is_Some (lookup_get (JStr uuid) axis_lookup) ↔ declares_axis template_data uuid.
Proof.
  intros Hwalk. rewrite (find_axis_uuids_keys uuid template_data [] axis_lookup Hwalk).
  simpl. split; [|by right]. by intros [[? ?]|?].
Qed.

Lemma axis_lookup_holds_declared_axes_witness :
  is_Some (lookup_get (JStr "u1")
             [(JStr "u1", JObj [("uuid", JStr "u1"); ("axisType", JStr "CNV")])])
  ↔ declares_axis
      (JArr [JObj [("axisUuids",
                    JArr [JObj [("className", JStr "AxisUuidOptions");
                                ("fields", JObj [("uuid", JStr "u1");
                                                 ("axisType", JStr "CNV")])]])]])
      "u1".
Proof.
  apply axis_lookup_holds_declared_axes. vm_compute. reflexivity.
Defined.

(** ** The table a category gets *)

Lemma is_str_eq (v : json) (text : string) : Py.is_str v text = true ↔ v = JStr text.
Proof.
  destruct v; simpl; try (split; [discriminate|done]).
  rewrite String.eqb_eq. split; [by intros ->|by intros [= ->]].
Qed.

Lemma match_axis_members (axis_lookup : list (json * json)) (user_id : json)
    (m m' : per_category (list json)) (axis_uuid : json) (c : category) (x : json) :
  match_axis axis_lookup user_id m axis_uuid = Some m' →
  x ∈ cat_get c m' ↔ x ∈ cat_get c m ∨ (x = user_id ∧ axis_offers axis_lookup axis_uuid c).
Proof.
  unfold match_axis, axis_offers. destruct (Py.hashable axis_uuid); [|done].
  destruct (lookup_get axis_uuid axis_lookup) as [axis_fields|] eqn:Hlookup.
  2: { intros [= <-]. split; [by left|]. by intros [?|(_ & ? & ? & ? & _)]. }
  destruct (Py.get axis_fields "axisType" (JStr "")) as [axis_type|] eqn:Htype;
    simpl; [|done].
  assert (∀ P : Prop,
            (∃ axis_fields0 axis_type0,
               Some axis_fields = Some axis_fields0
               ∧ Py.get axis_fields0 "axisType" (JStr "") = Some axis_type0
               ∧ Py.is_str axis_type0 (axis_type_name c) = true)
            ↔ Py.is_str axis_type (axis_type_name c) = true) as Hoffers.
  { intros _. split.
    - intros (f & t & [= <-] & Ht & Hc). congruence.
    - intros Hc. by exists axis_fields, axis_type. }
  rewrite (Hoffers True). clear Hoffers.
  destruct (Py.is_str axis_type "CNV") eqn:Hcnv;
    [|destruct (Py.is_str axis_type "Breakend") eqn:Hbnd;
      [|destruct (Py.is_str axis_type "Region") eqn:Hregion]];
    intros [= <-]; destruct c; simpl;
    rewrite ?elem_of_app, ?list_elem_of_singleton;
    try (apply is_str_eq in Hcnv; subst axis_type);
    try (apply is_str_eq in Hbnd; subst axis_type);
    try (apply is_str_eq in Hregion; subst axis_type);
    simpl; try tauto; try (rewrite ?Hcnv, ?Hbnd, ?Hregion; split; [tauto|];
                           intros [?|[_ ?]]; [tauto|discriminate]).
Qed.

Lemma match_table_members (axis_lookup : list (json * json))
    (m m' : per_category (list json)) (table_option : json) (c : category) (x : json) :
  match_table axis_lookup m table_option = Some m' →
  x ∈ cat_get c m' ↔ x ∈ cat_get c m ∨ table_offers axis_lookup table_option c x.
Proof.
  unfold match_table, table_offers.
  destruct (Py.get table_option "fields" (JObj [])) as [fields|]; simpl; [|done].
  destruct (Py.get fields "userId" (JStr "")) as [user_id|] eqn:Huser; simpl; [|done].
  destruct (Py.get fields "axisUuidList" (JArr [])) as [axis_uuid_list|] eqn:Hlist;
    simpl; [|done].
  destruct (Py.iter axis_uuid_list) as [axis_uuids|] eqn:Hiter; simpl; [|done].
  intros Hloop.
  rewrite (for_each_grows (λ m, x ∈ cat_get c m) (match_axis axis_lookup user_id)
             (λ axis_uuid, x = user_id ∧ axis_offers axis_lookup axis_uuid c) axis_uuids
             ltac:(apply Forall_forall; intros u _ s s'; apply match_axis_members)
             m m' Hloop).
  split; (intros [?|Hd]; [by left|right]).
  - destruct Hd as (u & Hu & -> & Ho). by exists fields, axis_uuid_list, axis_uuids, u.
  - destruct Hd as (f & l & us & u & [= <-] & Hx & Hl & Hi & Hu & Ho).
    rewrite Huser in Hx. injection Hx as <-. rewrite Hlist in Hl. injection Hl as <-.
    rewrite Hiter in Hi. injection Hi as <-. by exists u.
Qed.

Lemma unique_from_sub (seen candidates unique_candidates : list json) :
  unique_from seen candidates = Some unique_candidates →
  ∀ x, x ∈ unique_candidates → x ∈ candidates.
Proof.
  revert seen unique_candidates.
  induction candidates as [|c candidates IH]; intros seen u; simpl.
  - intros [= <-] x Hx. by apply elem_of_nil in Hx.
  - destruct (Py.hashable c); [|done]. destruct (existsb _ seen).
    + intros Hu x Hx. right. by eapply IH.
    + destruct (unique_from (c :: seen) candidates) as [u'|] eqn:Hu'; simpl; [|done].
      intros [= <-] x [->|Hx]%elem_of_cons; [by left|]. right. by eapply IH.
Qed.

Lemma mapM_as_str_Some (values : list json) (names : list string) :
  mapM Py.as_str values = Some names → values = JStr <$> names.
Proof.
  revert names. induction values as [|v values IH]; intros names.
  - by intros [= <-].
  - cbn [mapM mbind option_bind]. destruct (Py.as_str v) as [s|] eqn:Hv; simpl; [|done].
    destruct (mapM Py.as_str values) as [names'|]; simpl; [|done].
    intros [= <-]. destruct v; simpl in Hv; try done. injection Hv as ->.
    simpl. f_equal. by apply IH.
Qed.

(** The table selected is one of the candidates, unless there is none. *)
Lemma select_table_candidate (candidates : list json) (selected : json) :
  select_table candidates = Some selected →
  (candidates = [] ∧ selected = JNull) ∨ selected ∈ candidates.
Proof.
  unfold select_table. destruct candidates as [|c0 candidates']; [by intros [= <-]; left|].
  set (candidates := c0 :: candidates').
  destruct (unique_from [] candidates) as [u|] eqn:Hu; simpl; [|done].
  pose proof (unique_from_sub [] candidates u Hu) as Hsub.
  intros Hsel. right.
  destruct u as [|only [|second u']].
  - exfalso. unfold candidates in Hu. simpl in Hu.
    destruct (Py.hashable c0); [|done].
    by destruct (unique_from [c0] candidates').
  - injection Hsel as <-. apply Hsub. by left.
  - destruct (mapM Py.as_str (only :: second :: u')) as [names|] eqn:Hnames;
      simpl in Hsel; [|done].
    apply mapM_as_str_Some in Hnames.
    assert (∀ l : list string, (∀ y, y ∈ l → y ∈ names) →
              JStr <$> head (PyStr.sorted l) = Some selected → selected ∈ candidates)
      as Hhead.
    { intros l Hl Hy. destruct (PyStr.sorted l) as [|h t] eqn:Hsorted; [done|].
      simpl in Hy. injection Hy as <-. apply Hsub. rewrite Hnames.
      apply list_elem_of_fmap. exists h. split; [done|]. apply Hl.
      apply elem_of_sorted. rewrite Hsorted. by left. }
    case_decide.
    + eapply Hhead; [|exact Hsel]. by intros y [_ ?]%list_elem_of_filter.
    + case_decide.
      * eapply Hhead; [|exact Hsel]. by intros y [_ ?]%list_elem_of_filter.
      * simpl in Hsel. injection Hsel as <-. apply Hsub. by left.
Qed.

(** X26. When the table resolution does not raise, the identifier it gives
    a category is the [userId] of a table record of the document that has,
    in its [axisUuidList], an axis the lookup resolves to the type of the
    category ([CNV], [Breakend], [Region]); it is [None] with no such
    record only when the document has none for the category. *)
Theorem selected_table_has_an_axis_of_its_type (template_data : json)
    (ids : per_category json) :
  resolve_tables template_data = Some ids →
  ∃ axis_lookup,
    _find_axis_uuids template_data [] = Some axis_lookup
    ∧ ∀ c,
        (∃ table_option,
           table_option ∈ _find_table_data_options template_data
           ∧ table_offers axis_lookup table_option c (cat_get c ids))
        ∨ (cat_get c ids = JNull
           ∧ ∀ table_option user_id,
               table_option ∈ _find_table_data_options template_data →
               ¬ table_offers axis_lookup table_option c user_id).
Proof.
  unfold resolve_tables.
  destruct (_find_axis_uuids template_data []) as [axis_lookup|]; simpl; [|done].
  destruct (for_each (match_table axis_lookup) (_find_table_data_options template_data)
              (PerCategory [] [] [])) as [m|] eqn:Hmatch; simpl; [|done].
  destruct (select_table (of_cnv m)) as [cnv_id|] eqn:Hcnv; simpl; [|done].
  destruct (select_table (of_breakend m)) as [breakend_id|] eqn:Hbnd; simpl; [|done].
  destruct (select_table (of_region m)) as [region_id|] eqn:Hregion; simpl; [|done].
  intros [= <-]. exists axis_lookup. split; [done|]. intros c.
  assert (∀ x, x ∈ cat_get c m
               ↔ ∃ t, t ∈ _find_table_data_options template_data
                      ∧ table_offers axis_lookup t c x) as Hmembers.
  { intros x.
    rewrite (for_each_grows (λ m, x ∈ cat_get c m) (match_table axis_lookup)
               (λ t, table_offers axis_lookup t c x)
               (_find_table_data_options template_data)
               ltac:(apply Forall_forall; intros t _ s s'; apply match_table_members)
               _ m Hmatch).
    split; [|by right]. intros [Hx|?]; [|done]. destruct c; by apply elem_of_nil in Hx. }
  assert (select_table (cat_get c m) = Some (cat_get c (PerCategory cnv_id breakend_id region_id)))
    as Hsel by (by destruct c).
  apply select_table_candidate in Hsel as [[Hnone ->]|Hin].
  - right. split; [done|]. intros t x Ht Ho.
    assert (x ∈ cat_get c m) as Hx by (apply Hmembers; by exists t).
    rewrite Hnone in Hx. by apply elem_of_nil in Hx.
  - left. by apply Hmembers.
Qed.

Lemma selected_table_has_an_axis_of_its_type_witness :
  ∃ axis_lookup,
    _find_axis_uuids
      (JObj [("axisUuids",
              JArr [JObj [("className", JStr "AxisUuidOptions");
                          ("fields", JObj [("uuid", JStr "u1");
                                           ("axisType", JStr "CNV")])]]);
             ("tables",
              JArr [JObj [("className", JStr "VSTableDataOptions");
                          ("fields", JObj [("userId", JStr "Calls");
                                           ("axisUuidList", JArr [JStr "u1"])])]])]) []
    = Some axis_lookup
    ∧ ∀ c,
        (∃ table_option,
           table_option ∈ _find_table_data_options
             (JObj [("axisUuids",
                     JArr [JObj [("className", JStr "AxisUuidOptions");
                                 ("fields", JObj [("uuid", JStr "u1");
                                                  ("axisType", JStr "CNV")])]]);
                    ("tables",
                     JArr [JObj [("className", JStr "VSTableDataOptions");
                                 ("fields", JObj [("userId", JStr "Calls");
                                                  ("axisUuidList", JArr [JStr "u1"])])]])])
           ∧ table_offers axis_lookup table_option c
               (cat_get c (PerCategory (JStr "Calls") JNull JNull)))
        ∨ (cat_get c (PerCategory (JStr "Calls") JNull JNull) = JNull
           ∧ ∀ table_option user_id,
               table_option ∈ _find_table_data_options
                 (JObj [("axisUuids",
                         JArr [JObj [("className", JStr "AxisUuidOptions");
                                     ("fields", JObj [("uuid", JStr "u1");
                                                      ("axisType", JStr "CNV")])]]);
                        ("tables",
                         JArr [JObj [("className", JStr "VSTableDataOptions");
                                     ("fields", JObj [("userId", JStr "Calls");
                                                      ("axisUuidList", JArr [JStr "u1"])])]])]) →
               ¬ table_offers axis_lookup table_option c user_id).
Proof.
  apply selected_table_has_an_axis_of_its_type. vm_compute. reflexivity.
Defined.

(** ** When the resolver exits, and when it writes nothing *)




(** ** Project names *)

Lemma append_cancel_l (a x y : string) : a +:+ x = a +:+ y → x = y.
Proof.
  induction a as [|c a IH]; [done|]. rewrite !append_cons. intros [= H]. by apply IH.
Qed.

Lemma length_append (a b : string) :
  String.length (a +:+ b) = String.length a + String.length b.
Proof. induction a as [|c a IH]; [done|]. rewrite append_cons. simpl. by rewrite IH. Qed.

Lemma append_cancel_r (a b s : string) : a +:+ s = b +:+ s → a = b.
Proof.
  revert b. induction a as [|c a IH]; intros [|d b] H.
  - done.
  - apply (f_equal String.length) in H. rewrite !length_append in H. simpl in H. lia.
  - apply (f_equal String.length) in H. rewrite !length_append in H. simpl in H. lia.
  - rewrite !append_cons in H. injection H as -> H. f_equal. by apply IH.
Qed.

Lemma split_join_sep (sep : ascii) (group : list string) :
  group ≠ [] → Forall (λ name, ¬ occurs sep name) group →
  split sep (PyStr.join (String sep "") group) = group.
Proof.
  unfold split. induction group as [|x [|y r] IH]; [done| |]; intros _ Hall.
  - apply Forall_cons in Hall as [Hx _]. cbn [PyStr.join].
    rewrite <- (append_empty_r x) at 1. rewrite split_from_field by done.
    by rewrite append_nil.
  - apply Forall_cons in Hall as [Hx Hall].
    rewrite join_cons, split_from_field, append_nil, append_cons, append_nil by done.
    cbn [split_from]. rewrite Ascii.eqb_refl. f_equal. by apply IH.
Qed.

(** X28. Small groups never share a project by accident: if no sample name
    contains an underscore, two non-empty groups of fewer than six samples
    whose batches create the same project (same template, same overwrite
    setting) hold the same samples. *)
Theorem small_groups_with_one_project_are_equal (template_file : string)
    (group1 group2 : list string) (sample_data1 sample_data2 : gmap string sample_files)
    (flags1 flags2 : import_flags) (ids1 ids2 : table_names) (overwrite_project : bool) :
  length group1 < 6 → length group2 < 6 → group1 ≠ [] → group2 ≠ [] →
  Forall (λ name, ¬ occurs "_" name) group1 →
  Forall (λ name, ¬ occurs "_" name) group2 →
  head (vsbatch_lines template_file group1 sample_data1 flags1 ids1 overwrite_project)
  = head (vsbatch_lines template_file group2 sample_data2 flags2 ids2 overwrite_project) →
  group1 ≡ₚ group2.
Proof.
  intros Hlen1 Hlen2 Hne1 Hne2 Hplain1 Hplain2. unfold vsbatch_lines.
  rewrite (decide_True (P := length group1 < 6)) by done.
  rewrite (decide_True (P := length group2 < 6)) by done.
  cbn [app head]. intros [= Hline].
  unfold quoted in Hline. rewrite !append_assoc in Hline.
  repeat apply append_cancel_l in Hline. apply append_cancel_r in Hline.
  assert (∀ g, g ≠ [] → Forall (λ name, ¬ occurs "_" name) g →
               split "_" (PyStr.join "_" (PyStr.sorted g)) = PyStr.sorted g) as Hsplit.
  { intros g Hg Hplain. apply split_join_sep.
    - intros Hnil. apply Hg. apply Permutation_nil_r. rewrite <- Hnil.
      symmetry. apply sorted_Permutation.
    - by rewrite sorted_Permutation. }
  apply (f_equal (split "_")) in Hline.
  rewrite (Hsplit group1), (Hsplit group2) in Hline by done.
  by rewrite <- (sorted_Permutation group1), Hline, sorted_Permutation.
Qed.

Lemma small_groups_with_one_project_are_equal_witness : ["b"; "a"] ≡ₚ ["a"; "b"].
Proof.
  apply (small_groups_with_one_project_are_equal "t.vsproject-template"
           ["b"; "a"] ["a"; "b"] ∅ ∅ (ImportFlags false false false)
           (ImportFlags true true true) (TableNames None None None)
           (TableNames None None None) true).
  - simpl. lia.
  - simpl. lia.
  - discriminate.
  - discriminate.
  - repeat (apply Forall_cons; split;
            [unfold occurs; vm_compute; intros H;
             repeat (apply elem_of_cons in H as [H|H]; [discriminate H|]);
             by apply elem_of_nil in H|]).
    apply Forall_nil_2.
  - repeat (apply Forall_cons; split;
            [unfold occurs; vm_compute; intros H;
             repeat (apply elem_of_cons in H as [H|H]; [discriminate H|]);
             by apply elem_of_nil in H|]).
    apply Forall_nil_2.
  - vm_compute. reflexivity.
Defined.
